(** * UEVR plugin bridge (include/uevr/API.hpp): a shallow embedding

    The C++ header wraps the host's exported function tables.  Everything the
    wrappers do is: read a pointer out of the start-up descriptor, cache it in
    a static, and call through it.  The embedding therefore keeps

    - the process-wide statics ([s_instance], the per-kind [s_functions]
      pointers, the function-local [static] variables) in an explicit
      [State];
    - the host behind an oracle [ffi]: a call through function pointer [fn]
      with some arguments, in some host state, yields a new host state, a
      returned machine word and the cells the host stored into the caller's
      buffer;
    - C++ exceptions, undefined behaviour (null dereference, call through a
      null function pointer) and non-termination as the outcomes [Throw],
      [Crash] and [Diverge] of a small state-and-error monad.

    Scope of the model.  Operations run one after the other on one thread
    (two threads are modelled only inside the per-kind [initialize()], see
    [interleave]) and the host does not call back into the bridge.  Handles,
    counts and characters are natural numbers: the integer types of the
    counts are declared in API.h, which is not among the sources, so their
    overflow is not modelled.  The bridge never looks into host memory: what lies behind
    the pointers the host hands out is not part of the model.  Failure to
    allocate a container ([std::bad_alloc], [std::length_error] out of
    [std::wstring(size, ..)], [resize] or a concatenation) is not modelled
    either: the exceptions of the model are the three [std::runtime_error]s
    the header itself throws. *)

From Stdlib Require Import NArith List String Bool Arith Lia.
Import ListNotations.

Set Implicit Arguments.
Open Scope N_scope.

(** ** Values crossing the boundary *)

(** Opaque host identities ([UEVR_UObjectHandle], [UEVR_FNameHandle], ...):
    address-sized words, [0] is [nullptr]. *)
Definition Handle := N.

(** A C function pointer: the address of host code, [0] is [nullptr]. *)
Definition FnPtr := N.

(** [wchar_t] code units and [std::wstring]. *)
Definition wchar := N.
Definition wstring := list wchar.

Definition dot : wchar := 46.
Definition space : wchar := 32.

(** A [std::wstring_view] over memory: [chars] are the [size()] code units
    it denotes, [beyond] the code units that follow them in memory. *)
Record wstring_view := mkView {
  chars : wstring;
  beyond : wstring }.

(** The view of a string literal or of a whole [std::wstring]: the
    terminator follows the characters. *)
Definition view_of (t : wstring) : wstring_view :=
  {| chars := t; beyond := [0] |}.

(** What a callee reads at a [const wchar_t*]: the code units up to the
    first NUL. *)
Fixpoint c_str (m : wstring) : wstring :=
  match m with
  | [] => []
  | c :: m' => if c =? 0 then [] else c :: c_str m'
  end.

(** [name.data()] as the callee sees it.  The wrappers pass the pointer
    alone, never [size()]: the callee stops at the first NUL, inside the
    view or beyond its end ([beyond] is to reach as far as that NUL). *)
Definition data (name : wstring_view) : wstring :=
  c_str (chars name ++ beyond name).

(** What a wrapper passes to the host: a word (handle, integer, [bool],
    [void*]), a pointer to NUL-terminated text (given by the text the callee
    reads there), or a destination buffer: [ABuffer None] is [nullptr],
    [ABuffer (Some n)] is [result.data()] of a container holding [n]
    elements. *)
Inductive Arg : Type :=
| AWord (w : N)
| AText (t : wstring)
| ABuffer (cells : option N).

Definition of_bool (b : bool) : N := if b then 1 else 0.
Definition to_bool (w : N) : bool := negb (w =? 0).

(** The [n] elements of a zero-filled container ([std::wstring(n, L'\0')],
    [std::vector::resize(n)]) after the host stored [written] from its first
    cell on.  Only the [n] logical elements are part of the value: the
    terminator slot of a [wstring] is not, and a host storing past what it was
    handed is outside this model. *)
Definition store (n : N) (written : list N) : list N :=
  firstn (N.to_nat n) (written ++ repeat 0 (N.to_nat n)).

(** ** The start-up descriptor *)

(** Modelled from the spec: the C declarations of API.h are not among the
    sources; each function table is a struct with one function pointer per
    operation, with the member names API.hpp reads.  This one is
    [UEVR_FNameFunctions]. *)
Module FNameFunctions.
Record t := mk { to_string : FnPtr }.
End FNameFunctions.

(** Modelled from the spec: [UEVR_UObjectFunctions] of API.h,
    with the members API.hpp reads. *)
Module UObjectFunctions.
Record t := mk {
  get_class : FnPtr;
  get_outer : FnPtr;
  get_property_data : FnPtr;
  is_a : FnPtr;
  process_event : FnPtr;
  call_function : FnPtr;
  get_fname : FnPtr }.
End UObjectFunctions.

(** Modelled from the spec: [UEVR_UStructFunctions] of API.h,
    with the members API.hpp reads. *)
Module UStructFunctions.
Record t := mk {
  get_super_struct : FnPtr;
  find_function : FnPtr;
  get_child_properties : FnPtr }.
End UStructFunctions.

(** Modelled from the spec: [UEVR_UClassFunctions] of API.h,
    with the members API.hpp reads. *)
Module UClassFunctions.
Record t := mk { get_class_default_object : FnPtr }.
End UClassFunctions.

(** Modelled from the spec: [UEVR_UFunctionFunctions] of API.h,
    with the members API.hpp reads. *)
Module UFunctionFunctions.
Record t := mk { get_native_function : FnPtr }.
End UFunctionFunctions.

(** Modelled from the spec: [UEVR_FFieldFunctions] of API.h,
    with the members API.hpp reads. *)
Module FFieldFunctions.
Record t := mk {
  get_next : FnPtr;
  get_class : FnPtr;
  get_fname : FnPtr }.
End FFieldFunctions.

(** Modelled from the spec: [UEVR_FPropertyFunctions] of API.h,
    with the members API.hpp reads. *)
Module FPropertyFunctions.
Record t := mk { get_offset : FnPtr }.
End FPropertyFunctions.

(** Modelled from the spec: [UEVR_FFieldClassFunctions] of API.h,
    with the members API.hpp reads. *)
Module FFieldClassFunctions.
Record t := mk { get_fname : FnPtr }.
End FFieldClassFunctions.

(** Modelled from the spec: [UEVR_UObjectHookFunctions] of API.h,
    with the members API.hpp reads. *)
Module UObjectHookFunctions.
Record t := mk {
  activate : FnPtr;
  get_objects_by_class : FnPtr;
  get_first_object_by_class : FnPtr }.
End UObjectHookFunctions.

(** Modelled from the spec: [UEVR_UObjectArrayFunctions] of API.h,
    with the members API.hpp reads. *)
Module UObjectArrayFunctions.
Record t := mk { find_uobject : FnPtr }.
End UObjectArrayFunctions.

(** Modelled from the spec: [UEVR_SDKFunctions] of API.h,
    with the members API.hpp reads. *)
Module SDKFunctions.
Record t := mk {
  get_uengine : FnPtr;
  get_player_controller : FnPtr;
  get_local_pawn : FnPtr;
  spawn_object : FnPtr;
  execute_command : FnPtr;
  execute_command_ex : FnPtr;
  get_uobject_array : FnPtr }.
End SDKFunctions.

(** Modelled from the spec: [UEVR_PluginFunctions] of API.h,
    with the members API.hpp reads. *)
Module PluginFunctions.
Record t := mk {
  log_error : FnPtr;
  log_warn : FnPtr;
  log_info : FnPtr }.
End PluginFunctions.

(** Modelled from the spec: [UEVR_SDKData] of API.h, the nested per-kind
    function tables; every member is a pointer and may be null ([None]). *)
Record UEVR_SDKData := mkSDK {
  functions : option SDKFunctions.t;
  uobject_array : option UObjectArrayFunctions.t;
  fname : option FNameFunctions.t;
  uobject : option UObjectFunctions.t;
  ustruct : option UStructFunctions.t;
  uclass : option UClassFunctions.t;
  ufunction : option UFunctionFunctions.t;
  ffield : option FFieldFunctions.t;
  fproperty : option FPropertyFunctions.t;
  ffield_class : option FFieldClassFunctions.t;
  uobject_hook : option UObjectHookFunctions.t }.

(** Modelled from the spec: [UEVR_PluginInitializeParam] of API.h, the root
    struct delivered once at attach: the logging callbacks (member
    [functions] in C, [plugin_functions] here) and the SDK. *)
Record UEVR_PluginInitializeParam := mkParam {
  plugin_functions : option PluginFunctions.t;
  sdk : option UEVR_SDKData }.

(** [class API]: its two data members. *)
Record API := mkAPI {
  m_param : UEVR_PluginInitializeParam;
  m_sdk : option UEVR_SDKData }.

(** [API::API(param)]: [m_param{param}, m_sdk{param->sdk}]. *)
Definition API_ctor (param : UEVR_PluginInitializeParam) : API :=
  {| m_param := param; m_sdk := sdk param |}.

(** ** Entity kinds and the static variables of the header *)

Inductive Kind : Type :=
| KFName | KUObject | KUStruct | KUClass
| KUFunction | KFField | KFProperty | KFFieldClass.

Definition Kind_eq_dec (a b : Kind) : {a = b} + {a <> b}.
Proof. decide equality. Defined.

(** The table type cached for a kind. *)
Definition Table (k : Kind) : Type :=
  match k with
  | KFName => FNameFunctions.t
  | KUObject => UObjectFunctions.t
  | KUStruct => UStructFunctions.t
  | KUClass => UClassFunctions.t
  | KUFunction => UFunctionFunctions.t
  | KFField => FFieldFunctions.t
  | KFProperty => FPropertyFunctions.t
  | KFFieldClass => FFieldClassFunctions.t
  end.

(** Where the descriptor keeps the table of a kind. *)
Definition sdk_table (k : Kind) (d : UEVR_SDKData) : option (Table k) :=
  match k with
  | KFName => fname d
  | KUObject => uobject d
  | KUStruct => ustruct d
  | KUClass => uclass d
  | KUFunction => ufunction d
  | KFField => ffield d
  | KFProperty => fproperty d
  | KFFieldClass => ffield_class d
  end.

(** The type a template of the header is instantiated at: [UObject] (the
    default of [find_uobject]), [UClass] and [void*] (the instantiations the
    header itself makes), or any other type, told apart by a number. *)
Inductive TypeArg : Type :=
| T_UObject
| T_UClass
| T_void_ptr
| T_other (id : nat).

Definition TypeArg_index (T : TypeArg) : nat :=
  match T with
  | T_UObject => 0
  | T_UClass => 1
  | T_void_ptr => 2
  | T_other id => 3 + id
  end%nat.

(** One name per function-local [static] of API.hpp.  The templates
    [find_uobject<T>] and [get_property_data<T>] have one static [fn] per
    instantiation. *)
Inductive StaticVar : Type :=
| find_uobject_fn (T : TypeArg)
| get_engine_fn | get_player_controller_fn
| get_local_pawn_fn | spawn_object_fn | execute_command_fn
| execute_command_ex_fn | get_uobject_array_fn
| FName_to_string_fn
| UObject_static_class_result | UObject_get_class_fn | UObject_get_outer_fn
| UObject_is_a_fn | UObject_process_event_fn | UObject_call_function_fn
| UObject_get_property_data_fn (T : TypeArg)
| UObject_get_fname_fn
| UStruct_static_class_result | UStruct_get_super_struct_fn
| UStruct_find_function_fn | UStruct_get_child_properties_fn
| UClass_static_class_result | UClass_get_class_default_object_fn
| get_objects_matching_activate_fn | get_objects_matching_fn
| get_first_object_matching_activate_fn | get_first_object_matching_fn
| UFunction_static_class_result | UFunction_get_native_function_fn
| FField_get_next_fn | FField_get_fname_fn | FField_get_class_fn
| FProperty_get_offset_fn
| FFieldClass_get_fname_fn.

Definition StaticVar_index (v : StaticVar) : nat :=
  match v with
  | find_uobject_fn T => 34 + 2 * TypeArg_index T
  | UObject_get_property_data_fn T => 35 + 2 * TypeArg_index T
  | get_engine_fn => 1 | get_player_controller_fn => 2
  | get_local_pawn_fn => 3 | spawn_object_fn => 4 | execute_command_fn => 5
  | execute_command_ex_fn => 6 | get_uobject_array_fn => 7
  | FName_to_string_fn => 8
  | UObject_static_class_result => 9 | UObject_get_class_fn => 10
  | UObject_get_outer_fn => 11 | UObject_is_a_fn => 12
  | UObject_process_event_fn => 13 | UObject_call_function_fn => 14
  | UObject_get_fname_fn => 16
  | UStruct_static_class_result => 17 | UStruct_get_super_struct_fn => 18
  | UStruct_find_function_fn => 19 | UStruct_get_child_properties_fn => 20
  | UClass_static_class_result => 21
  | UClass_get_class_default_object_fn => 22
  | get_objects_matching_activate_fn => 23 | get_objects_matching_fn => 24
  | get_first_object_matching_activate_fn => 25
  | get_first_object_matching_fn => 26
  | UFunction_static_class_result => 27
  | UFunction_get_native_function_fn => 28
  | FField_get_next_fn => 29 | FField_get_fname_fn => 30
  | FField_get_class_fn => 31
  | FProperty_get_offset_fn => 32
  | FFieldClass_get_fname_fn => 33
  end%nat.

Definition StaticVar_eqb (a b : StaticVar) : bool :=
  Nat.eqb (StaticVar_index a) (StaticVar_index b).

(** ** The host *)

(** The host side of the boundary: its own state, and what a call through a
    function pointer does: new host state, returned word, cells stored into
    the destination buffer (from its first cell on). *)
Class Host : Type := {
  hstate : Type;
  ffi : FnPtr -> list Arg -> hstate -> hstate * (N * list N) }.

(** How a piece of wrapper code ends: it returns, it throws a
    [std::runtime_error], it runs into undefined behaviour (the process is
    lost), or it never returns. *)
Inductive Outcome (A : Type) : Type :=
| Ok (a : A)
| Throw (what : string)
| Crash
| Diverge.
Arguments Throw {A} what.
Arguments Crash {A}.
Arguments Diverge {A}.

(** A call through a non-null function pointer, as logged. *)
Definition Call : Type := (FnPtr * list Arg)%type.

Section Bridge.
Context {host_model : Host}.

(** ** Process state *)

(** The host state, the statics of the header, and two logs kept for
    specification only: the host calls made, and the kinds whose table was
    read out of the descriptor. *)
Record State := mkState {
  host : hstate;
  s_instance : option API;
  FName_s_functions : option FNameFunctions.t;
  UObject_s_functions : option UObjectFunctions.t;
  UStruct_s_functions : option UStructFunctions.t;
  UClass_s_functions : option UClassFunctions.t;
  UFunction_s_functions : option UFunctionFunctions.t;
  FField_s_functions : option FFieldFunctions.t;
  FProperty_s_functions : option FPropertyFunctions.t;
  FFieldClass_s_functions : option FFieldClassFunctions.t;
  statics : StaticVar -> option N;
  calls : list Call;
  fetches : list Kind }.

(** The process at start-up: all statics null or uninitialised. *)
Definition initial (h : hstate) : State :=
  mkState h None None None None None None None None None (fun _ => None) [] [].

(** The [s_functions] static of a kind. *)
Definition s_functions (k : Kind) (s : State) : option (Table k) :=
  match k with
  | KFName => FName_s_functions s
  | KUObject => UObject_s_functions s
  | KUStruct => UStruct_s_functions s
  | KUClass => UClass_s_functions s
  | KUFunction => UFunction_s_functions s
  | KFField => FField_s_functions s
  | KFProperty => FProperty_s_functions s
  | KFFieldClass => FFieldClass_s_functions s
  end.

Definition set_s_instance (a : option API) (s : State) : State :=
  mkState (host s) a (FName_s_functions s) (UObject_s_functions s)
    (UStruct_s_functions s) (UClass_s_functions s) (UFunction_s_functions s)
    (FField_s_functions s) (FProperty_s_functions s)
    (FFieldClass_s_functions s) (statics s) (calls s) (fetches s).

Definition set_static (v : StaticVar) (x : N) (s : State) : State :=
  mkState (host s) (s_instance s) (FName_s_functions s) (UObject_s_functions s)
    (UStruct_s_functions s) (UClass_s_functions s) (UFunction_s_functions s)
    (FField_s_functions s) (FProperty_s_functions s)
    (FFieldClass_s_functions s)
    (fun v' => if StaticVar_eqb v v' then Some x else statics s v')
    (calls s) (fetches s).

Definition log_call (h : hstate) (c : Call) (s : State) : State :=
  mkState h (s_instance s) (FName_s_functions s) (UObject_s_functions s)
    (UStruct_s_functions s) (UClass_s_functions s) (UFunction_s_functions s)
    (FField_s_functions s) (FProperty_s_functions s)
    (FFieldClass_s_functions s) (statics s) (calls s ++ [c]) (fetches s).

Definition log_fetch (k : Kind) (s : State) : State :=
  mkState (host s) (s_instance s) (FName_s_functions s) (UObject_s_functions s)
    (UStruct_s_functions s) (UClass_s_functions s) (UFunction_s_functions s)
    (FField_s_functions s) (FProperty_s_functions s)
    (FFieldClass_s_functions s) (statics s) (calls s) (fetches s ++ [k]).

(** Assignment to the [s_functions] static of a kind. *)
Definition set_s_functions (k : Kind) : option (Table k) -> State -> State :=
  match k with
  | KFName => fun t s =>
      mkState (host s) (s_instance s) t (UObject_s_functions s)
        (UStruct_s_functions s) (UClass_s_functions s)
        (UFunction_s_functions s) (FField_s_functions s)
        (FProperty_s_functions s) (FFieldClass_s_functions s) (statics s)
        (calls s) (fetches s)
  | KUObject => fun t s =>
      mkState (host s) (s_instance s) (FName_s_functions s) t
        (UStruct_s_functions s) (UClass_s_functions s)
        (UFunction_s_functions s) (FField_s_functions s)
        (FProperty_s_functions s) (FFieldClass_s_functions s) (statics s)
        (calls s) (fetches s)
  | KUStruct => fun t s =>
      mkState (host s) (s_instance s) (FName_s_functions s)
        (UObject_s_functions s) t (UClass_s_functions s)
        (UFunction_s_functions s) (FField_s_functions s)
        (FProperty_s_functions s) (FFieldClass_s_functions s) (statics s)
        (calls s) (fetches s)
  | KUClass => fun t s =>
      mkState (host s) (s_instance s) (FName_s_functions s)
        (UObject_s_functions s) (UStruct_s_functions s) t
        (UFunction_s_functions s) (FField_s_functions s)
        (FProperty_s_functions s) (FFieldClass_s_functions s) (statics s)
        (calls s) (fetches s)
  | KUFunction => fun t s =>
      mkState (host s) (s_instance s) (FName_s_functions s)
        (UObject_s_functions s) (UStruct_s_functions s)
        (UClass_s_functions s) t (FField_s_functions s)
        (FProperty_s_functions s) (FFieldClass_s_functions s) (statics s)
        (calls s) (fetches s)
  | KFField => fun t s =>
      mkState (host s) (s_instance s) (FName_s_functions s)
        (UObject_s_functions s) (UStruct_s_functions s)
        (UClass_s_functions s) (UFunction_s_functions s) t
        (FProperty_s_functions s) (FFieldClass_s_functions s) (statics s)
        (calls s) (fetches s)
  | KFProperty => fun t s =>
      mkState (host s) (s_instance s) (FName_s_functions s)
        (UObject_s_functions s) (UStruct_s_functions s)
        (UClass_s_functions s) (UFunction_s_functions s)
        (FField_s_functions s) t (FFieldClass_s_functions s) (statics s)
        (calls s) (fetches s)
  | KFFieldClass => fun t s =>
      mkState (host s) (s_instance s) (FName_s_functions s)
        (UObject_s_functions s) (UStruct_s_functions s)
        (UClass_s_functions s) (UFunction_s_functions s)
        (FField_s_functions s) (FProperty_s_functions s) t (statics s)
        (calls s) (fetches s)
  end.

(** ** The monad of wrapper code *)

Definition M (A : Type) : Type := State -> Outcome A * State.

Definition ret {A} (a : A) : M A := fun s => (Ok a, s).

Definition bind {A B} (m : M A) (k : A -> M B) : M B :=
  fun s =>
    match m s with
    | (Ok a, s') => k a s'
    | (Throw w, s') => (Throw w, s')
    | (Crash, s') => (Crash, s')
    | (Diverge, s') => (Diverge, s')
    end.

Definition throw {A} (what : string) : M A := fun s => (Throw what, s).
Definition crash {A} : M A := fun s => (Crash, s).
Definition diverge {A} : M A := fun s => (Diverge, s).
Definition gets {A} (f : State -> A) : M A := fun s => (Ok (f s), s).
Definition modify (f : State -> State) : M unit := fun s => (Ok tt, f s).

End Bridge.

Declare Scope bridge_scope.
Delimit Scope bridge_scope with bridge.
Notation "x <- c ;; k" := (bind c (fun x => k))
  (at level 61, c at next level, right associativity) : bridge_scope.
Notation "c ;; k" := (bind c (fun _ => k))
  (at level 61, right associativity) : bridge_scope.
Open Scope bridge_scope.

Section Wrappers.
Context {host_model : Host}.

(** ** Primitive steps *)

(** [p->member] on a pointer that may be null. *)
Definition deref {A} (p : option A) : M A :=
  match p with
  | Some a => ret a
  | None => crash
  end.

(** [fn(args...)]: a call through a function pointer. *)
Definition call (fn : FnPtr) (args : list Arg) : M (N * list N) :=
  fun s =>
    if fn =? 0 then (Crash, s)
    else let (h', r) := ffi fn args (host s) in
         (Ok r, log_call h' (fn, args) s).

(** [static const auto v = init;] inside a function body: [init] runs when
    control first passes through the declaration; if it exits by an
    exception the variable stays uninitialised and [init] runs again the next
    time. *)
Definition static_local (v : StaticVar) (init : M N) : M N :=
  fun s =>
    match statics s v with
    | Some x => (Ok x, s)
    | None =>
        match init s with
        | (Ok x, s') => (Ok x, set_static v x s')
        | r => r
        end
    end.

(** ** [API::initialize], [API::get] *)

Definition API_initialize (param : option UEVR_PluginInitializeParam) : M API :=
  match param with
  | None => throw "param is null"
  | Some p =>
      cur <- gets s_instance ;;
      match cur with
      | Some _ => throw "API already initialized"
      | None =>
          modify (set_s_instance (Some (API_ctor p))) ;;
          ret (API_ctor p)
      end
  end.

Definition API_get : M API :=
  cur <- gets s_instance ;;
  match cur with
  | None => throw "API not initialized"
  | Some a => ret a
  end.

(** ** The per-kind [initialize()] *)

(** [if (s_functions == nullptr) s_functions = API::get()->sdk()-><kind>;
    return s_functions;] -- the header repeats this body once per kind,
    differing only in the member read. *)
Definition initialize (k : Kind) : M (option (Table k)) :=
  cur <- gets (s_functions k) ;;
  match cur with
  | None =>
      api <- API_get ;;
      d <- deref (m_sdk api) ;;
      modify (log_fetch k) ;;
      modify (set_s_functions k (sdk_table k d)) ;;
      gets (s_functions k)
  | Some _ => ret cur
  end.

Definition FName_initialize := initialize KFName.
Definition UObject_initialize := initialize KUObject.
Definition UStruct_initialize := initialize KUStruct.
Definition UClass_initialize := initialize KUClass.
Definition UFunction_initialize := initialize KUFunction.
Definition FField_initialize := initialize KFField.
Definition FProperty_initialize := initialize KFProperty.
Definition FFieldClass_initialize := initialize KFFieldClass.

(** [init()->member]: the initialiser of the [fn] statics of the wrappers. *)
Definition member {T} (init : M (option T)) (field : T -> FnPtr) : M FnPtr :=
  p <- init ;;
  t <- deref p ;;
  ret (field t).

(** [sdk()-><table>-><member>] on an [API] object. *)
Definition sdk_member {T} (api : API) (table : UEVR_SDKData -> option T)
    (field : T -> FnPtr) : M FnPtr :=
  d <- deref (m_sdk api) ;;
  t <- deref (table d) ;;
  ret (field t).

(** ** Members of [API] *)

(** [find_uobject<T>(name)]: the static [fn] belongs to the
    instantiation. *)
Definition API_find_uobject (T : TypeArg) (api : API) (name : wstring_view)
    : M Handle :=
  fn <- static_local (find_uobject_fn T)
          (sdk_member api uobject_array UObjectArrayFunctions.find_uobject) ;;
  r <- call fn [AText (data name)] ;;
  ret (fst r).

Definition API_get_engine (api : API) : M Handle :=
  fn <- static_local get_engine_fn
          (sdk_member api functions SDKFunctions.get_uengine) ;;
  r <- call fn [] ;;
  ret (fst r).

Definition API_get_player_controller (api : API) (index : N) : M Handle :=
  fn <- static_local get_player_controller_fn
          (sdk_member api functions SDKFunctions.get_player_controller) ;;
  r <- call fn [AWord index] ;;
  ret (fst r).

Definition API_get_local_pawn (api : API) (index : N) : M Handle :=
  fn <- static_local get_local_pawn_fn
          (sdk_member api functions SDKFunctions.get_local_pawn) ;;
  r <- call fn [AWord index] ;;
  ret (fst r).

Definition API_spawn_object (api : API) (klass outer : Handle) : M Handle :=
  fn <- static_local spawn_object_fn
          (sdk_member api functions SDKFunctions.spawn_object) ;;
  r <- call fn [AWord klass; AWord outer] ;;
  ret (fst r).

Definition API_execute_command (api : API) (command : wstring_view)
    : M unit :=
  fn <- static_local execute_command_fn
          (sdk_member api functions SDKFunctions.execute_command) ;;
  call fn [AText (data command)] ;;
  ret tt.

Definition API_execute_command_ex (api : API) (world : Handle)
    (command : wstring_view) (output_device : N) : M unit :=
  fn <- static_local execute_command_ex_fn
          (sdk_member api functions SDKFunctions.execute_command_ex) ;;
  call fn [AWord world; AText (data command); AWord output_device] ;;
  ret tt.

Definition API_get_uobject_array (api : API) : M Handle :=
  fn <- static_local get_uobject_array_fn
          (sdk_member api functions SDKFunctions.get_uobject_array) ;;
  r <- call fn [] ;;
  ret (fst r).

(** [log_error], [log_warn], [log_info]: [m_param->functions->log_*(format,
    args...)]; [format] is a [const char*], given by the text at it; the
    variadic arguments are passed on as words. *)
Definition API_log_error (api : API) (format : wstring) (args : list N)
    : M unit :=
  pf <- deref (plugin_functions (m_param api)) ;;
  call (PluginFunctions.log_error pf) (AText format :: map AWord args) ;;
  ret tt.

Definition API_log_warn (api : API) (format : wstring) (args : list N)
    : M unit :=
  pf <- deref (plugin_functions (m_param api)) ;;
  call (PluginFunctions.log_warn pf) (AText format :: map AWord args) ;;
  ret tt.

Definition API_log_info (api : API) (format : wstring) (args : list N)
    : M unit :=
  pf <- deref (plugin_functions (m_param api)) ;;
  call (PluginFunctions.log_info pf) (AText format :: map AWord args) ;;
  ret tt.

(** ** [API::FName] *)

(** [to_string()]: the size query, then the fill into
    [std::wstring result(size, L'\0')].  That the allocation of [result]
    can fail is outside the model. *)
Definition FName_to_string (this : Handle) : M wstring :=
  fn <- static_local FName_to_string_fn
          (member FName_initialize FNameFunctions.to_string) ;;
  q <- call fn [AWord this; ABuffer None; AWord 0] ;;
  let size := fst q in
  if size =? 0 then ret []
  else
    f <- call fn [AWord this; ABuffer (Some size); AWord (size + 1)] ;;
    ret (store size (snd f)).

(** ** [API::UObject] *)

Definition class_name_Object : wstring :=
  map (fun a => N.of_nat (Ascii.nat_of_ascii a))
      (list_ascii_of_string "Class /Script/CoreUObject.Object").
Definition class_name_Struct : wstring :=
  map (fun a => N.of_nat (Ascii.nat_of_ascii a))
      (list_ascii_of_string "Class /Script/CoreUObject.Struct").
Definition class_name_Class : wstring :=
  map (fun a => N.of_nat (Ascii.nat_of_ascii a))
      (list_ascii_of_string "Class /Script/CoreUObject.Class").
Definition class_name_Function : wstring :=
  map (fun a => N.of_nat (Ascii.nat_of_ascii a))
      (list_ascii_of_string "Class /Script/CoreUObject.Function").

(** [static auto result = API::get()->find_uobject<UClass>(name);] with
    [name] a string literal. *)
Definition static_class (v : StaticVar) (name : wstring) : M Handle :=
  static_local v
    (api <- API_get ;; API_find_uobject T_UClass api (view_of name)).

Definition UObject_static_class : M Handle :=
  static_class UObject_static_class_result class_name_Object.

Definition UObject_get_class (this : Handle) : M Handle :=
  fn <- static_local UObject_get_class_fn
          (member UObject_initialize UObjectFunctions.get_class) ;;
  r <- call fn [AWord this] ;;
  ret (fst r).

Definition UObject_get_outer (this : Handle) : M Handle :=
  fn <- static_local UObject_get_outer_fn
          (member UObject_initialize UObjectFunctions.get_outer) ;;
  r <- call fn [AWord this] ;;
  ret (fst r).

Definition UObject_is_a (this cmp : Handle) : M bool :=
  fn <- static_local UObject_is_a_fn
          (member UObject_initialize UObjectFunctions.is_a) ;;
  r <- call fn [AWord this; AWord cmp] ;;
  ret (to_bool (fst r)).

(** [is_a<T>()] is [is_a(T::static_class())]. *)
Definition UObject_is_a_T (static_class_T : M Handle) (this : Handle)
    : M bool :=
  c <- static_class_T ;;
  UObject_is_a this c.

Definition UObject_process_event (this function params : N) : M unit :=
  fn <- static_local UObject_process_event_fn
          (member UObject_initialize UObjectFunctions.process_event) ;;
  call fn [AWord this; AWord function; AWord params] ;;
  ret tt.

Definition UObject_call_function (this : Handle) (name : wstring_view)
    (params : N) : M unit :=
  fn <- static_local UObject_call_function_fn
          (member UObject_initialize UObjectFunctions.call_function) ;;
  call fn [AWord this; AText (data name); AWord params] ;;
  ret tt.

(** [get_property_data<T>(name)]: the static [fn] belongs to the
    instantiation; the untyped overload is the instantiation at [void*]. *)
Definition UObject_get_property_data_T (T : TypeArg) (this : Handle)
    (name : wstring_view) : M N :=
  fn <- static_local (UObject_get_property_data_fn T)
          (member UObject_initialize UObjectFunctions.get_property_data) ;;
  r <- call fn [AWord this; AText (data name)] ;;
  ret (fst r).

Definition UObject_get_property_data (this : Handle) (name : wstring_view)
    : M N :=
  UObject_get_property_data_T T_void_ptr this name.

(** [get_property<T>(name)] is [*get_property_data<T>(name)], handed back as
    a reference: the address again, and undefined behaviour when the host
    answered with a null pointer. *)
Definition UObject_get_property (T : TypeArg) (this : Handle)
    (name : wstring_view) : M N :=
  p <- UObject_get_property_data_T T this name ;;
  deref (if p =? 0 then None else Some p).

Definition UObject_get_fname (this : Handle) : M Handle :=
  fn <- static_local UObject_get_fname_fn
          (member UObject_initialize UObjectFunctions.get_fname) ;;
  r <- call fn [AWord this] ;;
  ret (fst r).

(** The [for] loop of [get_full_name]: [outer] is the loop variable,
    [obj_name] the accumulated path.  The test comes first; each further
    iteration costs one unit of [fuel], and running out of it is
    [Diverge]. *)
Fixpoint get_full_name_loop (fuel : nat) (this outer : Handle)
    (obj_name : wstring) : M wstring :=
  if negb (outer =? 0) && negb (outer =? this) then
    match fuel with
    | O => diverge
    | S fuel' =>
        n <- UObject_get_fname outer ;;
        t <- FName_to_string n ;;
        next <- UObject_get_outer outer ;;
        get_full_name_loop fuel' this next (t ++ dot :: obj_name)
    end
  else ret obj_name.

Definition UObject_get_full_name (fuel : nat) (this : Handle) : M wstring :=
  c <- UObject_get_class this ;;
  if c =? 0 then ret []
  else
    n <- UObject_get_fname this ;;
    obj_name <- FName_to_string n ;;
    outer <- UObject_get_outer this ;;
    obj_name <- get_full_name_loop fuel this outer obj_name ;;
    cn <- UObject_get_fname c ;;
    ct <- FName_to_string cn ;;
    ret (ct ++ space :: obj_name).

(** ** [API::UStruct] *)

Definition UStruct_static_class : M Handle :=
  static_class UStruct_static_class_result class_name_Struct.

Definition UStruct_get_super_struct (this : Handle) : M Handle :=
  fn <- static_local UStruct_get_super_struct_fn
          (member UStruct_initialize UStructFunctions.get_super_struct) ;;
  r <- call fn [AWord this] ;;
  ret (fst r).

Definition UStruct_get_super (this : Handle) : M Handle :=
  UStruct_get_super_struct this.

Definition UStruct_find_function (this : Handle) (name : wstring_view)
    : M Handle :=
  fn <- static_local UStruct_find_function_fn
          (member UStruct_initialize UStructFunctions.find_function) ;;
  r <- call fn [AWord this; AText (data name)] ;;
  ret (fst r).

Definition UStruct_get_child_properties (this : Handle) : M Handle :=
  fn <- static_local UStruct_get_child_properties_fn
          (member UStruct_initialize UStructFunctions.get_child_properties) ;;
  r <- call fn [AWord this] ;;
  ret (fst r).

(** ** [API::UClass] *)

Definition UClass_static_class : M Handle :=
  static_class UClass_static_class_result class_name_Class.

Definition UClass_get_class_default_object (this : Handle) : M Handle :=
  fn <- static_local UClass_get_class_default_object_fn
          (member UClass_initialize UClassFunctions.get_class_default_object) ;;
  r <- call fn [AWord this] ;;
  ret (fst r).

(** [API::get()->sdk()->uobject_hook-><member>]. *)
Definition hook_member (field : UObjectHookFunctions.t -> FnPtr) : M FnPtr :=
  api <- API_get ;;
  sdk_member api uobject_hook field.

(** [get_objects_matching(allow_default)]: activation, the count query, then
    the fill into [result] after [result.resize(size)].  That the [resize]
    can fail is outside the model. *)
Definition UClass_get_objects_matching (this : Handle) (allow_default : bool)
    : M (list Handle) :=
  activate_fn <- static_local get_objects_matching_activate_fn
                   (hook_member UObjectHookFunctions.activate) ;;
  fn <- static_local get_objects_matching_fn
          (hook_member UObjectHookFunctions.get_objects_by_class) ;;
  call activate_fn [] ;;
  q <- call fn [AWord this; ABuffer None; AWord 0;
                AWord (of_bool allow_default)] ;;
  let size := fst q in
  if size =? 0 then ret []
  else
    f <- call fn [AWord this; ABuffer (Some size); AWord size;
                  AWord (of_bool allow_default)] ;;
    ret (store size (snd f)).

Definition UClass_get_first_object_matching (this : Handle)
    (allow_default : bool) : M Handle :=
  activate_fn <- static_local get_first_object_matching_activate_fn
                   (hook_member UObjectHookFunctions.activate) ;;
  fn <- static_local get_first_object_matching_fn
          (hook_member UObjectHookFunctions.get_first_object_by_class) ;;
  call activate_fn [] ;;
  r <- call fn [AWord this; AWord (of_bool allow_default)] ;;
  ret (fst r).

(** [get_objects_matching<T>] and [get_first_object_matching<T>]: the
    untyped method, its result cast to [T*]. *)
Definition UClass_get_objects_matching_T (T : TypeArg) (this : Handle)
    (allow_default : bool) : M (list Handle) :=
  UClass_get_objects_matching this allow_default.

Definition UClass_get_first_object_matching_T (T : TypeArg) (this : Handle)
    (allow_default : bool) : M Handle :=
  UClass_get_first_object_matching this allow_default.

(** ** [API::UFunction] *)

Definition UFunction_static_class : M Handle :=
  static_class UFunction_static_class_result class_name_Function.

Definition UFunction_call (this obj : Handle) (params : N) : M unit :=
  if obj =? 0 then ret tt
  else UObject_process_event obj this params.

Definition UFunction_get_native_function (this : Handle) : M N :=
  fn <- static_local UFunction_get_native_function_fn
          (member UFunction_initialize
             UFunctionFunctions.get_native_function) ;;
  r <- call fn [AWord this] ;;
  ret (fst r).

(** ** [API::FField], [API::FProperty], [API::FFieldClass] *)

Definition FField_get_next (this : Handle) : M Handle :=
  fn <- static_local FField_get_next_fn
          (member FField_initialize FFieldFunctions.get_next) ;;
  r <- call fn [AWord this] ;;
  ret (fst r).

Definition FField_get_fname (this : Handle) : M Handle :=
  fn <- static_local FField_get_fname_fn
          (member FField_initialize FFieldFunctions.get_fname) ;;
  r <- call fn [AWord this] ;;
  ret (fst r).

Definition FField_get_class (this : Handle) : M Handle :=
  fn <- static_local FField_get_class_fn
          (member FField_initialize FFieldFunctions.get_class) ;;
  r <- call fn [AWord this] ;;
  ret (fst r).

Definition FProperty_get_offset (this : Handle) : M N :=
  fn <- static_local FProperty_get_offset_fn
          (member FProperty_initialize FPropertyFunctions.get_offset) ;;
  r <- call fn [AWord this] ;;
  ret (fst r).

Definition FFieldClass_get_fname (this : Handle) : M Handle :=
  fn <- static_local FFieldClass_get_fname_fn
          (member FFieldClass_initialize FFieldClassFunctions.get_fname) ;;
  r <- call fn [AWord this] ;;
  ret (fst r).

Definition FFieldClass_get_name (this : Handle) : M wstring :=
  n <- FFieldClass_get_fname this ;;
  FName_to_string n.

End Wrappers.

(** ** Whole-process behaviour: sequences of wrapper operations *)

(** What an operation hands back to the plugin. *)
Inductive Value : Type :=
| VUnit
| VWord (w : N)
| VBool (b : bool)
| VText (t : wstring)
| VSeq (l : list Handle)
| VApi (a : API).

(** The wrapper classes that have a [static_class()], for [is_a<T>()]. *)
Inductive WrapperClass : Type := TUObject | TUStruct | TUClass | TUFunction.

(** Where a thread stands inside the [initialize()] of kind [k]: at the
    test [s_functions == nullptr]; past the test, which held, at the
    assignment [s_functions = API::get()->sdk()-><kind>]; at
    [return s_functions]; or back in its caller, with the pointer it
    returned. *)
Inductive Pc (k : Kind) : Type :=
| at_test
| at_assign
| at_return
| returned (r : option (Table k)).
Arguments at_test {k}.
Arguments at_assign {k}.
Arguments at_return {k}.
Arguments returned {k} r.

(** The operations a plugin can invoke on the bridge. *)
Inductive Op : Type :=
| Op_initialize (param : option UEVR_PluginInitializeParam)
| Op_get
| Op_log_error (format : wstring) (args : list N)
| Op_log_warn (format : wstring) (args : list N)
| Op_log_info (format : wstring) (args : list N)
| Op_find_uobject (T : TypeArg) (name : wstring_view)
| Op_get_engine
| Op_get_player_controller (index : N)
| Op_get_local_pawn (index : N)
| Op_spawn_object (klass outer : Handle)
| Op_execute_command (command : wstring_view)
| Op_execute_command_ex (world : Handle) (command : wstring_view) (device : N)
| Op_get_uobject_array
| Op_FName_to_string (this : Handle)
| Op_static_class (T : WrapperClass)
| Op_get_class (this : Handle)
| Op_get_outer (this : Handle)
| Op_is_a (this cmp : Handle)
| Op_is_a_T (T : WrapperClass) (this : Handle)
| Op_process_event (this function params : N)
| Op_call_function (this : Handle) (name : wstring_view) (params : N)
| Op_get_property_data_T (T : TypeArg) (this : Handle) (name : wstring_view)
| Op_get_property_data (this : Handle) (name : wstring_view)
| Op_get_property (T : TypeArg) (this : Handle) (name : wstring_view)
| Op_get_fname (this : Handle)
| Op_get_full_name (fuel : nat) (this : Handle)
| Op_get_super_struct (this : Handle)
| Op_get_super (this : Handle)
| Op_find_function (this : Handle) (name : wstring_view)
| Op_get_child_properties (this : Handle)
| Op_get_class_default_object (this : Handle)
| Op_get_objects_matching (this : Handle) (allow_default : bool)
| Op_get_first_object_matching (this : Handle) (allow_default : bool)
| Op_get_objects_matching_T (T : TypeArg) (this : Handle)
    (allow_default : bool)
| Op_get_first_object_matching_T (T : TypeArg) (this : Handle)
    (allow_default : bool)
| Op_UFunction_call (this obj : Handle) (params : N)
| Op_get_native_function (this : Handle)
| Op_FField_get_next (this : Handle)
| Op_FField_get_fname (this : Handle)
| Op_FField_get_class (this : Handle)
| Op_get_offset (this : Handle)
| Op_FFieldClass_get_fname (this : Handle)
| Op_FFieldClass_get_name (this : Handle).

Section Process.
Context {host_model : Host}.

Definition fmap {A B} (f : A -> B) (m : M A) : M B :=
  a <- m ;; ret (f a).

Definition static_class_of (T : WrapperClass) : M Handle :=
  match T with
  | TUObject => UObject_static_class
  | TUStruct => UStruct_static_class
  | TUClass => UClass_static_class
  | TUFunction => UFunction_static_class
  end.

(** One operation; members of [API] are reached through [API::get()]. *)
Definition exec (op : Op) : M Value :=
  match op with
  | Op_initialize param => fmap VApi (API_initialize param)
  | Op_get => fmap VApi API_get
  | Op_log_error format args =>
      api <- API_get ;; fmap (fun _ => VUnit) (API_log_error api format args)
  | Op_log_warn format args =>
      api <- API_get ;; fmap (fun _ => VUnit) (API_log_warn api format args)
  | Op_log_info format args =>
      api <- API_get ;; fmap (fun _ => VUnit) (API_log_info api format args)
  | Op_find_uobject T name =>
      api <- API_get ;; fmap VWord (API_find_uobject T api name)
  | Op_get_engine => api <- API_get ;; fmap VWord (API_get_engine api)
  | Op_get_player_controller i =>
      api <- API_get ;; fmap VWord (API_get_player_controller api i)
  | Op_get_local_pawn i =>
      api <- API_get ;; fmap VWord (API_get_local_pawn api i)
  | Op_spawn_object klass outer =>
      api <- API_get ;; fmap VWord (API_spawn_object api klass outer)
  | Op_execute_command c =>
      api <- API_get ;; fmap (fun _ => VUnit) (API_execute_command api c)
  | Op_execute_command_ex w c dev =>
      api <- API_get ;;
      fmap (fun _ => VUnit) (API_execute_command_ex api w c dev)
  | Op_get_uobject_array =>
      api <- API_get ;; fmap VWord (API_get_uobject_array api)
  | Op_FName_to_string this => fmap VText (FName_to_string this)
  | Op_static_class T => fmap VWord (static_class_of T)
  | Op_get_class this => fmap VWord (UObject_get_class this)
  | Op_get_outer this => fmap VWord (UObject_get_outer this)
  | Op_is_a this cmp => fmap VBool (UObject_is_a this cmp)
  | Op_is_a_T T this => fmap VBool (UObject_is_a_T (static_class_of T) this)
  | Op_process_event this f p =>
      fmap (fun _ => VUnit) (UObject_process_event this f p)
  | Op_call_function this name p =>
      fmap (fun _ => VUnit) (UObject_call_function this name p)
  | Op_get_property_data_T T this name =>
      fmap VWord (UObject_get_property_data_T T this name)
  | Op_get_property_data this name =>
      fmap VWord (UObject_get_property_data this name)
  | Op_get_property T this name =>
      fmap VWord (UObject_get_property T this name)
  | Op_get_fname this => fmap VWord (UObject_get_fname this)
  | Op_get_full_name fuel this => fmap VText (UObject_get_full_name fuel this)
  | Op_get_super_struct this => fmap VWord (UStruct_get_super_struct this)
  | Op_get_super this => fmap VWord (UStruct_get_super this)
  | Op_find_function this name => fmap VWord (UStruct_find_function this name)
  | Op_get_child_properties this =>
      fmap VWord (UStruct_get_child_properties this)
  | Op_get_class_default_object this =>
      fmap VWord (UClass_get_class_default_object this)
  | Op_get_objects_matching this allow =>
      fmap VSeq (UClass_get_objects_matching this allow)
  | Op_get_first_object_matching this allow =>
      fmap VWord (UClass_get_first_object_matching this allow)
  | Op_get_objects_matching_T T this allow =>
      fmap VSeq (UClass_get_objects_matching_T T this allow)
  | Op_get_first_object_matching_T T this allow =>
      fmap VWord (UClass_get_first_object_matching_T T this allow)
  | Op_UFunction_call this obj p =>
      fmap (fun _ => VUnit) (UFunction_call this obj p)
  | Op_get_native_function this =>
      fmap VWord (UFunction_get_native_function this)
  | Op_FField_get_next this => fmap VWord (FField_get_next this)
  | Op_FField_get_fname this => fmap VWord (FField_get_fname this)
  | Op_FField_get_class this => fmap VWord (FField_get_class this)
  | Op_get_offset this => fmap VWord (FProperty_get_offset this)
  | Op_FFieldClass_get_fname this => fmap VWord (FFieldClass_get_fname this)
  | Op_FFieldClass_get_name this => fmap VText (FFieldClass_get_name this)
  end.

(** A plugin's life: operations one after the other.  A thrown exception is
    the caller's to handle and the process goes on; after undefined behaviour
    or inside a loop that never ends nothing further happens. *)
Fixpoint run (ops : list Op) (s : State) : State :=
  match ops with
  | [] => s
  | op :: rest =>
      match exec op s with
      | (Ok _, s') => run rest s'
      | (Throw _, s') => run rest s'
      | (Crash, s') => s'
      | (Diverge, s') => s'
      end
  end.

(** How often the table of kind [k] was read out of the descriptor. *)
Definition fetch_count (k : Kind) (s : State) : nat :=
  count_occ Kind_eq_dec (fetches s) k.

(** One step of a thread inside [initialize()].  [s_functions] is a plain
    static pointer: the header has no lock and no atomic around it, so
    another thread can run between any two steps. *)
Definition initialize_step (k : Kind) (pc : Pc k) : M (Pc k) :=
  match pc with
  | at_test =>
      cur <- gets (s_functions k) ;;
      ret (match cur with
           | None => at_assign
           | Some _ => at_return
           end)
  | at_assign =>
      api <- API_get ;;
      d <- deref (m_sdk api) ;;
      modify (log_fetch k) ;;
      modify (set_s_functions k (sdk_table k d)) ;;
      ret at_return
  | at_return =>
      r <- gets (s_functions k) ;;
      ret (returned r)
  | returned r => ret (returned r)
  end.

(** Two threads inside the [initialize()] of one kind -- each on its first
    call of a different method of the kind, inside the initialiser of that
    method's own [fn] static -- taking steps as the schedule says: [true] is
    a step of the first thread, [false] a step of the second. *)
Fixpoint interleave (k : Kind) (schedule : list bool) (pcs : Pc k * Pc k)
    : M (Pc k * Pc k) :=
  match schedule with
  | [] => ret pcs
  | true :: rest =>
      pc <- initialize_step (fst pcs) ;;
      interleave rest (pc, snd pcs)
  | false :: rest =>
      pc <- initialize_step (snd pcs) ;;
      interleave rest (fst pcs, pc)
  end.

End Process.

(** ** A small host, for running the wrappers *)

Module Demo.

(** Objects 10 (A), 11 (B), 12 (C) with 12 inside 11 inside 10; object 13 is
    its own outer; class 20; object 14 has no class.  The name of entity [x]
    is handle [100 + x]. *)
Definition outer_of (x : N) : N :=
  match x with
  | 12 => 11
  | 11 => 10
  | 13 => 13
  | _ => 0
  end.

Definition class_of (x : N) : N :=
  match x with
  | 10 | 11 | 12 | 13 => 20
  | _ => 0
  end.

Definition text_of (n : N) : wstring :=
  match n with
  | 110 => [65]
  | 111 => [66]
  | 112 => [67]
  | 113 => [68]
  | 120 => [75; 108]
  | _ => []
  end.

(** The host state counts the calls served so far; the object set served by
    function 6 grows with it: [live h] objects exist in host state [h]. *)
Definition live (h : nat) : list N :=
  match h with
  | O | S O => [10; 11; 12]
  | _ => [10; 11; 12; 13]
  end.

Definition word_of (a : Arg) : N :=
  match a with
  | AWord w => w
  | _ => 0
  end.

Definition serve (fn : FnPtr) (args : list Arg) (h : nat) : N * list N :=
  match fn, args with
  | 1, [AWord n; ABuffer None; _] => (N.of_nat (List.length (text_of n)), [])
  | 1, [AWord n; ABuffer (Some _); AWord len] =>
      (N.of_nat (List.length (text_of n)),
       firstn (N.to_nat len) (text_of n ++ [0]))
  | 2, [AWord x] => (class_of x, [])
  | 3, [AWord x] => (outer_of x, [])
  | 4, [AWord x] => (100 + x, [])
  | 6, [AWord 20; ABuffer None; _; _] => (N.of_nat (List.length (live h)), [])
  | 6, [AWord 20; ABuffer (Some _); AWord cap; _] =>
      (N.of_nat (List.length (live h)), firstn (N.to_nat cap) (live h))
  | 7, [AWord 20; _] => (10, [])
  | _, _ => (0, [])
  end.

#[local] Instance demo_host : Host :=
  {| hstate := nat; ffi := fun fn args h => (S h, serve fn args h) |}.

Definition demo_fname : FNameFunctions.t := FNameFunctions.mk 1.
Definition demo_uobject : UObjectFunctions.t :=
  UObjectFunctions.mk 2 3 8 8 8 8 4.
Definition demo_hook : UObjectHookFunctions.t := UObjectHookFunctions.mk 5 6 7.

Definition demo_sdk : UEVR_SDKData :=
  {| functions := None; uobject_array := None;
     fname := Some demo_fname; uobject := Some demo_uobject;
     ustruct := None; uclass := None; ufunction := None; ffield := None;
     fproperty := None; ffield_class := None;
     uobject_hook := Some demo_hook |}.

Definition demo_param : UEVR_PluginInitializeParam :=
  {| plugin_functions := None; sdk := Some demo_sdk |}.

(** The demo process right after [API::initialize(&demo_param)]. *)
Definition started : State := run [Op_initialize (Some demo_param)] (initial O).

End Demo.

(** ** Specification vocabulary *)

(** What the initialiser of each [fn] static reads out of the descriptor;
    [None] when the table on the way is null, and for the [static_class()]
    results, which come from the host instead. *)
Definition static_source (v : StaticVar) (d : UEVR_SDKData) : option FnPtr :=
  match v with
  | find_uobject_fn _ =>
      option_map UObjectArrayFunctions.find_uobject (uobject_array d)
  | get_engine_fn => option_map SDKFunctions.get_uengine (functions d)
  | get_player_controller_fn =>
      option_map SDKFunctions.get_player_controller (functions d)
  | get_local_pawn_fn => option_map SDKFunctions.get_local_pawn (functions d)
  | spawn_object_fn => option_map SDKFunctions.spawn_object (functions d)
  | execute_command_fn =>
      option_map SDKFunctions.execute_command (functions d)
  | execute_command_ex_fn =>
      option_map SDKFunctions.execute_command_ex (functions d)
  | get_uobject_array_fn =>
      option_map SDKFunctions.get_uobject_array (functions d)
  | FName_to_string_fn => option_map FNameFunctions.to_string (fname d)
  | UObject_get_class_fn => option_map UObjectFunctions.get_class (uobject d)
  | UObject_get_outer_fn => option_map UObjectFunctions.get_outer (uobject d)
  | UObject_is_a_fn => option_map UObjectFunctions.is_a (uobject d)
  | UObject_process_event_fn =>
      option_map UObjectFunctions.process_event (uobject d)
  | UObject_call_function_fn =>
      option_map UObjectFunctions.call_function (uobject d)
  | UObject_get_property_data_fn _ =>
      option_map UObjectFunctions.get_property_data (uobject d)
  | UObject_get_fname_fn => option_map UObjectFunctions.get_fname (uobject d)
  | UStruct_get_super_struct_fn =>
      option_map UStructFunctions.get_super_struct (ustruct d)
  | UStruct_find_function_fn =>
      option_map UStructFunctions.find_function (ustruct d)
  | UStruct_get_child_properties_fn =>
      option_map UStructFunctions.get_child_properties (ustruct d)
  | UClass_get_class_default_object_fn =>
      option_map UClassFunctions.get_class_default_object (uclass d)
  | get_objects_matching_activate_fn =>
      option_map UObjectHookFunctions.activate (uobject_hook d)
  | get_objects_matching_fn =>
      option_map UObjectHookFunctions.get_objects_by_class (uobject_hook d)
  | get_first_object_matching_activate_fn =>
      option_map UObjectHookFunctions.activate (uobject_hook d)
  | get_first_object_matching_fn =>
      option_map UObjectHookFunctions.get_first_object_by_class
        (uobject_hook d)
  | UFunction_get_native_function_fn =>
      option_map UFunctionFunctions.get_native_function (ufunction d)
  | FField_get_next_fn => option_map FFieldFunctions.get_next (ffield d)
  | FField_get_fname_fn => option_map FFieldFunctions.get_fname (ffield d)
  | FField_get_class_fn => option_map FFieldFunctions.get_class (ffield d)
  | FProperty_get_offset_fn =>
      option_map FPropertyFunctions.get_offset (fproperty d)
  | FFieldClass_get_fname_fn =>
      option_map FFieldClassFunctions.get_fname (ffield_class d)
  | UObject_static_class_result | UStruct_static_class_result
  | UClass_static_class_result | UFunction_static_class_result => None
  end.

Section Vocabulary.
Context {host_model : Host}.

(** The statics of state [s] agree with descriptor [d]: the singleton was
    built from a descriptor whose SDK is [d], and whatever is cached was read
    from [d]. *)
Record linked (s : State) (d : UEVR_SDKData) : Prop := mkLinked {
  linked_api : exists api, s_instance s = Some api /\ m_sdk api = Some d;
  linked_tables :
    forall k t, s_functions k s = Some t -> sdk_table k d = Some t;
  linked_statics :
    forall v x y, statics s v = Some x -> static_source v d = Some y -> x = y }.

(** The host answers the call [fn(args)] with word [w], whatever its state. *)
Definition host_word (fn : FnPtr) (args : list Arg) (w : N) : Prop :=
  forall h, fst (snd (ffi fn args h)) = w.

(** Through [fn] the host resolves name handle [n] to [txt]: the size query
    reports the number of characters, and a fill into a buffer of that many
    characters (plus terminator) leaves [txt] in it. *)
Definition host_name (fn : FnPtr) (n : Handle) (txt : wstring) : Prop :=
  let len := N.of_nat (List.length txt) in
  host_word fn [AWord n; ABuffer None; AWord 0] len /\
  forall h,
    store len (snd (snd (ffi fn [AWord n; ABuffer (Some len); AWord (len + 1)]
                             h))) = txt.

(** Object-graph facts served by the host through the tables [ut] (objects)
    and [nt] (names): the class of [x], the outer of [x], the name of [x]. *)
Definition host_class (ut : UObjectFunctions.t) (x c : Handle) : Prop :=
  host_word (UObjectFunctions.get_class ut) [AWord x] c.

Definition host_outer (ut : UObjectFunctions.t) (x o : Handle) : Prop :=
  host_word (UObjectFunctions.get_outer ut) [AWord x] o.

Definition host_named (ut : UObjectFunctions.t) (nt : FNameFunctions.t)
    (x : Handle) (txt : wstring) : Prop :=
  exists n,
    host_word (UObjectFunctions.get_fname ut) [AWord x] n /\
    host_name (FNameFunctions.to_string nt) n txt.

(** Descriptor [d] carries the object table [ut] and the name table [nt], and
    the four members [get_full_name] goes through are set. *)
Record names_ready (d : UEVR_SDKData) (ut : UObjectFunctions.t)
    (nt : FNameFunctions.t) : Prop := mkNamesReady {
  ready_uobject : uobject d = Some ut;
  ready_fname : fname d = Some nt;
  ready_get_class : UObjectFunctions.get_class ut <> 0;
  ready_get_outer : UObjectFunctions.get_outer ut <> 0;
  ready_get_fname : UObjectFunctions.get_fname ut <> 0;
  ready_to_string : FNameFunctions.to_string nt <> 0 }.

(** State [s'] keeps everything that was set in [s]: the singleton, every
    cached table (with no further read of it from the descriptor), every
    initialised function-local static. *)
Record extends (s s' : State) : Prop := mkExtends {
  ext_instance : forall a, s_instance s = Some a -> s_instance s' = Some a;
  ext_tables :
    forall k t, s_functions k s = Some t ->
                s_functions k s' = Some t /\ fetch_count k s' = fetch_count k s;
  ext_statics : forall v x, statics s v = Some x -> statics s' v = Some x }.

(** In a running process a table has been read exactly when it is cached. *)
Definition caches_sound (s : State) : Prop :=
  forall k,
    fetch_count k s = match s_functions k s with
                      | Some _ => 1%nat
                      | None => 0%nat
                      end.

(** In any process, running or lost: no table was read twice, and a cached
    table was read once. *)
Definition fetched_once (s : State) : Prop :=
  forall k,
    (fetch_count k s <= 1)%nat /\
    (s_functions k s <> None -> fetch_count k s = 1%nat).

(** A piece of wrapper code respects the caches. *)
Definition safe {A} (m : M A) : Prop :=
  forall s o s',
    m s = (o, s') ->
    extends s s' /\
    (caches_sound s -> fetched_once s' /\ (o <> Crash -> caches_sound s')).

(** A piece of wrapper code keeps the process linked to descriptor [d]. *)
Definition keeps (d : UEVR_SDKData) {A} (m : M A) : Prop :=
  forall s o s', m s = (o, s') -> linked s d -> linked s' d.

(** The calls through pointer [fn] in a call log. *)
Definition calls_through (fn : FnPtr) (l : list Call) : list Call :=
  filter (fun c => fst c =? fn) l.

End Vocabulary.

(** ** Further vocabulary *)

(** A table pointer is set and so is every member API.hpp reads from it. *)
Definition table_ok {T} (members : T -> list FnPtr) (t : option T) : bool :=
  match t with
  | Some x => forallb (fun p => negb (p =? 0)) (members x)
  | None => false
  end.

(** A descriptor with nothing missing: all eleven tables and their
    members. *)
Definition complete_sdk (d : UEVR_SDKData) : bool :=
  table_ok (fun t => [SDKFunctions.get_uengine t;
                      SDKFunctions.get_player_controller t;
                      SDKFunctions.get_local_pawn t;
                      SDKFunctions.spawn_object t;
                      SDKFunctions.execute_command t;
                      SDKFunctions.execute_command_ex t;
                      SDKFunctions.get_uobject_array t]) (functions d)
  && table_ok (fun t => [UObjectArrayFunctions.find_uobject t])
       (uobject_array d)
  && table_ok (fun t => [FNameFunctions.to_string t]) (fname d)
  && table_ok (fun t => [UObjectFunctions.get_class t;
                         UObjectFunctions.get_outer t;
                         UObjectFunctions.get_property_data t;
                         UObjectFunctions.is_a t;
                         UObjectFunctions.process_event t;
                         UObjectFunctions.call_function t;
                         UObjectFunctions.get_fname t]) (uobject d)
  && table_ok (fun t => [UStructFunctions.get_super_struct t;
                         UStructFunctions.find_function t;
                         UStructFunctions.get_child_properties t])
       (ustruct d)
  && table_ok (fun t => [UClassFunctions.get_class_default_object t])
       (uclass d)
  && table_ok (fun t => [UFunctionFunctions.get_native_function t])
       (ufunction d)
  && table_ok (fun t => [FFieldFunctions.get_next t;
                         FFieldFunctions.get_class t;
                         FFieldFunctions.get_fname t]) (ffield d)
  && table_ok (fun t => [FPropertyFunctions.get_offset t]) (fproperty d)
  && table_ok (fun t => [FFieldClassFunctions.get_fname t]) (ffield_class d)
  && table_ok (fun t => [UObjectHookFunctions.activate t;
                         UObjectHookFunctions.get_objects_by_class t;
                         UObjectHookFunctions.get_first_object_by_class t])
       (uobject_hook d).

(** The logging callbacks are all there. *)
Definition complete_plugin (p : UEVR_PluginInitializeParam) : bool :=
  table_ok (fun t => [PluginFunctions.log_error t;
                      PluginFunctions.log_warn t;
                      PluginFunctions.log_info t]) (plugin_functions p).

(** The messages of the [std::runtime_error]s API.hpp throws. *)
Definition bridge_error (w : string) : bool :=
  (w =? "param is null")%string
  || (w =? "API already initialized")%string
  || (w =? "API not initialized")%string.

(** The statics that hold a [static_class()] result, not a function
    pointer. *)
Definition is_result (v : StaticVar) : bool :=
  match v with
  | UObject_static_class_result | UStruct_static_class_result
  | UClass_static_class_result | UFunction_static_class_result => true
  | _ => false
  end.

Section MoreVocabulary.
Context {host_model : Host}.

(** A process in which nothing has been bound yet: no singleton, no cached
    table, no initialised function-local static. *)
Record unbound (s : State) : Prop := mkUnbound {
  unbound_instance : s_instance s = None;
  unbound_tables : forall k, s_functions k s = None;
  unbound_statics : forall v, statics s v = None }.

(** A piece of wrapper code that throws none of the header's exceptions
    (the exceptions of the model) once the singleton exists. *)
Definition quiet {A} (m : M A) : Prop :=
  forall s o s',
    m s = (o, s') ->
    s_instance s <> None ->
    s_instance s' <> None /\ forall w, o <> Throw w.

(** A piece of wrapper code that reads, out of the descriptor, tables of the
    kinds [ks] only. *)
Definition within (ks : list Kind) {A} (m : M A) : Prop :=
  forall s o s' k,
    m s = (o, s') -> In k (fetches s') -> In k (fetches s) \/ In k ks.

(** A piece of wrapper code that, run with singleton [api] in a process
    linked to [d], keeps both, throws none of the header's exceptions, does
    not run into undefined behaviour, returns a value satisfying [Q], and
    fails to return only if [dv] allows it. *)
Definition fine (api : API) (d : UEVR_SDKData) (dv : bool) {A} (m : M A)
    (Q : A -> Prop) : Prop :=
  forall s o s',
    m s = (o, s') ->
    s_instance s = Some api -> linked s d ->
    s_instance s' = Some api /\ linked s' d /\
    match o with
    | Ok a => Q a
    | Diverge => dv = true
    | _ => False
    end.

(** State [s] is bound to singleton [api] and its descriptor [d]: linked,
    and no function-pointer static is initialised with anything but what
    [d] holds for it. *)
Record bound (api : API) (d : UEVR_SDKData) (s : State) : Prop := mkBound {
  bound_linked : linked s d;
  bound_api : s_instance s = Some api;
  bound_sdk : m_sdk api = Some d;
  bound_tight :
    forall v x, is_result v = false -> statics s v = Some x ->
                static_source v d = Some x }.

(** Two states of a process that differ only in what has been cached so
    far: both bound to the same singleton, the same host state, the same
    [static_class()] results. *)
Record same_view (api : API) (d : UEVR_SDKData) (s1 s2 : State) : Prop :=
  mkSameView {
  view_left : bound api d s1;
  view_right : bound api d s2;
  view_host : host s1 = host s2;
  view_results :
    forall v, is_result v = true -> statics s1 v = statics s2 v }.

(** A piece of wrapper code that cannot tell two such states apart: same
    outcome, same host calls, and states that again differ only in what is
    cached. *)
Definition transparent (api : API) (d : UEVR_SDKData) {A} (m : M A) : Prop :=
  forall s1 s2,
    same_view api d s1 s2 ->
    fst (m s1) = fst (m s2) /\
    same_view api d (snd (m s1)) (snd (m s2)) /\
    exists new,
      calls (snd (m s1)) = calls s1 ++ new /\
      calls (snd (m s2)) = calls s2 ++ new.

(** A step whose outcome [out] is decided by the descriptor alone, and which
    touches nothing but caches. *)
Definition settled (api : API) (d : UEVR_SDKData) {A} (m : M A)
    (out : Outcome A) : Prop :=
  forall s,
    bound api d s ->
    exists s',
      m s = (out, s') /\ bound api d s' /\
      host s' = host s /\ calls s' = calls s /\
      forall v, is_result v = true -> statics s' v = statics s v.

(** What a thread past the assignment in [initialize()] can rely on, in a
    process whose descriptor is [d]: the cache holds the table of [d], and
    so does what the thread returned. *)
Definition past (d : UEVR_SDKData) {k} (pc : Pc k) (s : State) : Prop :=
  match pc with
  | at_test | at_assign => True
  | at_return => s_functions k s = sdk_table k d
  | returned r => r = sdk_table k d /\ s_functions k s = sdk_table k d
  end.

(** The outer walk from [outer], as served by the host: [anc] lists the
    objects the loop of [get_full_name] on [this] passes through, nearest
    first, each with its name; the walk ends on a null outer or back on
    [this]. *)
Inductive outer_path (ut : UObjectFunctions.t) (nt : FNameFunctions.t)
    (this : Handle) : Handle -> list (Handle * wstring) -> Prop :=
| path_end outer :
    outer = 0 \/ outer = this -> outer_path ut nt this outer []
| path_step outer txt next rest :
    outer <> 0 -> outer <> this ->
    host_named ut nt outer txt -> host_outer ut outer next ->
    outer_path ut nt this next rest ->
    outer_path ut nt this outer ((outer, txt) :: rest).

(** A set of objects [P] the outer walk of [this] cannot leave: each is a
    named object other than [this] whose outer is in [P] again. *)
Definition endless (ut : UObjectFunctions.t) (nt : FNameFunctions.t)
    (this : Handle) (P : Handle -> Prop) : Prop :=
  forall x, P x ->
    x <> 0 /\ x <> this /\
    (exists txt, host_named ut nt x txt) /\
    exists y, host_outer ut x y /\ P y.

End MoreVocabulary.

(** A thread inside [initialize()] that has not assigned yet: it may still
    read the table out of the descriptor. *)
Definition pending {k} (pc : Pc k) : nat :=
  match pc with
  | at_test | at_assign => 1
  | at_return | returned _ => 0
  end.

(** The static behind [T::static_class()]. *)
Definition static_class_var (T : WrapperClass) : StaticVar :=
  match T with
  | TUObject => UObject_static_class_result
  | TUStruct => UStruct_static_class_result
  | TUClass => UClass_static_class_result
  | TUFunction => UFunction_static_class_result
  end.

(** The names of a walk, outermost first, each followed by a dot. *)
Definition dotted (anc : list (Handle * wstring)) : wstring :=
  List.concat (map (fun p => snd p ++ [dot]) (rev anc)).

(** The kinds whose [initialize()] an operation goes through: its own kind
    for a wrapper method, two kinds for the methods that also resolve a
    name, none for the members of [API] and for the enumeration methods,
    which read their tables through [API::get()->sdk()] directly. *)
Definition op_kinds (op : Op) : list Kind :=
  match op with
  | Op_FName_to_string _ => [KFName]
  | Op_get_class _ | Op_get_outer _ | Op_is_a _ _ | Op_is_a_T _ _
  | Op_process_event _ _ _ | Op_call_function _ _ _
  | Op_get_property_data_T _ _ _ | Op_get_property_data _ _
  | Op_get_property _ _ _ | Op_get_fname _
  | Op_UFunction_call _ _ _ => [KUObject]
  | Op_get_full_name _ _ => [KUObject; KFName]
  | Op_get_super_struct _ | Op_get_super _ | Op_find_function _ _
  | Op_get_child_properties _ => [KUStruct]
  | Op_get_class_default_object _ => [KUClass]
  | Op_get_native_function _ => [KUFunction]
  | Op_FField_get_next _ | Op_FField_get_fname _
  | Op_FField_get_class _ => [KFField]
  | Op_get_offset _ => [KFProperty]
  | Op_FFieldClass_get_fname _ => [KFFieldClass]
  | Op_FFieldClass_get_name _ => [KFFieldClass; KFName]
  | _ => []
  end.



(** ** A host with a complete descriptor *)

Module Full.

(** Objects: 12 inside 11 inside 10; 40 inside 41 inside 40 again; 30 inside
    31 inside 32 inside 31 again.  Every object has class 20.  The name of
    entity [x] is handle [100 + x] and reads as the single character [x];
    name 199 is announced with three characters but filled with one.  Class
    20 is announced with three objects but filled with two.  No class is
    known by name. *)
Definition outer_of (x : N) : N :=
  match x with
  | 12 => 11
  | 11 => 10
  | 40 => 41
  | 41 => 40
  | 30 => 31
  | 31 => 32
  | 32 => 31
  | _ => 0
  end.

Definition serve (fn : FnPtr) (args : list Arg) : N * list N :=
  match fn, args with
  | 1, [AWord 199; ABuffer None; _] => (3, [])
  | 1, [AWord 199; ABuffer (Some _); _] => (1, [65])
  | 1, [AWord _; ABuffer None; _] => (1, [])
  | 1, [AWord n; ABuffer (Some _); _] => (1, [n - 100; 0])
  | 2, [AWord x] => (20, [])
  | 3, [AWord x] => (outer_of x, [])
  | 4, [AWord x] => (100 + x, [])
  | 6, [AWord 20; ABuffer None; _; _] => (3, [])
  | 6, [AWord 20; ABuffer (Some _); _; _] => (2, [10; 11])
  | _, _ => (0, [])
  end.

#[local] Instance host : Host :=
  {| hstate := nat; ffi := fun fn args h => (S h, serve fn args) |}.

Definition full_sdk : UEVR_SDKData :=
  {| functions := Some (SDKFunctions.mk 21 22 23 24 25 26 27);
     uobject_array := Some (UObjectArrayFunctions.mk 20);
     fname := Some (FNameFunctions.mk 1);
     uobject := Some (UObjectFunctions.mk 2 3 8 9 10 11 4);
     ustruct := Some (UStructFunctions.mk 12 13 14);
     uclass := Some (UClassFunctions.mk 15);
     ufunction := Some (UFunctionFunctions.mk 16);
     ffield := Some (FFieldFunctions.mk 17 18 19);
     fproperty := Some (FPropertyFunctions.mk 28);
     ffield_class := Some (FFieldClassFunctions.mk 29);
     uobject_hook := Some (UObjectHookFunctions.mk 5 6 7) |}.

Definition full_param : UEVR_PluginInitializeParam :=
  {| plugin_functions := Some (PluginFunctions.mk 30 31 32);
     sdk := Some full_sdk |}.

(** The process right after [API::initialize(&full_param)]. *)
Definition started : State :=
  run [Op_initialize (Some full_param)] (initial O).

(** The same host without a state of its own. *)
Definition still : Host :=
  {| hstate := unit; ffi := fun fn args _ => (tt, serve fn args) |}.

Definition still_started : @State still :=
  run [Op_initialize (Some full_param)] (@initial still tt).

End Full.

(** * Properties *)

Section Facts.
Context {host_model : Host}.

(** ** Basic facts *)

Lemma store_length (n : N) (w : list N) : List.length (store n w) = N.to_nat n.
Proof.
  unfold store. rewrite length_firstn, length_app, repeat_length. lia.
Qed.

Lemma StaticVar_eqb_eq (a b : StaticVar) : StaticVar_eqb a b = true <-> a = b.
Proof.
  unfold StaticVar_eqb. rewrite Nat.eqb_eq. split.
  - destruct a as [Ta| | | | | | | | | | | | | | |Ta| | | | | | | | | | | | | | | | | | ];
      destruct b as [Tb| | | | | | | | | | | | | | |Tb| | | | | | | | | | | | | | | | | | ];
      try (destruct Ta); try (destruct Tb);
      simpl; intro E; try reflexivity; try discriminate E;
      try (exfalso; lia); f_equal; f_equal; lia.
  - intros ->. reflexivity.
Qed.

Lemma bind_ok {A B} (m : M A) (k : A -> M B) s a s' :
  m s = (Ok a, s') -> bind m k s = k a s'.
Proof. intro E. unfold bind. rewrite E. reflexivity. Qed.

(** A function-local static that has been passed holds what it returned,
    and one that is initialised is returned as it is. *)
Lemma static_local_sets v init (s : State) x s' :
  static_local v init s = (Ok x, s') -> statics s' v = Some x.
Proof.
  unfold static_local. destruct (statics s v) as [y |] eqn:Ey.
  - intros [= <- <-]. exact Ey.
  - destruct (init s) as [[y | w | |] s1]; intros [= <- <-].
    simpl. unfold StaticVar_eqb. rewrite Nat.eqb_refl. reflexivity.
Qed.

Lemma static_local_set v init (s : State) x :
  statics s v = Some x -> static_local v init s = (Ok x, s).
Proof. intro E. unfold static_local. rewrite E. reflexivity. Qed.

Lemma call_ok (fn : FnPtr) (args : list Arg) (s : State) :
  fn <> 0 ->
  call fn args s =
    (Ok (snd (ffi fn args (host s))),
     log_call (fst (ffi fn args (host s))) (fn, args) s).
Proof.
  intro Hfn. unfold call.
  destruct (N.eqb_spec fn 0) as [E | _]; [contradiction |].
  destruct (ffi fn args (host s)); reflexivity.
Qed.

(** ** The statics stay linked to the descriptor *)

Lemma s_functions_set k (x : option (Table k)) (s : State) :
  s_functions k (set_s_functions k x s) = x.
Proof. destruct k; reflexivity. Qed.

Lemma host_log_call h c (s : State) : host (log_call h c s) = h.
Proof. reflexivity. Qed.

Lemma linked_log_call s d h c : linked s d -> linked (log_call h c s) d.
Proof.
  intros [Ha Ht Hs]. split; [exact Ha | | exact Hs].
  intros k; destruct k; exact (Ht _).
Qed.

Lemma linked_set_static s d v x :
  linked s d ->
  (forall y, static_source v d = Some y -> x = y) ->
  linked (set_static v x s) d.
Proof.
  intros [Ha Ht Hs] Hx. split; [exact Ha | |].
  - intros k; destruct k; exact (Ht _).
  - intros v' x' y. simpl.
    destruct (StaticVar_eqb v v') eqn:E.
    + apply StaticVar_eqb_eq in E. subst v'.
      intros [= <-]. apply Hx.
    + apply Hs.
Qed.

Lemma linked_fetch s d k :
  linked s d -> linked (set_s_functions k (sdk_table k d) (log_fetch k s)) d.
Proof.
  intros [Ha Ht Hs]. split.
  - destruct k; exact Ha.
  - intros k' t.
    destruct k; destruct k'; intro E;
      first [ exact E
            | exact (Ht KFName t E) | exact (Ht KUObject t E)
            | exact (Ht KUStruct t E) | exact (Ht KUClass t E)
            | exact (Ht KUFunction t E) | exact (Ht KFField t E)
            | exact (Ht KFProperty t E) | exact (Ht KFFieldClass t E) ].
  - destruct k; exact Hs.
Qed.

Lemma initialize_linked k s d :
  linked s d ->
  exists s',
    initialize k s = (Ok (sdk_table k d), s') /\
    linked s' d /\ host s' = host s /\ calls s' = calls s.
Proof.
  intro L. unfold initialize, bind at 1, gets at 1.
  destruct (s_functions k s) as [t |] eqn:E.
  - exists s. rewrite (linked_tables L _ E).
    split; [reflexivity | split; [exact L | split; reflexivity]].
  - destruct (linked_api L) as (api & Hi & Hd).
    exists (set_s_functions k (sdk_table k d) (log_fetch k s)).
    unfold API_get, bind, gets, modify, deref, ret. rewrite Hi, Hd.
    rewrite s_functions_set.
    split; [reflexivity |].
    split; [apply linked_fetch, L |].
    split; destruct k; reflexivity.
Qed.

(** The [fn] static of a wrapper method resolves to the member of the
    descriptor's table, whether this is the first pass or a later one. *)
Lemma static_member_ok k (field : Table k -> FnPtr) v s d t :
  linked s d ->
  sdk_table k d = Some t ->
  static_source v d = Some (field t) ->
  exists s',
    static_local v (member (initialize k) field) s = (Ok (field t), s') /\
    linked s' d /\ host s' = host s /\ calls s' = calls s.
Proof.
  intros L Ht Hv. unfold static_local.
  destruct (statics s v) as [x |] eqn:E.
  - exists s. rewrite (linked_statics L _ E Hv).
    split; [reflexivity | split; [exact L | split; reflexivity]].
  - destruct (initialize_linked k L) as (s1 & E1 & L1 & Hh & Hc).
    unfold member, bind. rewrite E1, Ht. simpl.
    exists (set_static v (field t) s1).
    split; [reflexivity |]. split; [| split; assumption].
    apply linked_set_static; [exact L1 |].
    intros y Hy. rewrite Hv in Hy. now injection Hy.
Qed.

(** The same for the statics of the enumeration methods, which read the hook
    table through [API::get()] directly. *)
Lemma static_hook_ok (field : UObjectHookFunctions.t -> FnPtr) v s d hk :
  linked s d ->
  uobject_hook d = Some hk ->
  static_source v d = Some (field hk) ->
  exists s',
    static_local v (hook_member field) s = (Ok (field hk), s') /\
    linked s' d /\ host s' = host s /\ calls s' = calls s.
Proof.
  intros L Hk Hv. unfold static_local.
  destruct (statics s v) as [x |] eqn:E.
  - exists s. rewrite (linked_statics L _ E Hv).
    split; [reflexivity | split; [exact L | split; reflexivity]].
  - destruct (linked_api L) as (api & Hi & Hd).
    unfold hook_member, sdk_member, API_get, bind, gets, deref, ret.
    rewrite Hi, Hd, Hk.
    exists (set_static v (field hk) s).
    split; [reflexivity |]. split; [| split; reflexivity].
    apply linked_set_static; [exact L |].
    intros y Hy. rewrite Hv in Hy. now injection Hy.
Qed.

(** A wrapper of the shape
    [static fn = initialize()->member; return g(fn(args))]. *)
Lemma wrapper_call_ok {A} k (field : Table k -> FnPtr) v args
    (g : N * list N -> A) s d t :
  linked s d ->
  sdk_table k d = Some t ->
  static_source v d = Some (field t) ->
  field t <> 0 ->
  exists s',
    bind (static_local v (member (initialize k) field))
         (fun fn => bind (call fn args) (fun r => ret (g r))) s
      = (Ok (g (snd (ffi (field t) args (host s)))), s') /\
    linked s' d /\
    host s' = fst (ffi (field t) args (host s)) /\
    calls s' = calls s ++ [(field t, args)].
Proof.
  intros L Ht Hv Hfn.
  destruct (static_member_ok k field v L Ht Hv) as (s1 & E1 & L1 & Hh & Hc).
  erewrite bind_ok by exact E1.
  erewrite bind_ok by (apply call_ok; exact Hfn).
  rewrite Hh.
  eexists. split; [reflexivity |].
  split; [apply linked_log_call, L1 |].
  split; [reflexivity |].
  simpl. now rewrite Hc.
Qed.

Lemma UObject_get_class_ok this s d t :
  linked s d -> uobject d = Some t -> UObjectFunctions.get_class t <> 0 ->
  exists s',
    UObject_get_class this s
      = (Ok (fst (snd (ffi (UObjectFunctions.get_class t) [AWord this]
                           (host s)))), s') /\
    linked s' d /\
    host s' = fst (ffi (UObjectFunctions.get_class t) [AWord this] (host s)) /\
    calls s' = calls s ++ [(UObjectFunctions.get_class t, [AWord this])].
Proof.
  intros L Ht Hfn.
  exact (wrapper_call_ok KUObject UObjectFunctions.get_class
           UObject_get_class_fn [AWord this] fst L Ht
           (f_equal (option_map UObjectFunctions.get_class) Ht) Hfn).
Qed.

Lemma UObject_get_outer_ok this s d t :
  linked s d -> uobject d = Some t -> UObjectFunctions.get_outer t <> 0 ->
  exists s',
    UObject_get_outer this s
      = (Ok (fst (snd (ffi (UObjectFunctions.get_outer t) [AWord this]
                           (host s)))), s') /\
    linked s' d /\
    host s' = fst (ffi (UObjectFunctions.get_outer t) [AWord this] (host s)) /\
    calls s' = calls s ++ [(UObjectFunctions.get_outer t, [AWord this])].
Proof.
  intros L Ht Hfn.
  exact (wrapper_call_ok KUObject UObjectFunctions.get_outer
           UObject_get_outer_fn [AWord this] fst L Ht
           (f_equal (option_map UObjectFunctions.get_outer) Ht) Hfn).
Qed.

Lemma UObject_get_fname_ok this s d t :
  linked s d -> uobject d = Some t -> UObjectFunctions.get_fname t <> 0 ->
  exists s',
    UObject_get_fname this s
      = (Ok (fst (snd (ffi (UObjectFunctions.get_fname t) [AWord this]
                           (host s)))), s') /\
    linked s' d /\
    host s' = fst (ffi (UObjectFunctions.get_fname t) [AWord this] (host s)) /\
    calls s' = calls s ++ [(UObjectFunctions.get_fname t, [AWord this])].
Proof.
  intros L Ht Hfn.
  exact (wrapper_call_ok KUObject UObjectFunctions.get_fname
           UObject_get_fname_fn [AWord this] fst L Ht
           (f_equal (option_map UObjectFunctions.get_fname) Ht) Hfn).
Qed.

(** ** Name resolution *)

(** What [to_string] does in a linked state, in terms of the two host
    answers: the size query [q], and the fill [f] made in the host state the
    query left behind. *)
Lemma FName_to_string_ok this s d nt :
  linked s d -> fname d = Some nt -> FNameFunctions.to_string nt <> 0 ->
  let fn := FNameFunctions.to_string nt in
  let query := [AWord this; ABuffer None; AWord 0] in
  let q := ffi fn query (host s) in
  let size := fst (snd q) in
  let fill := [AWord this; ABuffer (Some size); AWord (size + 1)] in
  let f := ffi fn fill (fst q) in
  exists s',
    FName_to_string this s
      = (Ok (if size =? 0 then [] else store size (snd (snd f))), s') /\
    linked s' d /\
    host s' = (if size =? 0 then fst q else fst f) /\
    calls s' = calls s ++ (fn, query)
                 :: (if size =? 0 then [] else [(fn, fill)]).
Proof.
  intros L Ht Hfn fn query q size fill f.
  destruct (static_member_ok KFName FNameFunctions.to_string
              FName_to_string_fn L Ht
              (f_equal (option_map FNameFunctions.to_string) Ht))
    as (s1 & E1 & L1 & Hh & Hc).
  unfold FName_to_string, FName_initialize.
  erewrite bind_ok by exact E1.
  erewrite bind_ok by (apply call_ok; exact Hfn).
  rewrite Hh. fold fn query q size.
  destruct (size =? 0) eqn:Ez.
  - eexists. split; [reflexivity |].
    split; [apply linked_log_call, L1 |].
    split; [reflexivity |].
    simpl. now rewrite Hc.
  - erewrite bind_ok by (apply call_ok; exact Hfn).
    eexists. split; [reflexivity |].
    split; [apply linked_log_call, linked_log_call, L1 |].
    split; [reflexivity |].
    simpl. rewrite Hc, <- app_assoc. reflexivity.
Qed.

(** With a host that resolves the name, [to_string] returns its text. *)
Lemma FName_to_string_name n txt s d nt :
  linked s d -> fname d = Some nt -> FNameFunctions.to_string nt <> 0 ->
  host_name (FNameFunctions.to_string nt) n txt ->
  exists s', FName_to_string n s = (Ok txt, s') /\ linked s' d.
Proof.
  intros L Ht Hfn [Hq Hf].
  destruct (FName_to_string_ok n L Ht Hfn) as (s' & E & L' & _).
  exists s'. split; [| exact L'].
  rewrite E. rewrite !Hq.
  destruct (N.eqb_spec (N.of_nat (List.length txt)) 0) as [Z | NZ].
  - destruct txt; [reflexivity | discriminate Z].
  - rewrite Hf. reflexivity.
Qed.

(** ** The outer walk *)

Section OuterWalk.
Variables (d : UEVR_SDKData) (ut : UObjectFunctions.t) (nt : FNameFunctions.t).
Hypothesis ready : names_ready d ut nt.

(** [x->get_fname()->to_string()] on a named object. *)
Lemma object_name_ok {A} x txt (k : wstring -> M A) s :
  linked s d -> host_named ut nt x txt ->
  exists s',
    linked s' d /\
    bind (UObject_get_fname x) (fun n => bind (FName_to_string n) k) s
      = k txt s'.
Proof.
  intros L (n & Hn & Ht).
  destruct (UObject_get_fname_ok x L (ready_uobject ready)
              (ready_get_fname ready)) as (s1 & E1 & L1 & _).
  rewrite Hn in E1.
  destruct (FName_to_string_name L1 (ready_fname ready)
              (ready_to_string ready) Ht) as (s2 & E2 & L2).
  exists s2. split; [exact L2 |].
  erewrite bind_ok by exact E1. erewrite bind_ok by exact E2. reflexivity.
Qed.

Lemma object_outer_ok {A} x o (k : Handle -> M A) s :
  linked s d -> host_outer ut x o ->
  exists s', linked s' d /\ bind (UObject_get_outer x) k s = k o s'.
Proof.
  intros L Ho.
  destruct (UObject_get_outer_ok x L (ready_uobject ready)
              (ready_get_outer ready)) as (s1 & E1 & L1 & _).
  rewrite Ho in E1. exists s1. split; [exact L1 |].
  erewrite bind_ok by exact E1. reflexivity.
Qed.

(** The loop test fails, and the walk ends, on a null outer and on the
    starting object itself, with any fuel. *)
Lemma loop_stop fuel this outer acc (s : State) :
  outer = 0 \/ outer = this ->
  get_full_name_loop fuel this outer acc s = (Ok acc, s).
Proof.
  intros [-> | ->]; destruct fuel; simpl;
    rewrite ?N.eqb_refl, ?andb_false_r; reflexivity.
Qed.

(** One turn of the loop on an outer that is neither null nor the start. *)
Lemma loop_step fuel this outer next txt acc s :
  linked s d -> outer <> 0 -> outer <> this ->
  host_named ut nt outer txt -> host_outer ut outer next ->
  exists s',
    linked s' d /\
    get_full_name_loop (S fuel) this outer acc s
      = get_full_name_loop fuel this next (txt ++ dot :: acc) s'.
Proof.
  intros L H0 Ht Hn Ho. simpl.
  apply N.eqb_neq in H0. apply N.eqb_neq in Ht. rewrite H0, Ht. simpl.
  destruct (object_name_ok
              (fun t => bind (UObject_get_outer outer)
                 (fun next => get_full_name_loop fuel this next
                                (t ++ dot :: acc))) L Hn)
    as (s1 & L1 & E1).
  rewrite E1.
  destruct (object_outer_ok
              (fun next => get_full_name_loop fuel this next
                             (txt ++ dot :: acc)) L1 Ho)
    as (s2 & L2 & E2).
  exists s2. split; [exact L2 | exact E2].
Qed.

(** [get_full_name] on an object with a class, up to the loop. *)
Lemma get_full_name_unfold fuel this c o txt ctxt s :
  linked s d -> c <> 0 ->
  host_class ut this c -> host_named ut nt this txt ->
  host_outer ut this o -> host_named ut nt c ctxt ->
  exists s1,
    linked s1 d /\
    forall path s2,
      linked s2 d ->
      get_full_name_loop fuel this o txt s1 = (Ok path, s2) ->
      fst (UObject_get_full_name fuel this s) = Ok (ctxt ++ space :: path).
Proof.
  intros L Hc0 Hc Hn Ho Hcn.
  destruct (UObject_get_class_ok this L (ready_uobject ready)
              (ready_get_class ready)) as (s1 & E1 & L1 & _).
  rewrite Hc in E1.
  unfold UObject_get_full_name. erewrite bind_ok by exact E1.
  apply N.eqb_neq in Hc0. rewrite Hc0.
  destruct (object_name_ok
              (fun obj_name =>
                 outer <- UObject_get_outer this ;;
                 obj_name <- get_full_name_loop fuel this outer obj_name ;;
                 cn <- UObject_get_fname c ;;
                 ct <- FName_to_string cn ;;
                 ret (ct ++ space :: obj_name)) L1 Hn)
    as (s2 & L2 & E2).
  rewrite E2.
  destruct (object_outer_ok
              (fun outer =>
                 obj_name <- get_full_name_loop fuel this outer txt ;;
                 cn <- UObject_get_fname c ;;
                 ct <- FName_to_string cn ;;
                 ret (ct ++ space :: obj_name)) L2 Ho)
    as (s3 & L3 & E3).
  rewrite E3.
  exists s3. split; [exact L3 |].
  intros path s4 L4 E4.
  erewrite bind_ok by exact E4.
  destruct (object_name_ok (fun ct => ret (ct ++ space :: path)) L4 Hcn)
    as (s5 & L5 & E5).
  rewrite E5. reflexivity.
Qed.

End OuterWalk.

(** ** Enumeration *)

Lemma get_objects_matching_ok this allow s d hk :
  linked s d -> uobject_hook d = Some hk ->
  UObjectHookFunctions.activate hk <> 0 ->
  UObjectHookFunctions.get_objects_by_class hk <> 0 ->
  let afn := UObjectHookFunctions.activate hk in
  let fn := UObjectHookFunctions.get_objects_by_class hk in
  let a := ffi afn [] (host s) in
  let query := [AWord this; ABuffer None; AWord 0; AWord (of_bool allow)] in
  let q := ffi fn query (fst a) in
  let size := fst (snd q) in
  let fill :=
    [AWord this; ABuffer (Some size); AWord size; AWord (of_bool allow)] in
  let f := ffi fn fill (fst q) in
  exists s',
    UClass_get_objects_matching this allow s
      = (Ok (if size =? 0 then [] else store size (snd (snd f))), s') /\
    linked s' d /\
    host s' = (if size =? 0 then fst q else fst f) /\
    calls s' = calls s ++ (afn, []) :: (fn, query)
                 :: (if size =? 0 then [] else [(fn, fill)]).
Proof.
  intros L Hk Ha Hfn afn fn a query q size fill f.
  destruct (static_hook_ok UObjectHookFunctions.activate
              get_objects_matching_activate_fn L Hk
              (f_equal (option_map UObjectHookFunctions.activate) Hk))
    as (s1 & E1 & L1 & Hh1 & Hc1).
  destruct (static_hook_ok UObjectHookFunctions.get_objects_by_class
              get_objects_matching_fn L1 Hk
              (f_equal (option_map UObjectHookFunctions.get_objects_by_class)
                 Hk))
    as (s2 & E2 & L2 & Hh2 & Hc2).
  unfold UClass_get_objects_matching.
  erewrite bind_ok by exact E1. erewrite bind_ok by exact E2.
  erewrite bind_ok by (apply call_ok; exact Ha).
  erewrite bind_ok by (apply call_ok; exact Hfn).
  rewrite Hh2, Hh1. fold afn a. rewrite host_log_call.
  fold fn query q size.
  destruct (size =? 0) eqn:Ez.
  - eexists. split; [reflexivity |].
    split; [apply linked_log_call, linked_log_call, L2 |].
    split; [reflexivity |].
    simpl. rewrite Hc2, Hc1, <- app_assoc. reflexivity.
  - erewrite bind_ok by (apply call_ok; exact Hfn).
    eexists. split; [reflexivity |].
    split; [apply linked_log_call, linked_log_call, linked_log_call, L2 |].
    split; [reflexivity |].
    simpl. rewrite Hc2, Hc1, <- !app_assoc. reflexivity.
Qed.

Lemma get_first_object_matching_ok this allow s d hk :
  linked s d -> uobject_hook d = Some hk ->
  UObjectHookFunctions.activate hk <> 0 ->
  UObjectHookFunctions.get_first_object_by_class hk <> 0 ->
  let afn := UObjectHookFunctions.activate hk in
  let fn := UObjectHookFunctions.get_first_object_by_class hk in
  let args := [AWord this; AWord (of_bool allow)] in
  exists s',
    UClass_get_first_object_matching this allow s
      = (Ok (fst (snd (ffi fn args (fst (ffi afn [] (host s)))))), s') /\
    linked s' d /\
    calls s' = calls s ++ [(afn, []); (fn, args)].
Proof.
  intros L Hk Ha Hfn afn fn args.
  destruct (static_hook_ok UObjectHookFunctions.activate
              get_first_object_matching_activate_fn L Hk
              (f_equal (option_map UObjectHookFunctions.activate) Hk))
    as (s1 & E1 & L1 & Hh1 & Hc1).
  destruct (static_hook_ok UObjectHookFunctions.get_first_object_by_class
              get_first_object_matching_fn L1 Hk
              (f_equal
                 (option_map UObjectHookFunctions.get_first_object_by_class)
                 Hk))
    as (s2 & E2 & L2 & Hh2 & Hc2).
  unfold UClass_get_first_object_matching.
  erewrite bind_ok by exact E1. erewrite bind_ok by exact E2.
  erewrite bind_ok by (apply call_ok; exact Ha).
  erewrite bind_ok by (apply call_ok; exact Hfn).
  rewrite Hh2, Hh1, host_log_call. fold afn fn args.
  eexists. split; [reflexivity |].
  split; [apply linked_log_call, linked_log_call, L2 |].
  simpl. rewrite Hc2, Hc1, <- app_assoc. reflexivity.
Qed.

(** ** The caches are write-once *)

Lemma extends_refl (s : State) : extends s s.
Proof. split; auto. Qed.

Lemma extends_trans (s1 s2 s3 : State) :
  extends s1 s2 -> extends s2 s3 -> extends s1 s3.
Proof.
  intros [I1 T1 S1] [I2 T2 S2]. split.
  - auto.
  - intros k t E. destruct (T1 k t E) as [E2 C2].
    destruct (T2 k t E2) as [E3 C3]. split; [exact E3 | congruence].
  - auto.
Qed.

Lemma sound_fetched_once (s : State) : caches_sound s -> fetched_once s.
Proof.
  intros Hs k. rewrite (Hs k).
  destruct (s_functions k s); split; auto; congruence.
Qed.

(** Code that leaves the state alone. *)
Lemma safe_same {A} (m : M A) : (forall s, snd (m s) = s) -> safe m.
Proof.
  intros Hm s o s' E. pose proof (Hm s) as Hs. rewrite E in Hs.
  simpl in Hs. subst s'.
  split; [apply extends_refl |].
  intro Hc. split; [apply sound_fetched_once, Hc | intros _; exact Hc].
Qed.

Lemma safe_ret {A} (a : A) : safe (ret a).
Proof. apply safe_same. reflexivity. Qed.

Lemma safe_throw {A} w : safe (@throw _ A w).
Proof. apply safe_same. reflexivity. Qed.

Lemma safe_deref {A} (p : option A) : safe (deref p).
Proof. apply safe_same. destruct p; reflexivity. Qed.

Lemma safe_diverge {A} : safe (@diverge _ A).
Proof. apply safe_same. reflexivity. Qed.

Lemma safe_API_get : safe API_get.
Proof.
  apply safe_same. intro s. unfold API_get, bind, gets.
  destruct (s_instance s); reflexivity.
Qed.

Lemma safe_bind {A B} (m : M A) (k : A -> M B) :
  safe m -> (forall a, safe (k a)) -> safe (bind m k).
Proof.
  intros Hm Hk s o s' E. unfold bind in E.
  destruct (m s) as [[a | w | |] s1] eqn:E1.
  - destruct (Hm _ _ _ E1) as [X1 P1]. destruct (Hk a _ _ _ E) as [X2 P2].
    split; [exact (extends_trans X1 X2) |].
    intro Hc. apply P2. apply P1; [exact Hc | discriminate].
  - injection E as <- <-. destruct (Hm _ _ _ E1) as [X1 P1].
    split; [exact X1 |]. intro Hc. destruct (P1 Hc) as [F1 C1].
    split; [exact F1 | intros _; apply C1; discriminate].
  - injection E as <- <-. destruct (Hm _ _ _ E1) as [X1 P1].
    split; [exact X1 |]. intro Hc. destruct (P1 Hc) as [F1 C1].
    split; [exact F1 | intros N; contradiction N; reflexivity].
  - injection E as <- <-. destruct (Hm _ _ _ E1) as [X1 P1].
    split; [exact X1 |]. intro Hc. destruct (P1 Hc) as [F1 C1].
    split; [exact F1 | intros _; apply C1; discriminate].
Qed.

Lemma s_functions_log_call k h c (s : State) :
  s_functions k (log_call h c s) = s_functions k s.
Proof. destruct k; reflexivity. Qed.

Lemma s_functions_set_static k v x (s : State) :
  s_functions k (set_static v x s) = s_functions k s.
Proof. destruct k; reflexivity. Qed.

Lemma safe_call fn args : safe (call fn args).
Proof.
  intros s o s' E. unfold call in E.
  destruct (fn =? 0).
  - injection E as <- <-. split; [apply extends_refl |].
    intro Hc. split; [apply sound_fetched_once, Hc | intros _; exact Hc].
  - destruct (ffi fn args (host s)) as [h' r]. injection E as <- <-.
    split.
    + split; intros; rewrite ?s_functions_log_call; auto.
    + intro Hc.
      assert (Hc' : caches_sound (log_call h' (fn, args) s)).
      { intro k. rewrite s_functions_log_call. exact (Hc k). }
      split; [apply sound_fetched_once, Hc' | intros _; exact Hc'].
Qed.

Lemma safe_static_local v init : safe init -> safe (static_local v init).
Proof.
  intros Hi s o s' E. unfold static_local in E.
  destruct (statics s v) as [x |] eqn:Ev.
  - injection E as <- <-. split; [apply extends_refl |].
    intro Hc. split; [apply sound_fetched_once, Hc | intros _; exact Hc].
  - destruct (init s) as [[x | w | |] s1] eqn:E1;
      try (injection E as <- <-; exact (Hi _ _ _ E1)).
    injection E as <- <-. destruct (Hi _ _ _ E1) as [[I1 T1 S1] P1]. split.
    + split.
      * exact I1.
      * intros k t Ek. rewrite s_functions_set_static. exact (T1 k t Ek).
      * intros v' x' Ev'. simpl.
        destruct (StaticVar_eqb v v') eqn:Eb.
        -- apply StaticVar_eqb_eq in Eb. subst v'. congruence.
        -- exact (S1 v' x' Ev').
    + intro Hc. destruct (P1 Hc) as [_ P2].
      assert (Hc' : caches_sound (set_static v x s1)).
      { intro k. rewrite s_functions_set_static.
        apply P2. discriminate. }
      split; [apply sound_fetched_once, Hc' | intros _; exact Hc'].
Qed.

Lemma safe_API_initialize param : safe (API_initialize param).
Proof.
  intros s o s' E. unfold API_initialize in E.
  destruct param as [p |]; [| eapply safe_throw; exact E].
  unfold bind, gets, modify, ret, throw in E.
  destruct (s_instance s) as [a |] eqn:Ei; injection E as <- <-.
  - split; [apply extends_refl |].
    intro Hc. split; [apply sound_fetched_once, Hc | intros _; exact Hc].
  - split.
    + split.
      * intros a Ea. congruence.
      * intros k t Ek. split; [destruct k; exact Ek | reflexivity].
      * auto.
    + intro Hc.
      assert (Hc' : caches_sound (set_s_instance (Some (API_ctor p)) s)).
      { intro k. specialize (Hc k). destruct k; exact Hc. }
      split; [apply sound_fetched_once, Hc' | intros _; exact Hc'].
Qed.

Lemma fetch_count_log_fetch k k' (s : State) :
  fetch_count k' (log_fetch k s)
    = (fetch_count k' s + if Kind_eq_dec k k' then 1 else 0)%nat.
Proof.
  unfold fetch_count. simpl. rewrite count_occ_app. simpl.
  destruct (Kind_eq_dec k k'); reflexivity.
Qed.

Lemma s_functions_set_other k k' (x : option (Table k)) (s : State) :
  k <> k' -> s_functions k' (set_s_functions k x s) = s_functions k' s.
Proof.
  destruct k; destruct k'; intro N; try reflexivity;
    contradiction N; reflexivity.
Qed.

Lemma fetch_count_set k k' (x : option (Table k)) (s : State) :
  fetch_count k' (set_s_functions k x s) = fetch_count k' s.
Proof. destruct k; reflexivity. Qed.

Lemma s_functions_log_fetch k k' (s : State) :
  s_functions k' (log_fetch k s) = s_functions k' s.
Proof. destruct k'; reflexivity. Qed.

(** The one place where a table is read out of the descriptor: the state
    after the assignment [s_functions = ...sdk()-><kind>]. *)
Lemma fetch_state k (x : option (Table k)) (s : State) :
  s_functions k s = None ->
  extends s (set_s_functions k x (log_fetch k s)) /\
  (caches_sound s ->
   fetched_once (set_s_functions k x (log_fetch k s)) /\
   (x <> None -> caches_sound (set_s_functions k x (log_fetch k s)))).
Proof.
  intro E. split.
  - split.
    + intros a Ea. destruct k; exact Ea.
    + intros k' t Ek. destruct (Kind_eq_dec k k') as [<- | N].
      * congruence.
      * rewrite s_functions_set_other, s_functions_log_fetch by exact N.
        rewrite fetch_count_set, fetch_count_log_fetch.
        destruct (Kind_eq_dec k k'); [contradiction |].
        split; [exact Ek | lia].
    + intros v y Ev. destruct k; exact Ev.
  - intro Hc.
    assert (Hk : forall k',
               fetch_count k' (set_s_functions k x (log_fetch k s))
               = if Kind_eq_dec k k' then 1%nat
                 else match s_functions k' s with
                      | Some _ => 1%nat
                      | None => 0%nat
                      end).
    { intro k'. rewrite fetch_count_set, fetch_count_log_fetch, (Hc k').
      destruct (Kind_eq_dec k k') as [<- | N]; [rewrite E |]; lia. }
    split.
    + intro k'. rewrite Hk.
      destruct (Kind_eq_dec k k') as [<- | N]; [split; auto |].
      rewrite s_functions_set_other, s_functions_log_fetch by exact N.
      destruct (s_functions k' s); split; auto; congruence.
    + intros Hx k'. rewrite Hk.
      destruct (Kind_eq_dec k k') as [<- | N].
      * rewrite s_functions_set. destruct x; [reflexivity | congruence].
      * rewrite s_functions_set_other, s_functions_log_fetch by exact N.
        reflexivity.
Qed.

(** [initialize()->member]: reads the table at most once; when the table
    read is null the dereference is the end of the process. *)
Lemma safe_member k (field : Table k -> FnPtr) :
  safe (member (initialize k) field).
Proof.
  intros s o s' E.
  unfold member, initialize, bind at 1 2, gets at 1 in E.
  destruct (s_functions k s) as [t |] eqn:Ek.
  - unfold ret, deref, bind in E. injection E as <- <-.
    split; [apply extends_refl |].
    intro Hc. split; [apply sound_fetched_once, Hc | intros _; exact Hc].
  - unfold API_get, bind, gets, modify, deref, ret, throw, crash in E.
    destruct (s_instance s) as [api |].
    2:{ injection E as <- <-. split; [apply extends_refl |].
        intro Hc. split; [apply sound_fetched_once, Hc | intros _; exact Hc]. }
    destruct (m_sdk api) as [d |].
    2:{ injection E as <- <-. split; [apply extends_refl |].
        intro Hc. split; [apply sound_fetched_once, Hc | intros _; exact Hc]. }
    rewrite s_functions_set in E.
    destruct (fetch_state k (sdk_table k d) s Ek) as [X P].
    destruct (sdk_table k d) as [t |]; injection E as <- <-.
    + split; [exact X |]. intro Hc. destruct (P Hc) as [F C].
      split; [exact F | intros _; apply C; discriminate].
    + split; [exact X |]. intro Hc. destruct (P Hc) as [F C].
      split; [exact F | intros N; contradiction N; reflexivity].
Qed.

Lemma safe_sdk_member {T} api (table : UEVR_SDKData -> option T)
    (field : T -> FnPtr) :
  safe (sdk_member api table field).
Proof.
  apply safe_same. intro s. unfold sdk_member, bind, deref, ret, crash.
  destruct (m_sdk api) as [d |]; [| reflexivity].
  destruct (table d); reflexivity.
Qed.

Lemma safe_hook_member field : safe (hook_member field).
Proof.
  unfold hook_member. apply safe_bind; [apply safe_API_get |].
  intro api. apply safe_sdk_member.
Qed.

Create HintDb wrappers.

#[local] Hint Unfold
  API_log_error API_log_warn API_log_info
  API_find_uobject API_get_engine API_get_player_controller
  API_get_local_pawn API_spawn_object API_execute_command
  API_execute_command_ex API_get_uobject_array
  FName_to_string FName_initialize
  static_class UObject_static_class UObject_initialize UObject_get_class
  UObject_get_outer UObject_is_a UObject_is_a_T UObject_process_event
  UObject_call_function UObject_get_property UObject_get_property_data
  UObject_get_property_data_T UObject_get_fname
  UStruct_static_class UStruct_initialize UStruct_get_super_struct
  UStruct_get_super UStruct_find_function UStruct_get_child_properties
  UClass_static_class UClass_initialize UClass_get_class_default_object
  UClass_get_objects_matching_T UClass_get_first_object_matching_T
  UClass_get_objects_matching UClass_get_first_object_matching
  UFunction_static_class UFunction_initialize UFunction_call
  UFunction_get_native_function
  FField_initialize FField_get_next FField_get_fname FField_get_class
  FProperty_initialize FProperty_get_offset
  FFieldClass_initialize FFieldClass_get_fname FFieldClass_get_name
  static_class_of fmap : wrappers.

(** Wrapper code is sequences of the primitive steps: its safety follows
    the shape of the code. *)
Ltac safe_tac :=
  autounfold with wrappers;
  repeat first
    [ apply safe_ret | apply safe_call | apply safe_API_get
    | apply safe_API_initialize | apply safe_sdk_member
    | apply safe_hook_member | apply safe_static_local
    | apply (safe_member KFName) | apply (safe_member KUObject)
    | apply (safe_member KUStruct) | apply (safe_member KUClass)
    | apply (safe_member KUFunction) | apply (safe_member KFField)
    | apply (safe_member KFProperty) | apply (safe_member KFFieldClass)
    | apply safe_diverge | apply safe_deref
    | apply safe_bind; [| intros ?]
    | match goal with
      | |- safe (if ?c then _ else _) => destruct c
      | |- safe (match ?T with TUObject => _ | _ => _ end) => destruct T
      | H : forall this outer acc, safe (get_full_name_loop _ this outer acc)
        |- safe (get_full_name_loop _ _ _ _) => apply H
      end
    | progress cbv zeta ].

Lemma safe_FName_to_string this : safe (FName_to_string this).
Proof. safe_tac. Qed.

Lemma safe_get_full_name_loop fuel :
  forall this outer acc, safe (get_full_name_loop fuel this outer acc).
Proof.
  induction fuel as [| fuel IH]; intros this outer acc; simpl;
    destruct (negb (outer =? 0) && negb (outer =? this)); safe_tac.
Qed.

Lemma safe_get_full_name fuel this : safe (UObject_get_full_name fuel this).
Proof.
  unfold UObject_get_full_name. pose proof (safe_get_full_name_loop fuel).
  safe_tac.
Qed.

(** Every operation of the bridge respects the caches. *)
Lemma safe_exec op : safe (exec op).
Proof.
  destruct op; unfold exec;
    try (unfold fmap; apply safe_bind;
         [apply safe_get_full_name | intros ?; apply safe_ret]);
    safe_tac.
Qed.

Lemma run_extends ops : forall s : State, extends s (run ops s).
Proof.
  induction ops as [| op ops IH]; intro s; simpl.
  - apply extends_refl.
  - destruct (exec op s) as [o s'] eqn:E.
    pose proof (safe_exec op) as K. destruct (K _ _ _ E) as [X _].
    destruct o; try exact X; exact (extends_trans X (IH s')).
Qed.



(** ** Every running process is linked *)

Section Linked.
Variable d : UEVR_SDKData.

Lemma keeps_same {A} (m : M A) : (forall s, snd (m s) = s) -> keeps d m.
Proof.
  intros Hm s o s' E L. pose proof (Hm s) as Hs. rewrite E in Hs.
  simpl in Hs. subst s'. exact L.
Qed.

Lemma keeps_ret {A} (a : A) : keeps d (ret a).
Proof. apply keeps_same. reflexivity. Qed.

Lemma keeps_diverge {A} : keeps d (@diverge _ A).
Proof. apply keeps_same. reflexivity. Qed.

Lemma keeps_deref {A} (p : option A) : keeps d (deref p).
Proof. apply keeps_same. destruct p; reflexivity. Qed.

Lemma keeps_bind {A B} (m : M A) (k : A -> M B) :
  keeps d m -> (forall a, keeps d (k a)) -> keeps d (bind m k).
Proof.
  intros Hm Hk s o s' E L. unfold bind in E.
  destruct (m s) as [[a | w | |] s1] eqn:E1;
    try (injection E as <- <-; exact (Hm _ _ _ E1 L)).
  exact (Hk a _ _ _ E (Hm _ _ _ E1 L)).
Qed.

(** After [API::get()] the continuation runs with the linked singleton. *)
Lemma keeps_with_api {B} (k : API -> M B) :
  (forall api, m_sdk api = Some d -> keeps d (k api)) ->
  keeps d (bind API_get k).
Proof.
  intros Hk s o s' E L. destruct (linked_api L) as (api & Hi & Hd).
  unfold API_get, bind, gets in E. rewrite Hi in E.
  exact (Hk api Hd _ _ _ E L).
Qed.

Lemma keeps_call fn args : keeps d (call fn args).
Proof.
  intros s o s' E L. unfold call in E.
  destruct (fn =? 0); [injection E as <- <-; exact L |].
  destruct (ffi fn args (host s)). injection E as <- <-.
  apply linked_log_call, L.
Qed.

Lemma keeps_API_initialize param : keeps d (API_initialize param).
Proof.
  intros s o s' E L. destruct (linked_api L) as (api & Hi & Hd).
  destruct param as [p |]; simpl in E.
  - unfold bind, gets in E. rewrite Hi in E. injection E as <- <-. exact L.
  - injection E as <- <-. exact L.
Qed.

Lemma keeps_static_member k (field : Table k -> FnPtr) v :
  static_source v d = option_map field (sdk_table k d) ->
  keeps d (static_local v (member (initialize k) field)).
Proof.
  intros Hv s o s' E L. unfold static_local in E.
  destruct (statics s v); [injection E as <- <-; exact L |].
  destruct (initialize_linked k L) as (s1 & E1 & L1 & _).
  unfold member, bind in E. rewrite E1 in E.
  destruct (sdk_table k d) as [t |]; simpl in E; injection E as <- <-.
  - apply linked_set_static; [exact L1 |].
    intros y Hy. rewrite Hv in Hy. now injection Hy.
  - exact L1.
Qed.

Lemma keeps_static_sdk_member {T} api (table : UEVR_SDKData -> option T)
    (field : T -> FnPtr) v :
  m_sdk api = Some d ->
  static_source v d = option_map field (table d) ->
  keeps d (static_local v (sdk_member api table field)).
Proof.
  intros Hd Hv s o s' E L. unfold static_local in E.
  destruct (statics s v); [injection E as <- <-; exact L |].
  unfold sdk_member, bind, deref, ret, crash in E. rewrite Hd in E.
  destruct (table d) as [t |]; injection E as <- <-; [| exact L].
  apply linked_set_static; [exact L |].
  intros y Hy. rewrite Hv in Hy. now injection Hy.
Qed.

Lemma keeps_static_hook (field : UObjectHookFunctions.t -> FnPtr) v :
  static_source v d = option_map field (uobject_hook d) ->
  keeps d (static_local v (hook_member field)).
Proof.
  intros Hv s o s' E L. destruct (linked_api L) as (api & Hi & Hd).
  unfold static_local in E.
  destruct (statics s v); [injection E as <- <-; exact L |].
  unfold hook_member, sdk_member, API_get, bind, gets, deref, ret, crash in E.
  rewrite Hi, Hd in E.
  destruct (uobject_hook d) as [t |]; injection E as <- <-; [| exact L].
  apply linked_set_static; [exact L |].
  intros y Hy. rewrite Hv in Hy. now injection Hy.
Qed.

(** A static whose value comes from the host is not tied to [d]. *)
Lemma keeps_static_result v init :
  static_source v d = None -> keeps d init -> keeps d (static_local v init).
Proof.
  intros Hv Hi s o s' E L. unfold static_local in E.
  destruct (statics s v); [injection E as <- <-; exact L |].
  destruct (init s) as [[x | w | |] s1] eqn:E1;
    injection E as <- <-; pose proof (Hi _ _ _ E1 L) as L1; try exact L1.
  apply linked_set_static; [exact L1 |]. intros y Hy. congruence.
Qed.

Ltac keeps_tac :=
  autounfold with wrappers;
  repeat first
    [ apply keeps_ret | apply keeps_call | apply keeps_API_initialize
    | apply keeps_diverge | apply keeps_deref
    | apply keeps_static_hook; reflexivity
    | apply (keeps_static_member KFName); reflexivity
    | apply (keeps_static_member KUObject); reflexivity
    | apply (keeps_static_member KUStruct); reflexivity
    | apply (keeps_static_member KUClass); reflexivity
    | apply (keeps_static_member KUFunction); reflexivity
    | apply (keeps_static_member KFField); reflexivity
    | apply (keeps_static_member KFProperty); reflexivity
    | apply (keeps_static_member KFFieldClass); reflexivity
    | apply keeps_static_sdk_member; [assumption | reflexivity]
    | apply keeps_static_result; [reflexivity |]
    | apply keeps_with_api; intros ? ?
    | apply keeps_bind; [| intros ?]
    | match goal with
      | |- keeps _ (if ?c then _ else _) => destruct c
      | |- keeps _ (match ?T with TUObject => _ | _ => _ end) => destruct T
      | H : forall this outer acc, keeps _ (get_full_name_loop _ this outer acc)
        |- keeps _ (get_full_name_loop _ _ _ _) => apply H
      end
    | progress cbv zeta ].

Lemma keeps_get_full_name_loop fuel :
  forall this outer acc, keeps d (get_full_name_loop fuel this outer acc).
Proof.
  induction fuel as [| fuel IH]; intros this outer acc; simpl;
    destruct (negb (outer =? 0) && negb (outer =? this)); keeps_tac.
Qed.

Lemma keeps_exec op : keeps d (exec op).
Proof.
  destruct op; unfold exec;
    try (unfold fmap, UObject_get_full_name;
         pose proof (keeps_get_full_name_loop fuel));
    keeps_tac.
Qed.

(** Whatever the plugin does, the statics stay what the descriptor says. *)
Lemma run_linked ops : forall s : State, linked s d -> linked (run ops s) d.
Proof.
  induction ops as [| op ops IH]; intros s L; simpl; [exact L |].
  destruct (exec op s) as [o s'] eqn:E.
  pose proof (keeps_exec op) as K. pose proof (K _ _ _ E L) as L'.
  destruct o; try exact L'; exact (IH s' L').
Qed.

(** The process right after a successful [API::initialize] is linked. *)
Lemma initialized_linked (h : hstate) (p : UEVR_PluginInitializeParam) :
  sdk p = Some d -> linked (run [Op_initialize (Some p)] (initial h)) d.
Proof.
  intro Hd. split.
  - exists (API_ctor p). split; [reflexivity | exact Hd].
  - intros k t; destruct k; discriminate.
  - intros v x y E; discriminate E.
Qed.

End Linked.

(** ** What the enumeration methods keep in their statics *)

Lemma log_call_extends h c (s : State) : extends s (log_call h c s).
Proof.
  split; [auto | | auto].
  intros k t E. destruct k; split; solve [exact E | reflexivity].
Qed.

(** A successful [get_objects_matching] leaves both its statics
    initialised. *)
Lemma get_objects_matching_statics this allow (s : State) v s' :
  UClass_get_objects_matching this allow s = (Ok v, s') ->
  exists x fn,
    statics s' get_objects_matching_activate_fn = Some x /\
    statics s' get_objects_matching_fn = Some fn.
Proof.
  intro E. unfold UClass_get_objects_matching in E.
  unfold bind at 1 in E.
  destruct (static_local get_objects_matching_activate_fn
              (hook_member UObjectHookFunctions.activate) s)
    as [[x | w | |] s1] eqn:E1; try discriminate E.
  unfold bind at 1 in E.
  destruct (static_local get_objects_matching_fn
              (hook_member UObjectHookFunctions.get_objects_by_class) s1)
    as [[fn | w | |] s2] eqn:E2; try discriminate E.
  pose proof (static_local_sets _ _ _ E1) as H1.
  pose proof (static_local_sets _ _ _ E2) as H2.
  pose proof (safe_static_local get_objects_matching_fn
                (safe_hook_member UObjectHookFunctions.get_objects_by_class))
    as S2.
  destruct (S2 _ _ _ E2) as [X2 _].
  assert (S3 : safe
            (call x [] ;;
             q <- call fn [AWord this; ABuffer None; AWord 0;
                           AWord (of_bool allow)] ;;
             let size := fst q in
             if size =? 0 then ret []
             else
               f <- call fn [AWord this; ABuffer (Some size); AWord size;
                             AWord (of_bool allow)] ;;
               ret (store size (snd f)))) by safe_tac.
  destruct (S3 _ _ _ E) as [X3 _].
  exists x, fn. split.
  - exact (ext_statics X3 _ (ext_statics X2 _ H1)).
  - exact (ext_statics X3 _ H2).
Qed.

Lemma get_first_object_matching_statics this allow (s : State) r s' :
  UClass_get_first_object_matching this allow s = (Ok r, s') ->
  exists x fn,
    statics s' get_first_object_matching_activate_fn = Some x /\
    statics s' get_first_object_matching_fn = Some fn.
Proof.
  intro E. unfold UClass_get_first_object_matching in E.
  unfold bind at 1 in E.
  destruct (static_local get_first_object_matching_activate_fn
              (hook_member UObjectHookFunctions.activate) s)
    as [[x | w | |] s1] eqn:E1; try discriminate E.
  unfold bind at 1 in E.
  destruct (static_local get_first_object_matching_fn
              (hook_member UObjectHookFunctions.get_first_object_by_class) s1)
    as [[fn | w | |] s2] eqn:E2; try discriminate E.
  pose proof (static_local_sets _ _ _ E1) as H1.
  pose proof (static_local_sets _ _ _ E2) as H2.
  pose proof (safe_static_local get_first_object_matching_fn
                (safe_hook_member
                   UObjectHookFunctions.get_first_object_by_class))
    as S2.
  destruct (S2 _ _ _ E2) as [X2 _].
  assert (S3 : safe
            (call x [] ;;
             r <- call fn [AWord this; AWord (of_bool allow)] ;;
             ret (fst r))) by safe_tac.
  destruct (S3 _ _ _ E) as [X3 _].
  exists x, fn. split.
  - exact (ext_statics X3 _ (ext_statics X2 _ H1)).
  - exact (ext_statics X3 _ H2).
Qed.

(** Each method initialises its own two statics and no other. *)
Lemma static_hook_frame field v (s : State) o s' v' :
  static_local v (hook_member field) s = (o, s') ->
  StaticVar_eqb v v' = false ->
  statics s' v' = statics s v'.
Proof.
  intros E N. unfold static_local in E.
  destruct (statics s v); [injection E as <- <-; reflexivity |].
  unfold hook_member, sdk_member, API_get, bind, gets, deref, ret, throw,
    crash in E.
  destruct (s_instance s) as [api |]; [| injection E as <- <-; reflexivity].
  destruct (m_sdk api) as [d |]; [| injection E as <- <-; reflexivity].
  destruct (uobject_hook d) as [hk |]; injection E as <- <-;
    [simpl; rewrite N |]; reflexivity.
Qed.

Lemma call_statics fn args (s : State) o s' :
  call fn args s = (o, s') -> statics s' = statics s.
Proof.
  unfold call. destruct (fn =? 0); [intros [= <- <-]; reflexivity |].
  destruct (ffi fn args (host s)). intros [= <- <-]. reflexivity.
Qed.

Lemma get_objects_matching_frame this allow (s : State) o s' v :
  UClass_get_objects_matching this allow s = (o, s') ->
  StaticVar_eqb get_objects_matching_activate_fn v = false ->
  StaticVar_eqb get_objects_matching_fn v = false ->
  statics s' v = statics s v.
Proof.
  intros E N1 N2. unfold UClass_get_objects_matching in E.
  unfold bind at 1 in E.
  destruct (static_local get_objects_matching_activate_fn
              (hook_member UObjectHookFunctions.activate) s)
    as [o1 s1] eqn:E1.
  assert (F1 : statics s1 v = statics s v)
    by (eapply static_hook_frame; [exact E1 | exact N1]).
  destruct o1 as [x | w | |]; try (injection E as <- <-; exact F1).
  unfold bind at 1 in E.
  destruct (static_local get_objects_matching_fn
              (hook_member UObjectHookFunctions.get_objects_by_class) s1)
    as [o2 s2] eqn:E2.
  assert (F2 : statics s2 v = statics s1 v)
    by (eapply static_hook_frame; [exact E2 | exact N2]).
  destruct o2 as [fn | w | |];
    try (injection E as <- <-; rewrite F2; exact F1).
  rewrite <- F1, <- F2. clear E1 E2 F1 F2.
  unfold bind at 1 in E.
  destruct (call x [] s2) as [o3 s3] eqn:E3.
  assert (F3 : statics s3 = statics s2)
    by (eapply call_statics; exact E3).
  destruct o3 as [a | w | |]; try (injection E as <- <-; now rewrite F3).
  unfold bind at 1 in E.
  destruct (call fn _ s3) as [o4 s4] eqn:E4.
  assert (F4 : statics s4 = statics s3)
    by (eapply call_statics; exact E4).
  destruct o4 as [q | w | |];
    try (injection E as <- <-; now rewrite F4, F3).
  cbv zeta in E.
  destruct (fst q =? 0); [injection E as <- <-; now rewrite F4, F3 |].
  unfold bind in E.
  destruct (call fn _ s4) as [o5 s5] eqn:E5.
  assert (F5 : statics s5 = statics s4)
    by (eapply call_statics; exact E5).
  destruct o5 as [f | w | |]; injection E as <- <-; now rewrite F5, F4, F3.
Qed.

Lemma get_first_object_matching_frame this allow (s : State) o s' v :
  UClass_get_first_object_matching this allow s = (o, s') ->
  StaticVar_eqb get_first_object_matching_activate_fn v = false ->
  StaticVar_eqb get_first_object_matching_fn v = false ->
  statics s' v = statics s v.
Proof.
  intros E N1 N2. unfold UClass_get_first_object_matching in E.
  unfold bind at 1 in E.
  destruct (static_local get_first_object_matching_activate_fn
              (hook_member UObjectHookFunctions.activate) s)
    as [o1 s1] eqn:E1.
  assert (F1 : statics s1 v = statics s v)
    by (eapply static_hook_frame; [exact E1 | exact N1]).
  destruct o1 as [x | w | |]; try (injection E as <- <-; exact F1).
  unfold bind at 1 in E.
  destruct (static_local get_first_object_matching_fn
              (hook_member UObjectHookFunctions.get_first_object_by_class)
              s1)
    as [o2 s2] eqn:E2.
  assert (F2 : statics s2 v = statics s1 v)
    by (eapply static_hook_frame; [exact E2 | exact N2]).
  destruct o2 as [fn | w | |];
    try (injection E as <- <-; rewrite F2; exact F1).
  rewrite <- F1, <- F2. clear E1 E2 F1 F2.
  unfold bind at 1 in E.
  destruct (call x [] s2) as [o3 s3] eqn:E3.
  assert (F3 : statics s3 = statics s2)
    by (eapply call_statics; exact E3).
  destruct o3 as [a | w | |]; try (injection E as <- <-; now rewrite F3).
  unfold bind in E.
  destruct (call fn _ s3) as [o4 s4] eqn:E4.
  assert (F4 : statics s4 = statics s3)
    by (eapply call_statics; exact E4).
  destruct o4 as [q | w | |]; injection E as <- <-; now rewrite F4, F3.
Qed.

(** With both statics initialised, the methods go through them: the
    singleton and the descriptor are not looked at. *)
Lemma get_objects_matching_cached this allow (s : State) x fn :
  statics s get_objects_matching_activate_fn = Some x ->
  statics s get_objects_matching_fn = Some fn ->
  x <> 0 -> fn <> 0 ->
  exists v s' rest,
    UClass_get_objects_matching this allow s = (Ok v, s') /\
    calls s' = calls s ++ (x, []) :: rest /\
    rest <> [] /\
    Forall (fun c => fst c = fn) rest /\
    statics s' = statics s.
Proof.
  intros H1 H2 Hx Hfn. unfold UClass_get_objects_matching.
  erewrite bind_ok by (apply static_local_set; exact H1).
  erewrite bind_ok by (apply static_local_set; exact H2).
  erewrite bind_ok by (apply call_ok; exact Hx).
  erewrite bind_ok by (apply call_ok; exact Hfn).
  cbv zeta.
  match goal with |- context [if ?c then _ else _] => destruct c end.
  - eexists. eexists. eexists. split; [reflexivity |].
    split; [simpl; rewrite <- app_assoc; reflexivity |].
    split; [discriminate |]. split; [| reflexivity].
    repeat constructor.
  - erewrite bind_ok by (apply call_ok; exact Hfn).
    eexists. eexists. eexists. split; [reflexivity |].
    split; [simpl; rewrite <- !app_assoc; reflexivity |].
    split; [discriminate |]. split; [| reflexivity].
    repeat constructor.
Qed.

Lemma get_first_object_matching_cached this allow (s : State) x fn :
  statics s get_first_object_matching_activate_fn = Some x ->
  statics s get_first_object_matching_fn = Some fn ->
  x <> 0 -> fn <> 0 ->
  exists r s',
    UClass_get_first_object_matching this allow s = (Ok r, s') /\
    calls s' = calls s ++ [(x, []); (fn, [AWord this; AWord (of_bool allow)])] /\
    statics s' = statics s.
Proof.
  intros H1 H2 Hx Hfn. unfold UClass_get_first_object_matching.
  erewrite bind_ok by (apply static_local_set; exact H1).
  erewrite bind_ok by (apply static_local_set; exact H2).
  erewrite bind_ok by (apply call_ok; exact Hx).
  erewrite bind_ok by (apply call_ok; exact Hfn).
  eexists. eexists. split; [reflexivity |].
  split; [simpl; rewrite <- app_assoc; reflexivity | reflexivity].
Qed.

(** ** The first access to a table, and the later ones *)



(** The steps of one thread, taken without another thread in between, are
    [initialize()]. *)
Lemma initialize_in_steps k (s : State) :
  (p1 <- initialize_step (@at_test k) ;;
   p2 <- initialize_step p1 ;;
   initialize_step p2) s
  = fmap (@returned k) (initialize k) s.
Proof.
  unfold fmap, initialize, initialize_step, API_get, bind, gets, modify,
    deref, ret, throw, crash.
  destruct (s_functions k s) as [t |] eqn:E; simpl.
  - rewrite E. reflexivity.
  - destruct (s_instance s) as [api |]; [| reflexivity].
    destruct (m_sdk api) as [d |]; reflexivity.
Qed.

(** * The claims *)

(** C1.  [to_string] on a name handle, in a process linked to a descriptor
    whose name table and [to_string] member are set: the first host call
    passes a null destination and length zero and yields the count [size];
    when [size] is zero the result is the empty string and that call is the
    only one; otherwise a second call goes through the same pointer with a
    buffer of [size] characters and length [size + 1], and the result is the
    buffer's [size] characters.  In both cases the length of the result is
    the count of the size query. *)
Theorem to_string_two_call_protocol this s d nt :
  linked s d -> fname d = Some nt -> FNameFunctions.to_string nt <> 0 ->
  let fn := FNameFunctions.to_string nt in
  let query := [AWord this; ABuffer None; AWord 0] in
  let q := ffi fn query (host s) in
  let size := fst (snd q) in
  let fill := [AWord this; ABuffer (Some size); AWord (size + 1)] in
  exists txt s',
    FName_to_string this s = (Ok txt, s') /\
    N.of_nat (List.length txt) = size /\
    (size = 0 -> txt = [] /\ calls s' = calls s ++ [(fn, query)]) /\
    (size <> 0 ->
     txt = store size (snd (snd (ffi fn fill (fst q)))) /\
     calls s' = calls s ++ [(fn, query); (fn, fill)]).
Proof.
  intros L Ht Hfn fn query q size fill.
  destruct (FName_to_string_ok this L Ht Hfn) as (s' & E & _ & _ & Hc).
  fold fn query q size fill in E, Hc.
  eexists. exists s'. split; [exact E |].
  destruct (N.eqb_spec size 0) as [Z | NZ].
  - split; [rewrite Z; reflexivity |].
    split; [intros _; split; [reflexivity | exact Hc] | contradiction].
  - split; [rewrite store_length; apply N2Nat.id |].
    split; [contradiction | intros _; split; [reflexivity | exact Hc]].
Qed.

(** C2.  [get_objects_matching] on a class, in a process linked to a
    descriptor whose hook table and members are set: after the activation
    call, the enumeration operation is first called with a null buffer and
    capacity zero and yields the count [size]; when [size] is zero the result
    is empty and no fill call is made; otherwise exactly one more call is
    made, with a buffer of [size] elements and capacity [size], and the
    result has [size] elements. *)
Theorem get_objects_matching_two_calls this allow s d hk :
  linked s d -> uobject_hook d = Some hk ->
  UObjectHookFunctions.activate hk <> 0 ->
  UObjectHookFunctions.get_objects_by_class hk <> 0 ->
  let afn := UObjectHookFunctions.activate hk in
  let fn := UObjectHookFunctions.get_objects_by_class hk in
  let query := [AWord this; ABuffer None; AWord 0; AWord (of_bool allow)] in
  let q := ffi fn query (fst (ffi afn [] (host s))) in
  let size := fst (snd q) in
  let fill :=
    [AWord this; ABuffer (Some size); AWord size; AWord (of_bool allow)] in
  exists v s',
    UClass_get_objects_matching this allow s = (Ok v, s') /\
    N.of_nat (List.length v) = size /\
    (size = 0 -> v = [] /\ calls s' = calls s ++ [(afn, []); (fn, query)]) /\
    (size <> 0 ->
     calls s' = calls s ++ [(afn, []); (fn, query); (fn, fill)]).
Proof.
  intros L Hk Ha Hfn afn fn query q size fill.
  destruct (get_objects_matching_ok this allow L Hk Ha Hfn)
    as (s' & E & _ & _ & Hc).
  fold afn fn query q size fill in E, Hc.
  eexists. exists s'. split; [exact E |].
  destruct (N.eqb_spec size 0) as [Z | NZ].
  - split; [rewrite Z; reflexivity |].
    split; [intros _; split; [reflexivity | exact Hc] | contradiction].
  - split; [rewrite store_length; apply N2Nat.id |].
    split; [contradiction | intros _; exact Hc].
Qed.

(** C9.  In [get_objects_matching] the count returned by the fill call is
    not used: when the size query yields a non-zero [size], the result is the
    [size] cells of the buffer after the fill [f]; the word the fill call
    returns, [fst (snd f)], appears nowhere in it, and the result has [size]
    elements whatever that word is. *)
Theorem get_objects_matching_length_from_query this allow s d hk :
  linked s d -> uobject_hook d = Some hk ->
  UObjectHookFunctions.activate hk <> 0 ->
  UObjectHookFunctions.get_objects_by_class hk <> 0 ->
  let afn := UObjectHookFunctions.activate hk in
  let fn := UObjectHookFunctions.get_objects_by_class hk in
  let query := [AWord this; ABuffer None; AWord 0; AWord (of_bool allow)] in
  let q := ffi fn query (fst (ffi afn [] (host s))) in
  let size := fst (snd q) in
  let fill :=
    [AWord this; ABuffer (Some size); AWord size; AWord (of_bool allow)] in
  let f := ffi fn fill (fst q) in
  size <> 0 ->
  exists s',
    UClass_get_objects_matching this allow s
      = (Ok (store size (snd (snd f))), s') /\
    N.of_nat (List.length (store size (snd (snd f)))) = size.
Proof.
  intros L Hk Ha Hfn afn fn query q size fill f NZ.
  destruct (get_objects_matching_ok this allow L Hk Ha Hfn)
    as (s' & E & _).
  fold afn fn query q size fill f in E.
  apply N.eqb_neq in NZ. rewrite NZ in E.
  exists s'. split; [exact E |].
  rewrite store_length. apply N2Nat.id.
Qed.

(** C7, as the code has it.  What is done once is the read of the
    activation pointer: the first call of each enumeration method reads it
    from the descriptor into that method's own function-local static (the
    other method's static is left as it was), where it stays for the rest
    of the process, and a call that finds its statics initialised goes
    through them without looking at the singleton or the descriptor.  The activation operation itself is called at the start of
    every enumeration call: each [get_objects_matching] and each
    [get_first_object_matching] logs one activation call followed by its
    enumeration calls, and leaves the process linked, so the next call does
    the same. *)
Theorem activation_before_every_enumeration this allow s d hk :
  linked s d -> uobject_hook d = Some hk ->
  UObjectHookFunctions.activate hk <> 0 ->
  UObjectHookFunctions.get_objects_by_class hk <> 0 ->
  UObjectHookFunctions.get_first_object_by_class hk <> 0 ->
  (exists v s' rest,
     UClass_get_objects_matching this allow s = (Ok v, s') /\
     linked s' d /\
     calls s' = calls s ++ (UObjectHookFunctions.activate hk, []) :: rest /\
     rest <> [] /\
     Forall (fun c => fst c = UObjectHookFunctions.get_objects_by_class hk)
       rest /\
     statics s' get_first_object_matching_activate_fn
       = statics s get_first_object_matching_activate_fn /\
     forall ops,
       statics (run ops s') get_objects_matching_activate_fn
         = Some (UObjectHookFunctions.activate hk)) /\
  (exists r s',
     UClass_get_first_object_matching this allow s = (Ok r, s') /\
     linked s' d /\
     calls s' = calls s ++
       [(UObjectHookFunctions.activate hk, []);
        (UObjectHookFunctions.get_first_object_by_class hk,
         [AWord this; AWord (of_bool allow)])] /\
     statics s' get_objects_matching_activate_fn
       = statics s get_objects_matching_activate_fn /\
     forall ops,
       statics (run ops s') get_first_object_matching_activate_fn
         = Some (UObjectHookFunctions.activate hk)) /\
  (forall (s0 : State) x fn,
     statics s0 get_objects_matching_activate_fn = Some x ->
     statics s0 get_objects_matching_fn = Some fn ->
     x <> 0 -> fn <> 0 ->
     exists v s' rest,
       UClass_get_objects_matching this allow s0 = (Ok v, s') /\
       calls s' = calls s0 ++ (x, []) :: rest /\
       rest <> [] /\
       Forall (fun c => fst c = fn) rest /\
       statics s' = statics s0) /\
  (forall (s0 : State) x fn,
     statics s0 get_first_object_matching_activate_fn = Some x ->
     statics s0 get_first_object_matching_fn = Some fn ->
     x <> 0 -> fn <> 0 ->
     exists r s',
       UClass_get_first_object_matching this allow s0 = (Ok r, s') /\
       calls s' = calls s0 ++
         [(x, []); (fn, [AWord this; AWord (of_bool allow)])] /\
       statics s' = statics s0).
Proof.
  intros L Hk Ha Hfn Hfirst. split; [| split; [| split]].
  - destruct (get_objects_matching_ok this allow L Hk Ha Hfn)
      as (s' & E & L' & _ & Hc).
    destruct (get_objects_matching_statics _ _ _ E) as (x & fn & Hx & _).
    assert (Hx' : statics s' get_objects_matching_activate_fn
                  = Some (UObjectHookFunctions.activate hk)).
    { rewrite Hx. f_equal. apply (linked_statics L' _ Hx).
      simpl. rewrite Hk. reflexivity. }
    eexists. exists s'. eexists.
    split; [exact E |]. split; [exact L' |]. split; [exact Hc |].
    split; [discriminate |]. split; [| split].
    + constructor; [reflexivity |].
      match goal with |- context [if ?c then _ else _] => destruct c end;
        repeat constructor.
    + eapply get_objects_matching_frame; [exact E | |]; reflexivity.
    + intro ops. exact (ext_statics (run_extends ops s') _ Hx').
  - destruct (get_first_object_matching_ok this allow L Hk Ha Hfirst)
      as (s' & E & L' & Hc).
    destruct (get_first_object_matching_statics _ _ _ E)
      as (x & fn & Hx & _).
    assert (Hx' : statics s' get_first_object_matching_activate_fn
                  = Some (UObjectHookFunctions.activate hk)).
    { rewrite Hx. f_equal. apply (linked_statics L' _ Hx).
      simpl. rewrite Hk. reflexivity. }
    eexists. exists s'. split; [exact E |]. split; [exact L' |].
    split; [exact Hc |].
    split; [eapply get_first_object_matching_frame; [exact E | |];
            reflexivity |].
    intro ops. exact (ext_statics (run_extends ops s') _ Hx').
  - intros s0 x fn H1 H2 Hx Hf.
    exact (get_objects_matching_cached this allow _ H1 H2 Hx Hf).
  - intros s0 x fn H1 H2 Hx Hf.
    exact (get_first_object_matching_cached this allow _ H1 H2 Hx Hf).
Qed.

(** C8.  [get_full_name] on an object whose class lookup yields null returns
    the empty string: no exception, and the class lookup is the only host
    call made (no name is resolved, no outer is asked for). *)
Theorem get_full_name_without_class fuel this s d ut :
  linked s d -> uobject d = Some ut -> UObjectFunctions.get_class ut <> 0 ->
  fst (snd (ffi (UObjectFunctions.get_class ut) [AWord this] (host s))) = 0 ->
  exists s',
    UObject_get_full_name fuel this s = (Ok [], s') /\
    calls s' = calls s ++ [(UObjectFunctions.get_class ut, [AWord this])].
Proof.
  intros L Ht Hfn Hnull.
  destruct (UObject_get_class_ok this L Ht Hfn) as (s' & E & _ & _ & Hc).
  rewrite Hnull in E. exists s'. split; [| exact Hc].
  unfold UObject_get_full_name. erewrite bind_ok by exact E. reflexivity.
Qed.

(** C3.  For objects [A], [B], [C] with [C]'s outer [B], [B]'s outer [A] and
    [A] without outer, [C] of class [K], and the names of all four resolved
    by the host, [get_full_name] on [C] returns the name of [K], a space,
    then the names of [A], [B], [C] joined by dots -- given fuel for the two
    turns of the loop. *)
Theorem get_full_name_outer_chain fuel s d ut nt A B C K tA tB tC tK :
  linked s d -> names_ready d ut nt ->
  A <> 0 -> B <> 0 -> C <> 0 -> K <> 0 ->
  host_outer ut C B -> host_outer ut B A -> host_outer ut A 0 ->
  host_class ut C K ->
  host_named ut nt A tA -> host_named ut nt B tB ->
  host_named ut nt C tC -> host_named ut nt K tK ->
  (2 <= fuel)%nat ->
  fst (UObject_get_full_name fuel C s)
    = Ok (tK ++ space :: tA ++ dot :: tB ++ dot :: tC).
Proof.
  intros L R HA HB HC HK OC OB OA CK NA NB NC NK Hfuel.
  assert (BC : B <> C).
  { intros ->. pose proof (OC (host s)) as E1. pose proof (OB (host s)) as E2.
    rewrite E1 in E2. subst A. pose proof (OA (host s)) as E3.
    rewrite E1 in E3. contradiction. }
  assert (AC : A <> C).
  { intros ->. pose proof (OC (host s)) as E1. pose proof (OA (host s)) as E2.
    rewrite E1 in E2. contradiction. }
  destruct fuel as [| [| fuel]]; try lia.
  destruct (get_full_name_unfold R (S (S fuel)) L HK CK NC OC NK)
    as (s1 & L1 & Hrest).
  destruct (loop_step R (S fuel) tC L1 HB BC NB OB) as (s2 & L2 & E2).
  destruct (loop_step R fuel (tB ++ dot :: tC) L2 HA AC NA OA)
    as (s3 & L3 & E3).
  rewrite (loop_stop fuel _ s3 (or_introl eq_refl)) in E3.
  rewrite E3 in E2.
  rewrite (Hrest _ _ L3 E2). reflexivity.
Qed.

(** C4.  For an object [C] that is its own outer, of class [K],
    [get_full_name] returns the name of [K], a space and the name of [C],
    with any fuel -- also with none, so no turn of the loop is taken.  The
    walk ends, whatever the fuel, as soon as the outer is null or is the
    starting object. *)
Theorem get_full_name_self_outer fuel s d ut nt C K tC tK :
  linked s d -> names_ready d ut nt ->
  K <> 0 -> host_class ut C K -> host_outer ut C C ->
  host_named ut nt C tC -> host_named ut nt K tK ->
  fst (UObject_get_full_name fuel C s) = Ok (tK ++ space :: tC) /\
  (forall fuel' outer acc (s0 : State),
     outer = 0 \/ outer = C ->
     get_full_name_loop fuel' C outer acc s0 = (Ok acc, s0)).
Proof.
  intros L R HK CK OC NC NK. split.
  - destruct (get_full_name_unfold R fuel L HK CK NC OC NK)
      as (s1 & L1 & Hrest).
    apply (Hrest tC s1 L1).
    apply loop_stop. right. reflexivity.
  - intros fuel' outer acc s0 H. apply loop_stop, H.
Qed.

(** C5.  [initialize] throws "param is null" on a null descriptor.  While
    there is no singleton, [get] throws "API not initialized" and
    [initialize] on a descriptor builds the singleton from it.  Once there is
    a singleton [a] it stays [a] through any further operations: [get]
    returns it, and [initialize] throws "API already initialized" and changes
    nothing. *)
Theorem initialize_get_contract (s : State) :
  (API_initialize None s = (Throw "param is null", s)) /\
  (s_instance s = None ->
   API_get s = (Throw "API not initialized", s) /\
   forall p,
     API_initialize (Some p) s
       = (Ok (API_ctor p), set_s_instance (Some (API_ctor p)) s) /\
     s_instance (set_s_instance (Some (API_ctor p)) s) = Some (API_ctor p)) /\
  (forall a, s_instance s = Some a ->
   forall ops,
     s_instance (run ops s) = Some a /\
     API_get (run ops s) = (Ok a, run ops s) /\
     forall p,
       API_initialize (Some p) (run ops s)
         = (Throw "API already initialized", run ops s)).
Proof.
  split; [reflexivity |]. split.
  - intro E. unfold API_get, API_initialize, bind, gets. rewrite E.
    split; [reflexivity |]. intro p. split; reflexivity.
  - intros a E ops.
    pose proof (ext_instance (run_extends ops s) E) as E'.
    unfold API_get, API_initialize, bind, gets. rewrite E'.
    split; [reflexivity |]. split; [reflexivity |]. intro p. reflexivity.
Qed.


(** C10.  [initialize] accepts every non-null descriptor while there is no
    singleton: it stores the descriptor and its [sdk] member and does
    nothing else -- no host call, no table read.  A descriptor whose [sdk],
    name table or [to_string] member is null is accepted like any other, and
    the first [to_string] afterwards is where the process is lost. *)
Theorem initialize_accepts_any_descriptor (s : State)
    (p : UEVR_PluginInitializeParam) :
  s_instance s = None ->
  let a := API_ctor p in
  let s1 := set_s_instance (Some a) s in
  API_initialize (Some p) s = (Ok a, s1) /\
  m_param a = p /\ m_sdk a = sdk p /\
  host s1 = host s /\ calls s1 = calls s /\ fetches s1 = fetches s /\
  (forall this,
     FName_s_functions s = None -> statics s FName_to_string_fn = None ->
     sdk p = None \/
     (exists d, sdk p = Some d /\
        (fname d = None \/
         exists nt, fname d = Some nt /\ FNameFunctions.to_string nt = 0)) ->
     exists s2,
       FName_to_string this s1 = (Crash, s2) /\ calls s2 = calls s).
Proof.
  intros E a s1.
  split; [unfold API_initialize, bind, gets; rewrite E; reflexivity |].
  do 5 (split; [reflexivity |]).
  intros this Ec Ev Hbad.
  unfold FName_to_string, FName_initialize, static_local, member, initialize,
    API_get, bind, gets, modify, deref, ret, crash, call.
  simpl. rewrite Ev, Ec. simpl.
  destruct Hbad as [-> | (d & -> & [Hn | (nt & Hn & Hz)])]; simpl.
  - exists s1. split; reflexivity.
  - rewrite Hn. eexists. split; reflexivity.
  - rewrite Hn. simpl. rewrite Hz. simpl. eexists. split; reflexivity.
Qed.

End Facts.

(** * The claims at work on the demo host *)

Lemma started_linked : linked Demo.started Demo.demo_sdk.
Proof.
  exact (initialized_linked (host_model := Demo.demo_host) O Demo.demo_param
           eq_refl).
Qed.

Lemma demo_ready :
  names_ready Demo.demo_sdk Demo.demo_uobject Demo.demo_fname.
Proof. split; solve [reflexivity | discriminate]. Qed.

(** The demo host's answers do not depend on its state: its object-graph
    facts are settled by evaluation. *)
Ltac demo_fact :=
  first
    [ discriminate
    | intro; reflexivity
    | match goal with
      | |- host_named _ _ ?x _ =>
          exists (100 + x);
          split; [intro; reflexivity | split; intro; reflexivity]
      end ].

Lemma to_string_two_call_protocol_witness :
  exists txt s',
    FName_to_string 112 Demo.started = (Ok txt, s') /\
    N.of_nat (List.length txt) = 1 /\
    calls s' = [(1, [AWord 112; ABuffer None; AWord 0]);
                (1, [AWord 112; ABuffer (Some 1); AWord 2])].
Proof.
  assert (Hfn : FNameFunctions.to_string Demo.demo_fname <> 0)
    by discriminate.
  destruct (to_string_two_call_protocol 112 started_linked eq_refl Hfn)
    as (txt & s' & E & Hlen & _ & Hfill).
  exists txt, s'. split; [exact E |]. split; [exact Hlen |].
  apply Hfill. discriminate.
Defined.

Lemma get_objects_matching_two_calls_witness :
  exists v s',
    UClass_get_objects_matching 20 false Demo.started = (Ok v, s') /\
    N.of_nat (List.length v) = 3 /\
    calls s' = [(5, []);
                (6, [AWord 20; ABuffer None; AWord 0; AWord 0]);
                (6, [AWord 20; ABuffer (Some 3); AWord 3; AWord 0])].
Proof.
  assert (Ha : UObjectHookFunctions.activate Demo.demo_hook <> 0)
    by discriminate.
  assert (Hfn : UObjectHookFunctions.get_objects_by_class Demo.demo_hook <> 0)
    by discriminate.
  destruct (get_objects_matching_two_calls 20 false started_linked eq_refl
              Ha Hfn)
    as (v & s' & E & Hlen & _ & Hfill).
  exists v, s'. split; [exact E |]. split; [exact Hlen |].
  apply Hfill. discriminate.
Defined.

(** Between the size query and the fill the demo host gains an object: the
    fill reports four, the result has the three that were asked for. *)
Lemma get_objects_matching_length_from_query_witness :
  fst (snd (@ffi Demo.demo_host 6
              [AWord 20; ABuffer (Some 3); AWord 3; AWord 0] 2%nat)) = 4 /\
  exists s',
    UClass_get_objects_matching 20 false Demo.started
      = (Ok [10; 11; 12], s') /\
    N.of_nat (List.length [10; 11; 12]) = 3.
Proof.
  split; [reflexivity |].
  assert (Ha : UObjectHookFunctions.activate Demo.demo_hook <> 0)
    by discriminate.
  assert (Hfn : UObjectHookFunctions.get_objects_by_class Demo.demo_hook <> 0)
    by discriminate.
  assert (NZ : (3 : N) <> 0) by discriminate.
  exact (get_objects_matching_length_from_query 20 false started_linked
           eq_refl Ha Hfn NZ).
Defined.

(** C7 as stated fails: three enumeration calls in the demo process make
    three calls through the activation pointer (5), not one. *)
Lemma activation_repeated_counterexample :
  UObjectHookFunctions.activate Demo.demo_hook = 5 /\
  calls_through 5
    (calls (run [Op_get_objects_matching 20 false;
                 Op_get_objects_matching 20 false;
                 Op_get_first_object_matching 20 false] Demo.started))
  = [(5, []); (5, []); (5, [])].
Proof. split; reflexivity. Qed.

Lemma activation_before_every_enumeration_witness :
  (exists v s' rest,
     UClass_get_objects_matching 20 false Demo.started = (Ok v, s') /\
     calls s' = [] ++ (5, []) :: rest /\ rest <> [] /\
     statics s' get_objects_matching_activate_fn = Some 5 /\
     statics s' get_first_object_matching_activate_fn = None) /\
  (exists r s',
     UClass_get_first_object_matching 20 false Demo.started = (Ok r, s') /\
     calls s' = [(5, []); (7, [AWord 20; AWord 0])] /\
     statics s' get_first_object_matching_activate_fn = Some 5).
Proof.
  assert (Ha : UObjectHookFunctions.activate Demo.demo_hook <> 0)
    by discriminate.
  assert (Hfn : UObjectHookFunctions.get_objects_by_class Demo.demo_hook <> 0)
    by discriminate.
  assert (Hf1 :
            UObjectHookFunctions.get_first_object_by_class Demo.demo_hook <> 0)
    by discriminate.
  destruct (activation_before_every_enumeration 20 false started_linked
              eq_refl Ha Hfn Hf1)
    as [(v & s' & rest & E & _ & Hc & Hne & _ & Ho & Hs)
        [(r & s2 & E2 & _ & Hc2 & _ & Hs2) _]].
  split.
  - exists v, s', rest. split; [exact E |]. split; [exact Hc |].
    split; [exact Hne |]. split; [exact (Hs []) | exact Ho].
  - exists r, s2. split; [exact E2 |]. split; [exact Hc2 | exact (Hs2 [])].
Defined.

Lemma get_full_name_without_class_witness :
  exists s',
    UObject_get_full_name 0 14 Demo.started = (Ok [], s') /\
    calls s' = [(2, [AWord 14])].
Proof.
  assert (Hfn : UObjectFunctions.get_class Demo.demo_uobject <> 0)
    by discriminate.
  exact (get_full_name_without_class 0 14 started_linked eq_refl Hfn eq_refl).
Defined.

Lemma get_full_name_outer_chain_witness :
  fst (UObject_get_full_name 2 12 Demo.started)
    = Ok [75; 108; 32; 65; 46; 66; 46; 67].
Proof.
  apply (get_full_name_outer_chain (A := 10) (B := 11) (C := 12) (K := 20)
           (tA := [65]) (tB := [66]) (tC := [67]) (tK := [75; 108])
           started_linked demo_ready);
    try demo_fact.
  lia.
Defined.

Lemma get_full_name_self_outer_witness :
  fst (UObject_get_full_name 0 13 Demo.started) = Ok [75; 108; 32; 68].
Proof.
  apply (get_full_name_self_outer 0 (C := 13) (K := 20) (tC := [68])
           (tK := [75; 108]) started_linked demo_ready);
    demo_fact.
Defined.

Lemma initialize_get_contract_witness :
  API_initialize (Some Demo.demo_param)
    (run [Op_get_class 12; Op_FName_to_string 112] Demo.started)
  = (Throw "API already initialized",
     run [Op_get_class 12; Op_FName_to_string 112] Demo.started).
Proof.
  apply (initialize_get_contract Demo.started) with
    (a := API_ctor Demo.demo_param).
  reflexivity.
Defined.



Lemma initialize_accepts_any_descriptor_witness :
  exists s2,
    FName_to_string 112
      (set_s_instance (Some (API_ctor (mkParam None None)))
         (@initial Demo.demo_host O))
    = (Crash, s2).
Proof.
  destruct (initialize_accepts_any_descriptor (@initial Demo.demo_host O)
              (mkParam None None) eq_refl)
    as (_ & _ & _ & _ & _ & _ & Hlater).
  destruct (Hlater 112 eq_refl eq_refl (or_introl eq_refl)) as (s2 & E & _).
  exists s2. exact E.
Defined.

(** * Further properties of the bridge *)

Section More.
Context {host_model : Host}.

(** ** Use before [API::initialize] *)

(** What each operation does in a process where nothing is bound yet. *)
Lemma exec_unbound (s : State) (op : Op) :
  unbound s ->
  match op with
  | Op_initialize None => exec op s = (Throw "param is null", s)
  | Op_initialize (Some p) =>
      exec op s
        = (Ok (VApi (API_ctor p)), set_s_instance (Some (API_ctor p)) s)
  | Op_UFunction_call _ 0 _ => exec op s = (Ok VUnit, s)
  | _ => exec op s = (Throw "API not initialized", s)
  end.
Proof.
  intros [Hi Ht Hv].
  pose proof (Ht KFName) as H1. pose proof (Ht KUObject) as H2.
  pose proof (Ht KUStruct) as H3. pose proof (Ht KUClass) as H4.
  pose proof (Ht KUFunction) as H5. pose proof (Ht KFField) as H6.
  pose proof (Ht KFProperty) as H7. pose proof (Ht KFFieldClass) as H8.
  simpl in H1, H2, H3, H4, H5, H6, H7, H8.
  destruct op; try (destruct param); try (destruct T); try (destruct obj);
    unfold exec, fmap, API_initialize, API_log_error, API_log_warn,
      API_log_info, UFunction_call, FFieldClass_get_name, UObject_is_a_T,
      UStruct_get_super, UObject_get_full_name, static_class_of,
      UObject_static_class, UStruct_static_class, UClass_static_class,
      UFunction_static_class, static_class, FName_to_string,
      UObject_get_class, UObject_get_outer, UObject_is_a,
      UObject_process_event, UObject_call_function,
      UObject_get_property, UObject_get_property_data,
      UObject_get_property_data_T, UObject_get_fname,
      UStruct_get_super_struct, UStruct_find_function,
      UStruct_get_child_properties, UClass_get_class_default_object,
      UClass_get_objects_matching_T, UClass_get_first_object_matching_T,
      UClass_get_objects_matching, UClass_get_first_object_matching,
      UFunction_get_native_function, FField_get_next,
      FField_get_fname, FField_get_class, FProperty_get_offset,
      FFieldClass_get_fname, hook_member, member,
      FName_initialize, UObject_initialize, UStruct_initialize,
      UClass_initialize, UFunction_initialize, FField_initialize,
      FProperty_initialize, FFieldClass_initialize, initialize,
      static_local, API_get, bind, gets, modify, throw, ret;
    simpl; rewrite ?Hv, ?Hi, ?H1, ?H2, ?H3, ?H4, ?H5, ?H6, ?H7, ?H8;
    simpl; rewrite ?Hv, ?Hi, ?H1, ?H2, ?H3, ?H4, ?H5, ?H6, ?H7, ?H8;
    reflexivity.
Qed.


(** X1.  In a process where nothing is bound yet, every operation leaves the
    state as it was, except a successful [initialize]: [initialize(nullptr)]
    throws "param is null", [UFunction::call] on a null object returns, and
    everything else throws "API not initialized" -- before any host call, and
    without leaving a half-initialised static behind. *)
Theorem use_before_initialize_rejected (s : State) (op : Op) :
  unbound s ->
  match op with
  | Op_initialize None => exec op s = (Throw "param is null", s)
  | Op_initialize (Some p) =>
      exec op s
        = (Ok (VApi (API_ctor p)), set_s_instance (Some (API_ctor p)) s)
  | Op_UFunction_call _ 0 _ => exec op s = (Ok VUnit, s)
  | _ => exec op s = (Throw "API not initialized", s)
  end.
Proof. apply exec_unbound. Qed.

(** X2.  Failed attempts leave no trace: a sequence of operations none of
    which is [initialize] on a descriptor leaves an unbound process exactly
    as it was, so a later [initialize] starts from a clean slate. *)
Theorem failed_attempts_leave_no_trace (ops : list Op) (s : State) :
  unbound s ->
  Forall (fun op => forall p, op <> Op_initialize (Some p)) ops ->
  run ops s = s.
Proof.
  intros U H. induction H as [| op ops Hop _ IH]; [reflexivity |].
  simpl. pose proof (exec_unbound op U) as E.
  destruct op; try (destruct param as [p |]); try (destruct obj);
    try (rewrite E; exact IH).
  contradiction (Hop p). reflexivity.
Qed.

(** ** Exceptions *)

Lemma quiet_same {A} (m : M A) :
  (forall s, snd (m s) = s /\ forall w, fst (m s) <> Throw w) -> quiet m.
Proof.
  intros Hm s o s' E Hi. destruct (Hm s) as [Hs Hw]. rewrite E in Hs, Hw.
  simpl in Hs, Hw. subst s'. split; assumption.
Qed.

Lemma quiet_ret {A} (a : A) : quiet (ret a).
Proof. apply quiet_same. intro s. split; [reflexivity | discriminate]. Qed.

Lemma quiet_gets {A} (f : State -> A) : quiet (gets f).
Proof. apply quiet_same. intro s. split; [reflexivity | discriminate]. Qed.

Lemma quiet_diverge {A} : quiet (@diverge _ A).
Proof. apply quiet_same. intro s. split; [reflexivity | discriminate]. Qed.

Lemma quiet_deref {A} (p : option A) : quiet (deref p).
Proof.
  apply quiet_same. intro s. destruct p; split;
    solve [reflexivity | discriminate].
Qed.

Lemma quiet_bind {A B} (m : M A) (k : A -> M B) :
  quiet m -> (forall a, quiet (k a)) -> quiet (bind m k).
Proof.
  intros Hm Hk s o s' E Hi. unfold bind in E.
  destruct (m s) as [[a | w | |] s1] eqn:E1.
  - destruct (Hm _ _ _ E1 Hi) as [H1 _]. exact (Hk a _ _ _ E H1).
  - destruct (Hm _ _ _ E1 Hi) as [_ H1]. contradiction (H1 w). reflexivity.
  - injection E as <- <-. destruct (Hm _ _ _ E1 Hi) as [H1 _].
    split; [exact H1 | discriminate].
  - injection E as <- <-. destruct (Hm _ _ _ E1 Hi) as [H1 _].
    split; [exact H1 | discriminate].
Qed.

Lemma quiet_API_get : quiet API_get.
Proof.
  intros s o s' E Hi. unfold API_get, bind, gets in E.
  destruct (s_instance s) as [a |] eqn:Ea; [| contradiction].
  injection E as <- <-. split; [congruence | discriminate].
Qed.

Lemma quiet_call fn args : quiet (call fn args).
Proof.
  intros s o s' E Hi. unfold call in E.
  destruct (fn =? 0); [injection E as <- <-; split; [exact Hi | discriminate] |].
  destruct (ffi fn args (host s)). injection E as <- <-.
  split; [exact Hi | discriminate].
Qed.

Lemma quiet_log_fetch k : quiet (modify (log_fetch k)).
Proof.
  intros s o s' E Hi. injection E as <- <-. split; [exact Hi | discriminate].
Qed.

Lemma quiet_set_s_functions k x : quiet (modify (set_s_functions k x)).
Proof.
  intros s o s' E Hi. injection E as <- <-.
  split; [destruct k; exact Hi | discriminate].
Qed.

Lemma quiet_static_local v init : quiet init -> quiet (static_local v init).
Proof.
  intros Hq s o s' E Hi. unfold static_local in E.
  destruct (statics s v); [injection E as <- <-; split; [exact Hi | discriminate] |].
  destruct (init s) as [[x | w | |] s1] eqn:E1;
    injection E as <- <-; destruct (Hq _ _ _ E1 Hi) as [H1 H2];
    split; solve [exact H1 | exact H2 | discriminate].
Qed.

(** The definitions the operations are made of, outermost first. *)
Ltac expose :=
  unfold exec, fmap, API_log_error, API_log_warn,
    API_log_info, API_find_uobject, API_get_engine,
    API_get_player_controller, API_get_local_pawn, API_spawn_object,
    API_execute_command, API_execute_command_ex, API_get_uobject_array,
    UFunction_call, FFieldClass_get_name, UObject_is_a_T,
    UStruct_get_super, UObject_get_full_name, static_class_of,
    UObject_static_class, UStruct_static_class, UClass_static_class,
    UFunction_static_class, static_class, API_find_uobject, FName_to_string,
    UObject_get_class, UObject_get_outer, UObject_is_a,
    UObject_process_event, UObject_call_function,
    UObject_get_property, UObject_get_property_data,
    UObject_get_property_data_T, UObject_get_fname,
    UStruct_get_super_struct, UStruct_find_function,
    UStruct_get_child_properties, UClass_get_class_default_object,
    UClass_get_objects_matching_T, UClass_get_first_object_matching_T,
    UClass_get_objects_matching, UClass_get_first_object_matching,
    UFunction_get_native_function, FField_get_next,
    FField_get_fname, FField_get_class, FProperty_get_offset,
    FFieldClass_get_fname.

Ltac expose_members :=
  unfold hook_member, sdk_member, member,
    FName_initialize, UObject_initialize, UStruct_initialize,
    UClass_initialize, UFunction_initialize, FField_initialize,
    FProperty_initialize, FFieldClass_initialize, initialize.

Ltac quiet_tac :=
  repeat first
    [ apply quiet_ret | apply quiet_gets | apply quiet_deref
    | apply quiet_diverge | apply quiet_API_get | apply quiet_call
    | apply quiet_log_fetch | apply quiet_set_s_functions
    | apply quiet_static_local
    | apply quiet_bind; [| intros ?]
    | match goal with
      | H : forall this outer acc, quiet (get_full_name_loop _ this outer acc)
        |- quiet (get_full_name_loop _ _ _ _) => apply H
      | |- quiet (if ?c then _ else _) => destruct c
      | |- quiet (match ?x with _ => _ end) => destruct x
      end
    | progress cbv zeta ].

Lemma quiet_get_full_name_loop fuel :
  forall this outer acc, quiet (get_full_name_loop fuel this outer acc).
Proof.
  induction fuel as [| fuel IH]; intros this outer acc; simpl;
    destruct (negb (outer =? 0) && negb (outer =? this));
    expose; expose_members; quiet_tac.
Qed.

Lemma quiet_exec op :
  (forall param, op <> Op_initialize param) -> quiet (exec op).
Proof.
  intro Hop. destruct op; try (contradiction (Hop param); reflexivity);
    try pose proof (quiet_get_full_name_loop fuel);
    expose; expose_members; quiet_tac.
Qed.

(** X3.  Once the singleton exists, the [std::runtime_error]s of the header
    are those of [initialize] itself: an operation that ends with one of the
    three is a call of [initialize], the state is unchanged, and the message
    is "param is null" for a null descriptor and "API already initialized"
    otherwise.  "API not initialized" is not thrown again, by any
    operation. *)
Theorem bridge_errors_once_initialized (s : State) (op : Op) w s' :
  s_instance s <> None ->
  exec op s = (Throw w, s') ->
  bridge_error w = true ->
  w <> "API not initialized"%string /\
  exists param,
    op = Op_initialize param /\ s' = s /\
    w = match param with
        | None => "param is null"
        | Some _ => "API already initialized"
        end%string.
Proof.
  intros Hi E _.
  cut (exists param,
         op = Op_initialize param /\ s' = s /\
         w = match param with
             | None => "param is null"
             | Some _ => "API already initialized"
             end%string).
  { intros (param & Hop & Hs & Hw). split; [| eauto].
    rewrite Hw. destruct param; discriminate. }
  destruct op;
    try (exfalso;
         refine (proj2 (@quiet_exec _ _ s (Throw w) s' E Hi) w eq_refl);
         discriminate).
  exists param. split; [reflexivity |].
  unfold exec, fmap, API_initialize, bind, gets, throw in E.
  destruct param as [p |].
  - destruct (s_instance s) as [a |]; [| contradiction].
    injection E as <- <-. split; reflexivity.
  - injection E as <- <-. split; reflexivity.
Qed.

(** ** Which tables an operation reads *)

Lemma within_same ks {A} (m : M A) :
  (forall s, fetches (snd (m s)) = fetches s) -> within ks m.
Proof.
  intros Hm s o s' k E Hk. pose proof (Hm s) as Hs. rewrite E in Hs.
  simpl in Hs. rewrite Hs in Hk. left. exact Hk.
Qed.

Lemma within_ret ks {A} (a : A) : within ks (ret a).
Proof. apply within_same. reflexivity. Qed.

Lemma within_gets ks {A} (f : State -> A) : within ks (gets f).
Proof. apply within_same. reflexivity. Qed.

Lemma within_diverge ks {A} : within ks (@diverge _ A).
Proof. apply within_same. reflexivity. Qed.

Lemma within_deref ks {A} (p : option A) : within ks (deref p).
Proof. apply within_same. destruct p; reflexivity. Qed.

Lemma within_API_get ks : within ks API_get.
Proof.
  apply within_same. intro s. unfold API_get, bind, gets.
  destruct (s_instance s); reflexivity.
Qed.

Lemma within_API_initialize ks param : within ks (API_initialize param).
Proof.
  apply within_same. intro s. unfold API_initialize, bind, gets.
  destruct param; [destruct (s_instance s) |]; reflexivity.
Qed.

Lemma within_call ks fn args : within ks (call fn args).
Proof.
  apply within_same. intro s. unfold call.
  destruct (fn =? 0); [reflexivity |].
  destruct (ffi fn args (host s)); reflexivity.
Qed.

Lemma within_set_s_functions ks k x : within ks (modify (set_s_functions k x)).
Proof. apply within_same. intro s. destruct k; reflexivity. Qed.

Lemma within_log_fetch ks k : In k ks -> within ks (modify (log_fetch k)).
Proof.
  intros Hk s o s' k' E Hin. injection E as <- <-. simpl in Hin.
  apply in_app_or in Hin. destruct Hin as [H | [<- | []]]; auto.
Qed.

Lemma within_bind ks {A B} (m : M A) (k : A -> M B) :
  within ks m -> (forall a, within ks (k a)) -> within ks (bind m k).
Proof.
  intros Hm Hk s o s' x E Hin. unfold bind in E.
  destruct (m s) as [[a | w | |] s1] eqn:E1;
    try (injection E as <- <-; exact (Hm _ _ _ _ E1 Hin)).
  destruct (Hk a _ _ _ _ E Hin) as [H | H]; [| right; exact H].
  exact (Hm _ _ _ _ E1 H).
Qed.

Lemma within_static_local ks v init :
  within ks init -> within ks (static_local v init).
Proof.
  intros Hi s o s' k E Hin. unfold static_local in E.
  destruct (statics s v); [injection E as <- <-; left; exact Hin |].
  destruct (init s) as [[x | w | |] s1] eqn:E1;
    injection E as <- <-; exact (Hi _ _ _ _ E1 Hin).
Qed.

Ltac within_tac :=
  repeat first
    [ apply within_ret | apply within_gets | apply within_deref
    | apply within_diverge | apply within_API_get | apply within_call
    | apply within_API_initialize
    | apply within_log_fetch; simpl; tauto
    | apply within_set_s_functions
    | apply within_static_local
    | apply within_bind; [| intros ?]
    | match goal with
      | H : forall this outer acc,
              within _ (get_full_name_loop _ this outer acc)
        |- within _ (get_full_name_loop _ _ _ _) => apply H
      | |- within _ (if ?c then _ else _) => destruct c
      | |- within _ (match ?x with _ => _ end) => destruct x
      end
    | progress cbv zeta ].

Lemma within_get_full_name_loop fuel :
  forall this outer acc,
    within [KUObject; KFName] (get_full_name_loop fuel this outer acc).
Proof.
  induction fuel as [| fuel IH]; intros this outer acc; simpl;
    destruct (negb (outer =? 0) && negb (outer =? this));
    expose; expose_members; within_tac.
Qed.

Lemma within_exec op : within (op_kinds op) (exec op).
Proof.
  destruct op; try pose proof (within_get_full_name_loop fuel);
    unfold op_kinds; expose; expose_members; within_tac.
Qed.

(** X4.  An operation reads out of the descriptor only the tables of its
    own kinds: after it, any kind on the read log that was not there before
    is one of [op_kinds].  So an [UStruct] method never binds the [UObject]
    table, and the members of [API] and the enumeration methods bind no kind
    table at all. *)
Theorem operation_reads_only_its_kinds (op : Op) (s : State) (k : Kind) :
  In k (fetches (snd (exec op s))) ->
  In k (fetches s) \/ In k (op_kinds op).
Proof.
  intro Hin. destruct (exec op s) as [o s'] eqn:E.
  exact (@within_exec op s o s' k E Hin).
Qed.

(** ** A complete descriptor *)

Lemma table_ok_some {T} (members : T -> list FnPtr) (t : option T) :
  table_ok members t = true ->
  exists x, t = Some x /\ forall p, In p (members x) -> p <> 0.
Proof.
  destruct t as [x |]; [| discriminate]. simpl. intro H.
  exists x. split; [reflexivity |]. intros p Hp.
  rewrite forallb_forall in H. specialize (H p Hp).
  apply negb_true_iff, N.eqb_neq in H. exact H.
Qed.

(** With a complete descriptor every function-pointer static has a source,
    and it is not null. *)
Lemma complete_static_source d v :
  complete_sdk d = true -> is_result v = false ->
  exists x, static_source v d = Some x /\ x <> 0.
Proof.
  unfold complete_sdk. intros H Hv.
  repeat (apply andb_prop in H; destruct H as [H ?]).
  repeat match goal with
         | X : table_ok _ _ = true |- _ =>
             apply table_ok_some in X; destruct X as (? & ? & ?)
         end.
  destruct v; try discriminate Hv; simpl;
    match goal with
    | E : ?t = Some ?x |- context [option_map ?f ?t] =>
        rewrite E; simpl; eexists; split; [reflexivity |];
        match goal with
        | F : forall p, In p _ -> p <> 0 |- _ => apply F; simpl; tauto
        end
    end.
Qed.

Lemma complete_table d k :
  complete_sdk d = true -> exists t, sdk_table k d = Some t.
Proof.
  unfold complete_sdk. intro H.
  repeat (apply andb_prop in H; destruct H as [H ?]).
  repeat match goal with
         | X : table_ok _ _ = true |- _ =>
             apply table_ok_some in X; destruct X as (? & ? & _)
         end.
  destruct k; simpl; eauto.
Qed.

Section Complete.
Variables (api : API) (d : UEVR_SDKData).
Hypothesis api_sdk : m_sdk api = Some d.
Hypothesis sdk_complete : complete_sdk d = true.
Hypothesis plugin_complete : complete_plugin (m_param api) = true.

Lemma fine_ret dv {A} (a : A) (Q : A -> Prop) : Q a -> fine api d dv (ret a) Q.
Proof. intros Ha s o s' E Hi L. injection E as <- <-. auto. Qed.

Lemma fine_diverge {A} (Q : A -> Prop) : fine api d true diverge Q.
Proof. intros s o s' E Hi L. injection E as <- <-. auto. Qed.

Lemma fine_weaken dv {A} (m : M A) (Q R : A -> Prop) :
  fine api d dv m Q -> (forall a, Q a -> R a) -> fine api d dv m R.
Proof.
  intros Hm HQ s o s' E Hi L. destruct (Hm _ _ _ E Hi L) as (H1 & H2 & H3).
  split; [exact H1 |]. split; [exact H2 |]. destruct o; auto.
Qed.

Lemma fine_bind dv {A B} (m : M A) (k : A -> M B) (Q : A -> Prop)
    (R : B -> Prop) :
  fine api d dv m Q -> (forall a, Q a -> fine api d dv (k a) R) ->
  fine api d dv (bind m k) R.
Proof.
  intros Hm Hk s o s' E Hi L. unfold bind in E.
  destruct (m s) as [[a | w | |] s1] eqn:E1;
    destruct (Hm _ _ _ E1 Hi L) as (H1 & H2 & H3); try contradiction.
  - exact (Hk a H3 _ _ _ E H1 H2).
  - injection E as <- <-. auto.
Qed.

Lemma fine_API_get dv : fine api d dv API_get (fun a => a = api).
Proof.
  intros s o s' E Hi L. unfold API_get, bind, gets in E. rewrite Hi in E.
  injection E as <- <-. auto.
Qed.

Lemma fine_call dv fn args :
  fn <> 0 -> fine api d dv (call fn args) (fun _ => True).
Proof.
  intros Hfn s o s' E Hi L. rewrite call_ok in E by exact Hfn.
  injection E as <- <-.
  split; [exact Hi |]. split; [apply linked_log_call, L | exact I].
Qed.

Lemma fine_plugin dv :
  fine api d dv (deref (plugin_functions (m_param api)))
    (fun pf => PluginFunctions.log_error pf <> 0 /\
               PluginFunctions.log_warn pf <> 0 /\
               PluginFunctions.log_info pf <> 0).
Proof.
  intros s o s' E Hi L.
  destruct (table_ok_some _ _ plugin_complete) as (pf & Hp & Hm).
  rewrite Hp in E. injection E as <- <-.
  split; [exact Hi |]. split; [exact L |].
  repeat split; apply Hm; simpl; tauto.
Qed.

Lemma fine_static_member dv k (field : Table k -> FnPtr) v :
  is_result v = false ->
  static_source v d = option_map field (sdk_table k d) ->
  fine api d dv (static_local v (member (initialize k) field))
    (fun fn => fn <> 0).
Proof.
  intros Hr Hv s o s' E Hi L.
  destruct (@complete_table d k sdk_complete) as (t & Ht).
  destruct (@complete_static_source d v sdk_complete Hr) as (x & Hx & Hx0).
  rewrite Ht in Hv. simpl in Hv.
  destruct (static_member_ok k field v L Ht Hv) as (s1 & E1 & L1 & _).
  rewrite E1 in E. injection E as <- <-.
  assert (Hi1 : s_instance s1 = Some api).
  { pose proof (safe_static_local v (safe_member k field)) as S.
    destruct (S _ _ _ E1) as [X _]. exact (ext_instance X Hi). }
  split; [exact Hi1 |]. split; [exact L1 |].
  rewrite Hv in Hx. injection Hx as <-. exact Hx0.
Qed.

Lemma fine_static_sdk_member dv {T} (table : UEVR_SDKData -> option T)
    (field : T -> FnPtr) v :
  is_result v = false ->
  static_source v d = option_map field (table d) ->
  fine api d dv (static_local v (sdk_member api table field))
    (fun fn => fn <> 0).
Proof.
  intros Hr Hv s o s' E Hi L.
  destruct (@complete_static_source d v sdk_complete Hr) as (x & Hx & Hx0).
  rewrite Hv in Hx. unfold static_local in E.
  destruct (statics s v) as [y |] eqn:Ey.
  - injection E as <- <-. split; [exact Hi |]. split; [exact L |].
    rewrite Hx in Hv. rewrite (linked_statics L _ Ey Hv). exact Hx0.
  - unfold sdk_member, bind, deref, ret in E. rewrite api_sdk in E.
    destruct (table d) as [t |]; [| discriminate Hx].
    simpl in Hx. injection Hx as Hx. injection E as <- <-.
    split; [exact Hi |]. split; [| rewrite Hx; exact Hx0].
    apply linked_set_static; [exact L |].
    intros z Hz. rewrite Hv in Hz. now injection Hz.
Qed.

Lemma fine_static_hook dv (field : UObjectHookFunctions.t -> FnPtr) v :
  is_result v = false ->
  static_source v d = option_map field (uobject_hook d) ->
  fine api d dv (static_local v (hook_member field)) (fun fn => fn <> 0).
Proof.
  intros Hr Hv s o s' E Hi L.
  destruct (@complete_static_source d v sdk_complete Hr) as (x & Hx & Hx0).
  rewrite Hv in Hx.
  destruct (uobject_hook d) as [hk |] eqn:Hk; [| discriminate Hx].
  simpl in Hx. injection Hx as Hx. rewrite <- Hk in Hv.
  assert (Hv' : static_source v d = Some (field hk))
    by (rewrite Hv, Hk; reflexivity).
  destruct (static_hook_ok field v L Hk Hv') as (s1 & E1 & L1 & _).
  rewrite E1 in E. injection E as <- <-.
  assert (Hi1 : s_instance s1 = Some api).
  { pose proof (safe_static_local v (safe_hook_member field)) as S.
    destruct (S _ _ _ E1) as [X _]. exact (ext_instance X Hi). }
  split; [exact Hi1 |]. split; [exact L1 |]. rewrite Hx. exact Hx0.
Qed.

Lemma fine_static_result dv v init :
  static_source v d = None -> fine api d dv init (fun _ => True) ->
  fine api d dv (static_local v init) (fun _ => True).
Proof.
  intros Hv Hq s o s' E Hi L. unfold static_local in E.
  destruct (statics s v); [injection E as <- <-; auto |].
  destruct (init s) as [[x | w | |] s1] eqn:E1;
    injection E as <- <-; destruct (Hq _ _ _ E1 Hi L) as (H1 & H2 & H3);
    try contradiction; auto.
  split; [exact H1 |]. split; [| exact I].
  apply linked_set_static; [exact H2 |]. intros y Hy. congruence.
Qed.

Lemma fine_bind_any dv {A B} (m : M A) (k : A -> M B) (R : B -> Prop) :
  fine api d dv m (fun _ => True) -> (forall a, fine api d dv (k a) R) ->
  fine api d dv (bind m k) R.
Proof.
  intros Hm Hk. eapply fine_bind; [exact Hm |]. intros a _. apply Hk.
Qed.

Ltac fine_static :=
  first
    [ apply fine_static_hook; reflexivity
    | apply fine_static_sdk_member; reflexivity
    | apply (fine_static_member _ KFName); reflexivity
    | apply (fine_static_member _ KUObject); reflexivity
    | apply (fine_static_member _ KUStruct); reflexivity
    | apply (fine_static_member _ KUClass); reflexivity
    | apply (fine_static_member _ KUFunction); reflexivity
    | apply (fine_static_member _ KFField); reflexivity
    | apply (fine_static_member _ KFProperty); reflexivity
    | apply (fine_static_member _ KFFieldClass); reflexivity ].

Ltac fine_tac :=
  repeat first
    [ apply fine_ret; exact I
    | apply fine_call; assumption
    | apply fine_diverge
    | apply fine_static_result; [reflexivity |]
    | match goal with
      | H : forall this outer acc,
              fine _ _ _ (get_full_name_loop _ this outer acc) _
        |- fine _ _ _ (get_full_name_loop _ _ _ _) _ => apply H
      | |- fine _ _ _ (bind (static_local ?v (bind API_get _)) _) _ =>
          apply fine_bind_any; [| intros ?]
      | |- fine _ _ _ (bind (static_local _ _) _) _ =>
          eapply fine_bind; [fine_static | intros ? ?]
      | |- fine _ _ _ (bind API_get _) _ =>
          eapply fine_bind; [apply fine_API_get | intros ? ->]
      | |- fine _ _ _ (bind (deref (plugin_functions _)) _) _ =>
          eapply fine_bind; [apply fine_plugin | intros ? (? & ? & ?)]
      | |- fine _ _ _ (bind _ _) _ => apply fine_bind_any; [| intros ?]
      | |- fine _ _ _ (if ?c then _ else _) _ => destruct c
      | |- fine _ _ _ (match ?x with TUObject => _ | _ => _ end) _ =>
          destruct x
      end
    | progress cbv zeta ].

Lemma fine_get_full_name_loop fuel :
  forall this outer acc,
    fine api d true (get_full_name_loop fuel this outer acc) (fun _ => True).
Proof.
  induction fuel as [| fuel IH]; intros this outer acc; simpl;
    destruct (negb (outer =? 0) && negb (outer =? this));
    expose; fine_tac.
Qed.

(** With a complete descriptor, every operation but [initialize] and
    [get_property<T>] is fine; only [get_full_name] may fail to return. *)
Lemma fine_exec op :
  (forall param, op <> Op_initialize param) ->
  (forall T this name, op <> Op_get_property T this name) ->
  fine api d
    match op with
    | Op_get_full_name _ _ => true
    | _ => false
    end (exec op) (fun _ => True).
Proof.
  intros Hop Hgp.
  destruct op; try (contradiction (Hop param); reflexivity);
    try (contradiction (Hgp T this name); reflexivity);
    try pose proof (fine_get_full_name_loop fuel);
    expose; fine_tac.
Qed.

End Complete.

(** X5.  With a complete descriptor -- every table and every member set --
    the bridge dereferences and calls no null pointer: in a linked process
    no operation other than [initialize] and [get_property<T>] runs into
    undefined behaviour on the bridge's side or ends with one of the
    header's exceptions, only [get_full_name] can fail to return, and the
    process stays linked to the same singleton, so the same holds for the
    next operation.  ([get_property<T>] is left out because it dereferences
    what the host answered; exceptions of the containers are outside the
    model and the statement says nothing about them.) *)
Theorem complete_descriptor_no_undefined_behaviour (s : State) api d op :
  s_instance s = Some api -> m_sdk api = Some d -> linked s d ->
  complete_sdk d = true -> complete_plugin (m_param api) = true ->
  (forall param, op <> Op_initialize param) ->
  (forall T this name, op <> Op_get_property T this name) ->
  s_instance (snd (exec op s)) = Some api /\
  linked (snd (exec op s)) d /\
  match fst (exec op s) with
  | Ok _ => True
  | Throw w => bridge_error w = false
  | Crash => False
  | Diverge => exists fuel this, op = Op_get_full_name fuel this
  end.
Proof.
  intros Hi Hd L Hc Hp Hop Hgp.
  destruct (exec op s) as [o s'] eqn:E.
  destruct (@fine_exec api d Hd Hc Hp op Hop Hgp s o s' E Hi L)
    as (H1 & H2 & H3).
  split; [exact H1 |]. split; [exact H2 |]. simpl.
  destruct o; try exact H3; try contradiction.
  destruct op; try discriminate H3. eauto.
Qed.

(** X16.  [get_property<T>] is [get_property_data<T>] followed by a
    dereference of what the host answered: with a complete descriptor, in a
    linked process, it makes the one host call of [get_property_data<T>] and
    hands back the address the host answered -- and it is undefined
    behaviour exactly when that answer is a null pointer, as for a property
    the object does not have. *)
Theorem get_property_undefined_on_null (s : State) api d T this name :
  s_instance s = Some api -> m_sdk api = Some d -> linked s d ->
  complete_sdk d = true ->
  exists ut,
    uobject d = Some ut /\
    let fn := UObjectFunctions.get_property_data ut in
    let a := ffi fn [AWord this; AText (data name)] (host s) in
    calls (snd (exec (Op_get_property T this name) s))
      = calls s ++ [(fn, [AWord this; AText (data name)])] /\
    fst (exec (Op_get_property T this name) s)
      = (if fst (snd a) =? 0 then Crash else Ok (VWord (fst (snd a)))) /\
    fst (exec (Op_get_property_data_T T this name) s)
      = Ok (VWord (fst (snd a))).
Proof.
  intros Hi Hd L Hc.
  destruct (@complete_table d KUObject Hc) as (ut & Ht). simpl in Ht.
  exists ut. split; [exact Ht |]. intros fn a.
  destruct (@complete_static_source d (UObject_get_property_data_fn T) Hc
              eq_refl) as (x & Hx & Hx0).
  simpl in Hx. rewrite Ht in Hx. simpl in Hx. injection Hx as Hx.
  assert (Hfn : fn <> 0) by (subst fn; rewrite Hx; exact Hx0).
  destruct (@wrapper_call_ok _ N KUObject UObjectFunctions.get_property_data
              (UObject_get_property_data_fn T)
              [AWord this; AText (data name)] fst s d ut L Ht
              ltac:(simpl; rewrite Ht; reflexivity) Hfn)
    as (s1 & E1 & L1 & Hh & Hcs).
  assert (E2 : UObject_get_property_data_T T this name s
               = (Ok (fst (snd a)), s1)) by exact E1.
  split; [| split].
  - unfold exec, fmap, UObject_get_property.
    unfold bind at 1. unfold bind at 1. rewrite E2.
    destruct (fst (snd a) =? 0); simpl; exact Hcs.
  - unfold exec, fmap, UObject_get_property.
    unfold bind at 1. unfold bind at 1. rewrite E2.
    destruct (fst (snd a) =? 0); reflexivity.
  - unfold exec, fmap. unfold bind. rewrite E2. reflexivity.
Qed.

(** ** The outer walk, at any depth *)

Lemma fold_dotted (anc : list (Handle * wstring)) :
  forall acc,
    fold_left (fun a p => snd p ++ dot :: a) anc acc = dotted anc ++ acc.
Proof.
  unfold dotted. induction anc as [| p rest IH]; intro acc; simpl.
  - reflexivity.
  - rewrite IH, map_app, concat_app. simpl.
    rewrite app_nil_r, <- !app_assoc. reflexivity.
Qed.

Section Walks.
Variables (d : UEVR_SDKData) (ut : UObjectFunctions.t) (nt : FNameFunctions.t).
Hypothesis ready : names_ready d ut nt.

(** [get_full_name] on an object with a class, up to its loop. *)
Lemma get_full_name_to_loop fuel this c o txt s :
  linked s d -> c <> 0 ->
  host_class ut this c -> host_named ut nt this txt -> host_outer ut this o ->
  exists s1,
    linked s1 d /\
    UObject_get_full_name fuel this s
      = bind (get_full_name_loop fuel this o txt)
          (fun obj_name =>
             cn <- UObject_get_fname c ;;
             ct <- FName_to_string cn ;;
             ret (ct ++ space :: obj_name)) s1.
Proof.
  intros L Hc0 Hc Hn Ho.
  destruct (UObject_get_class_ok this L (ready_uobject ready)
              (ready_get_class ready)) as (s1 & E1 & L1 & _).
  rewrite Hc in E1.
  unfold UObject_get_full_name. erewrite bind_ok by exact E1.
  apply N.eqb_neq in Hc0. rewrite Hc0.
  destruct (object_name_ok ready
              (fun obj_name =>
                 outer <- UObject_get_outer this ;;
                 obj_name <- get_full_name_loop fuel this outer obj_name ;;
                 cn <- UObject_get_fname c ;;
                 ct <- FName_to_string cn ;;
                 ret (ct ++ space :: obj_name)) L1 Hn)
    as (s2 & L2 & E2).
  rewrite E2.
  destruct (object_outer_ok ready
              (fun outer =>
                 obj_name <- get_full_name_loop fuel this outer txt ;;
                 cn <- UObject_get_fname c ;;
                 ct <- FName_to_string cn ;;
                 ret (ct ++ space :: obj_name)) L2 Ho)
    as (s3 & L3 & E3).
  rewrite E3. exists s3. split; [exact L3 | reflexivity].
Qed.

(** The loop follows a walk to its end, one unit of fuel per object. *)
Lemma loop_along_path this outer anc :
  outer_path ut nt this outer anc ->
  forall fuel acc s,
    linked s d -> (List.length anc <= fuel)%nat ->
    exists s',
      linked s' d /\
      get_full_name_loop fuel this outer acc s
        = (Ok (fold_left (fun a p => snd p ++ dot :: a) anc acc), s').
Proof.
  induction 1 as [outer Hend | outer txt next rest H0 Ht Hn Ho _ IH];
    intros fuel acc s L Hfuel.
  - exists s. split; [exact L |]. apply loop_stop. exact Hend.
  - destruct fuel as [| fuel]; [simpl in Hfuel; lia |].
    destruct (loop_step ready fuel acc L H0 Ht Hn Ho) as (s1 & L1 & E1).
    destruct (IH fuel (txt ++ dot :: acc) s1 L1) as (s2 & L2 & E2).
    { simpl in Hfuel. lia. }
    exists s2. split; [exact L2 |]. rewrite E1. exact E2.
Qed.

(** Inside an endless set the loop uses up any fuel. *)
Lemma loop_endless this P :
  endless ut nt this P ->
  forall fuel x acc s,
    linked s d -> P x ->
    fst (get_full_name_loop fuel this x acc s) = Diverge.
Proof.
  intros HP fuel. induction fuel as [| fuel IH]; intros x acc s L Hx;
    destruct (HP x Hx) as (H0 & Ht & (txt & Hn) & (y & Ho & Hy)).
  - simpl. apply N.eqb_neq in H0. apply N.eqb_neq in Ht.
    rewrite H0, Ht. reflexivity.
  - destruct (loop_step ready fuel acc L H0 Ht Hn Ho) as (s1 & L1 & E1).
    rewrite E1. apply IH; assumption.
Qed.

End Walks.

(** X6.  [get_full_name] at any depth: when the outer walk from [C] passes
    through the objects [anc] (nearest first) and then ends -- on a null
    outer, or by coming back to [C] itself -- the result is the class name, a
    space, the names of [anc] from the outermost inwards, each followed by a
    dot, and the name of [C]; one unit of fuel per object passed is
    enough. *)
Theorem get_full_name_any_depth fuel (s : State) d ut nt C K o anc tC tK :
  linked s d -> names_ready d ut nt ->
  K <> 0 -> host_class ut C K ->
  host_named ut nt C tC -> host_named ut nt K tK ->
  host_outer ut C o -> outer_path ut nt C o anc ->
  (List.length anc <= fuel)%nat ->
  fst (UObject_get_full_name fuel C s)
    = Ok (tK ++ space :: dotted anc ++ tC).
Proof.
  intros L R HK CK NC NK OC Hpath Hfuel.
  destruct (get_full_name_to_loop R fuel L HK CK NC OC) as (s1 & L1 & E1).
  pose proof (loop_along_path R Hpath) as Hloop.
  destruct (Hloop fuel tC s1 L1 Hfuel) as (s2 & L2 & E2).
  rewrite E1. erewrite bind_ok by exact E2.
  destruct (object_name_ok R
              (fun ct =>
                 ret (ct ++ space
                        :: fold_left (fun a p => snd p ++ dot :: a) anc tC))
              L2 NK)
    as (s3 & L3 & E3).
  rewrite E3, fold_dotted. reflexivity.
Qed.

(** X7.  The only cycle guard of [get_full_name] is the comparison with the
    starting object: when the outer walk from [C] enters a set of objects it
    cannot leave (a cycle among the ancestors that does not pass through [C],
    an ancestor that is its own outer), [get_full_name] does not return,
    whatever the fuel. *)
Theorem get_full_name_never_returns fuel (s : State) d ut nt C K o tC P :
  linked s d -> names_ready d ut nt ->
  K <> 0 -> host_class ut C K -> host_named ut nt C tC ->
  host_outer ut C o -> P o -> endless ut nt C P ->
  fst (UObject_get_full_name fuel C s) = Diverge.
Proof.
  intros L R HK CK NC OC Ho HP.
  destruct (get_full_name_to_loop R fuel L HK CK NC OC) as (s1 & L1 & E1).
  rewrite E1. unfold bind.
  pose proof (loop_endless R HP) as Hloop.
  pose proof (Hloop fuel o tC s1 L1 Ho) as E2.
  destruct (get_full_name_loop fuel C o tC s1) as [out s2].
  simpl in E2. subst out. reflexivity.
Qed.

(** ** Statics are bound once *)

(** X8.  [static_class()] is decided by its first lookup: once it has
    returned [r] -- a class or, when the host did not know the class yet, a
    null pointer -- it returns [r] for the rest of the process, whatever
    happens in between, without asking the host again and without touching
    the state. *)
Theorem static_class_result_is_final T (s : State) r s1 :
  static_class_of T s = (Ok r, s1) ->
  forall ops,
    static_class_of T (run ops s1) = (Ok r, run ops s1).
Proof.
  intros E ops.
  assert (Hs : statics s1 (static_class_var T) = Some r).
  { destruct T; eapply static_local_sets; exact E. }
  pose proof (ext_statics (run_extends ops s1) _ Hs) as Hr.
  destruct T; apply static_local_set; exact Hr.
Qed.

(** X9.  The function-local static of [find_uobject<T>] is shared by all
    [API] objects, one per instantiation: after [find_uobject<T>] has run
    once on [api1], a call of the same instantiation on any other object
    [api2] -- at any later time, whatever [api2]'s descriptor holds -- goes
    through the pointer read from [api1]'s descriptor, and hands the host
    [name.data()].  The call initialises the static of its own
    instantiation only: another instantiation that has not run yet reads the
    descriptor of the object it is called on, and dereferences a null
    pointer if that object has none. *)
Theorem find_uobject_bound_to_first_api T api1 api2 name1 name2 (s : State)
    r s1 :
  statics s (find_uobject_fn T) = None ->
  API_find_uobject T api1 name1 s = (Ok r, s1) ->
  exists d1 t1,
    m_sdk api1 = Some d1 /\ uobject_array d1 = Some t1 /\
    (forall ops,
       let fn := UObjectArrayFunctions.find_uobject t1 in
       let s2 := run ops s1 in
       let a := ffi fn [AText (data name2)] (host s2) in
       API_find_uobject T api2 name2 s2
         = (Ok (fst (snd a)),
            log_call (fst a) (fn, [AText (data name2)]) s2)) /\
    (forall T', T' <> T ->
       statics s1 (find_uobject_fn T') = statics s (find_uobject_fn T')) /\
    (forall T' (s2 : State),
       statics s2 (find_uobject_fn T') = None -> m_sdk api2 = None ->
       API_find_uobject T' api2 name2 s2 = (Crash, s2)).
Proof.
  intros Hv E. unfold API_find_uobject in E.
  unfold bind at 1 in E.
  destruct (static_local (find_uobject_fn T)
              (sdk_member api1 uobject_array
                 UObjectArrayFunctions.find_uobject) s)
    as [[fn | w | |] s0] eqn:E0; try discriminate E.
  assert (Hs0 : statics s0 (find_uobject_fn T) = Some fn)
    by (eapply static_local_sets; exact E0).
  unfold static_local in E0. rewrite Hv in E0.
  unfold sdk_member, bind, deref, ret, crash in E0.
  destruct (m_sdk api1) as [d1 |] eqn:Hd1; [| discriminate E0].
  destruct (uobject_array d1) as [t1 |] eqn:Ht1; [| discriminate E0].
  injection E0 as <- <-.
  unfold bind, call in E.
  destruct (N.eqb_spec (UObjectArrayFunctions.find_uobject t1) 0)
    as [Z | NZ]; [discriminate E |].
  destruct (ffi (UObjectArrayFunctions.find_uobject t1) [AText (data name1)]
              (host (set_static (find_uobject_fn T)
                       (UObjectArrayFunctions.find_uobject t1) s)))
    as [h1 r1] eqn:Ef.
  injection E as <- <-.
  exists d1, t1. split; [reflexivity |]. split; [exact Ht1 |].
  split; [| split].
  - intros ops fn s2 a.
    assert (Hs2 : statics s2 (find_uobject_fn T) = Some fn).
    { apply (ext_statics (run_extends ops _)). exact Hs0. }
    unfold API_find_uobject.
    erewrite bind_ok by (apply static_local_set; exact Hs2).
    erewrite bind_ok by (apply call_ok; exact NZ).
    reflexivity.
  - intros T' HT. simpl.
    destruct (StaticVar_eqb (find_uobject_fn T) (find_uobject_fn T')) eqn:Eb;
      [| reflexivity].
    apply StaticVar_eqb_eq in Eb. injection Eb as Eb. congruence.
  - intros T' s2 Hn Hd2. unfold API_find_uobject, bind, static_local.
    rewrite Hn. unfold sdk_member, bind, deref. rewrite Hd2. reflexivity.
Qed.

(** ** Fills that come up short *)

Lemma store_short (n : N) (w : list N) :
  (List.length w <= N.to_nat n)%nat ->
  store n w = w ++ repeat 0 (N.to_nat n - List.length w).
Proof.
  intro H. unfold store.
  replace (N.to_nat n)
    with (List.length w + (N.to_nat n - List.length w))%nat at 1 by lia.
  rewrite firstn_app_2.
  f_equal.
  replace (N.to_nat n)
    with ((N.to_nat n - List.length w) + List.length w)%nat at 2 by lia.
  rewrite repeat_app, firstn_app, repeat_length, Nat.sub_diag.
  rewrite firstn_all2 by (rewrite repeat_length; lia).
  simpl. apply app_nil_r.
Qed.

(** X10.  When the fill call of [get_objects_matching] stores fewer handles
    than the size query announced (the host lost objects in between), the
    result still has the announced length: the handles stored, followed by
    null handles. *)
Theorem get_objects_matching_short_fill this allow (s : State) d hk :
  linked s d -> uobject_hook d = Some hk ->
  UObjectHookFunctions.activate hk <> 0 ->
  UObjectHookFunctions.get_objects_by_class hk <> 0 ->
  let afn := UObjectHookFunctions.activate hk in
  let fn := UObjectHookFunctions.get_objects_by_class hk in
  let query := [AWord this; ABuffer None; AWord 0; AWord (of_bool allow)] in
  let q := ffi fn query (fst (ffi afn [] (host s))) in
  let size := fst (snd q) in
  let fill :=
    [AWord this; ABuffer (Some size); AWord size; AWord (of_bool allow)] in
  let stored := snd (snd (ffi fn fill (fst q))) in
  size <> 0 ->
  (List.length stored <= N.to_nat size)%nat ->
  fst (UClass_get_objects_matching this allow s)
    = Ok (stored ++ repeat 0 (N.to_nat size - List.length stored)).
Proof.
  intros L Hk Ha Hfn afn fn query q size fill stored NZ Hshort.
  destruct (get_objects_matching_ok this allow L Hk Ha Hfn)
    as (s' & E & _).
  fold afn fn query q size fill in E. rewrite E.
  apply N.eqb_neq in NZ. rewrite NZ. simpl.
  f_equal. apply store_short. exact Hshort.
Qed.

(** X11.  When the fill call of [to_string] stores fewer characters than the
    size query announced, the result still has the announced length: the
    characters stored, followed by NUL characters. *)
Theorem to_string_short_fill this (s : State) d nt :
  linked s d -> fname d = Some nt -> FNameFunctions.to_string nt <> 0 ->
  let fn := FNameFunctions.to_string nt in
  let q := ffi fn [AWord this; ABuffer None; AWord 0] (host s) in
  let size := fst (snd q) in
  let fill := [AWord this; ABuffer (Some size); AWord (size + 1)] in
  let stored := snd (snd (ffi fn fill (fst q))) in
  size <> 0 ->
  (List.length stored <= N.to_nat size)%nat ->
  fst (FName_to_string this s)
    = Ok (stored ++ repeat 0 (N.to_nat size - List.length stored)).
Proof.
  intros L Ht Hfn fn q size fill stored NZ Hshort.
  destruct (FName_to_string_ok this L Ht Hfn) as (s' & E & _).
  fold fn q size fill in E. rewrite E.
  apply N.eqb_neq in NZ. rewrite NZ. simpl.
  f_equal. apply store_short. exact Hshort.
Qed.

(** ** [UFunction::call] *)

(** X12.  [UFunction::call(obj, params)] on a non-null object is one host
    call through the [process_event] member of the object table, with the
    object first and the function second; nothing of the function table is
    read.  On a null object it does nothing at all. *)
Theorem UFunction_call_is_process_event this obj params (s : State) d ut :
  linked s d -> uobject d = Some ut ->
  UObjectFunctions.process_event ut <> 0 ->
  (obj = 0 -> UFunction_call this obj params s = (Ok tt, s)) /\
  (obj <> 0 ->
   exists s',
     UFunction_call this obj params s = (Ok tt, s') /\
     linked s' d /\
     calls s' = calls s ++
       [(UObjectFunctions.process_event ut,
         [AWord obj; AWord this; AWord params])] /\
     (In KUFunction (fetches s') -> In KUFunction (fetches s))).
Proof.
  intros L Ht Hfn. split.
  - intros ->. reflexivity.
  - intro NZ. unfold UFunction_call.
    apply N.eqb_neq in NZ. rewrite NZ.
    destruct (wrapper_call_ok KUObject UObjectFunctions.process_event
                UObject_process_event_fn
                [AWord obj; AWord this; AWord params] (fun _ => tt) L Ht
                (f_equal (option_map UObjectFunctions.process_event) Ht) Hfn)
      as (s' & E & L' & _ & Hc).
    exists s'. split; [exact E |]. split; [exact L' |].
    split; [exact Hc |].
    assert (E' : exec (Op_process_event obj this params) s = (Ok VUnit, s')).
    { unfold exec, fmap. erewrite bind_ok by exact E. reflexivity. }
    intro Hin.
    destruct (@within_exec (Op_process_event obj this params) s
                (Ok VUnit) s' KUFunction E' Hin) as [H | H]; [exact H |].
    simpl in H. destruct H as [H | []]. discriminate H.
Qed.

(** ** Lazy binding is invisible *)

Section Transparency.
Variables (api : API) (d : UEVR_SDKData).

Lemma bound_log_call s h c : bound api d s -> bound api d (log_call h c s).
Proof.
  intros [L Hi Hd Ht]. split; [apply linked_log_call, L | | |]; assumption.
Qed.

Lemma bound_set_static s v x :
  bound api d s ->
  (is_result v = false -> static_source v d = Some x) ->
  (is_result v = true -> static_source v d = None) ->
  bound api d (set_static v x s).
Proof.
  intros [L Hi Hd Ht] Hfn Hres. split; [| exact Hi | exact Hd |].
  - apply linked_set_static; [exact L |]. intros y Hy.
    destruct (is_result v); [rewrite Hres in Hy by reflexivity; discriminate |].
    rewrite Hfn in Hy by reflexivity. now injection Hy.
  - intros v' x' Hr. simpl.
    destruct (StaticVar_eqb v v') eqn:E; [| apply Ht; exact Hr].
    apply StaticVar_eqb_eq in E. subst v'. intros [= <-].
    apply Hfn, Hr.
Qed.

Lemma initialize_bound k s :
  bound api d s ->
  exists s',
    initialize k s = (Ok (sdk_table k d), s') /\ bound api d s' /\
    host s' = host s /\ calls s' = calls s /\ statics s' = statics s.
Proof.
  intros [L Hi Hd Ht]. unfold initialize, bind at 1, gets at 1.
  destruct (s_functions k s) as [t |] eqn:E.
  - exists s. rewrite (linked_tables L _ E).
    split; [reflexivity |]. split; [split; assumption |].
    repeat split; reflexivity.
  - exists (set_s_functions k (sdk_table k d) (log_fetch k s)).
    unfold API_get, bind, gets, modify, deref, ret. rewrite Hi, Hd.
    rewrite s_functions_set.
    split; [reflexivity |].
    split; [| repeat split; destruct k; reflexivity].
    split; [apply linked_fetch, L | destruct k; exact Hi | exact Hd |].
    intros v x Hr Hv. apply (Ht v x Hr). destruct k; exact Hv.
Qed.

Lemma settled_static_member k (field : Table k -> FnPtr) v :
  is_result v = false ->
  static_source v d = option_map field (sdk_table k d) ->
  settled api d (static_local v (member (initialize k) field))
    match option_map field (sdk_table k d) with
    | Some x => Ok x
    | None => Crash
    end.
Proof.
  intros Hr Hv s B. unfold static_local.
  destruct (statics s v) as [x |] eqn:E.
  - exists s. pose proof (bound_tight B v Hr E) as Hx.
    rewrite <- Hv, Hx. split; [reflexivity |]. split; [exact B |].
    repeat split; reflexivity.
  - destruct (initialize_bound k B) as (s1 & E1 & B1 & Hh & Hc & Hs).
    unfold member, bind. rewrite E1.
    destruct (sdk_table k d) as [t |] eqn:Et; simpl.
    + exists (set_static v (field t) s1).
      split; [reflexivity |].
      split; [apply bound_set_static; [exact B1 | |] |].
      * intros _. rewrite Hv. reflexivity.
      * intro H. rewrite H in Hr. discriminate.
      * split; [exact Hh |]. split; [exact Hc |].
        intros v' Hv'. simpl.
        destruct (StaticVar_eqb v v') eqn:Eb; [| rewrite Hs; reflexivity].
        apply StaticVar_eqb_eq in Eb. subst v'. congruence.
    + exists s1. split; [reflexivity |]. split; [exact B1 |].
      split; [exact Hh |]. split; [exact Hc |]. intros. rewrite Hs.
      reflexivity.
Qed.

Lemma settled_static_sdk_member {T} (table : UEVR_SDKData -> option T)
    (field : T -> FnPtr) v :
  is_result v = false ->
  static_source v d = option_map field (table d) ->
  settled api d (static_local v (sdk_member api table field))
    match option_map field (table d) with
    | Some x => Ok x
    | None => Crash
    end.
Proof.
  intros Hr Hv s B. unfold static_local.
  destruct (statics s v) as [x |] eqn:E.
  - exists s. pose proof (bound_tight B v Hr E) as Hx.
    rewrite <- Hv, Hx. split; [reflexivity |]. split; [exact B |].
    repeat split; reflexivity.
  - unfold sdk_member, bind, deref, ret, crash. rewrite (bound_sdk B).
    destruct (table d) as [t |] eqn:Et; simpl.
    + exists (set_static v (field t) s).
      split; [reflexivity |].
      split; [apply bound_set_static; [exact B | |] |].
      * intros _. rewrite Hv, ?Et. reflexivity.
      * intro H. rewrite H in Hr. discriminate.
      * split; [reflexivity |]. split; [reflexivity |].
        intros v' Hv'. simpl.
        destruct (StaticVar_eqb v v') eqn:Eb; [| reflexivity].
        apply StaticVar_eqb_eq in Eb. subst v'. congruence.
    + exists s. split; [reflexivity |]. split; [exact B |].
      repeat split; reflexivity.
Qed.

Lemma settled_static_hook (field : UObjectHookFunctions.t -> FnPtr) v :
  is_result v = false ->
  static_source v d = option_map field (uobject_hook d) ->
  settled api d (static_local v (hook_member field))
    match option_map field (uobject_hook d) with
    | Some x => Ok x
    | None => Crash
    end.
Proof.
  intros Hr Hv s B.
  destruct (settled_static_sdk_member uobject_hook field v Hr Hv B)
    as (s' & E & Rest).
  exists s'. split; [| exact Rest].
  unfold static_local in *. destruct (statics s v); [exact E |].
  unfold hook_member, API_get, bind at 1 2, gets.
  rewrite (bound_api B). exact E.
Qed.

Lemma transparent_of_settled {A} (m : M A) out :
  settled api d m out -> transparent api d m.
Proof.
  intros Hm s1 s2 [B1 B2 Hh Hr].
  destruct (Hm s1 B1) as (s1' & E1 & B1' & Hh1 & Hc1 & Hr1).
  destruct (Hm s2 B2) as (s2' & E2 & B2' & Hh2 & Hc2 & Hr2).
  rewrite E1, E2. simpl. split; [reflexivity |]. split.
  - split; [exact B1' | exact B2' | congruence |].
    intros v Hv. rewrite (Hr1 v Hv), (Hr2 v Hv). apply Hr, Hv.
  - exists []. rewrite !app_nil_r. split; assumption.
Qed.

Lemma transparent_pure {A} (m : M A) out :
  (forall s, m s = (out, s)) -> transparent api d m.
Proof.
  intros Hm s1 s2 V. rewrite !Hm. simpl.
  split; [reflexivity |]. split; [exact V |].
  exists []. rewrite !app_nil_r. split; reflexivity.
Qed.

Lemma transparent_ret {A} (a : A) : transparent api d (ret a).
Proof. apply transparent_pure with (out := Ok a). reflexivity. Qed.

Lemma transparent_diverge {A} : transparent api d (@diverge _ A).
Proof. apply transparent_pure with (out := Diverge). reflexivity. Qed.

Lemma transparent_deref {A} (p : option A) : transparent api d (deref p).
Proof.
  destruct p as [a |].
  - apply transparent_pure with (out := Ok a). reflexivity.
  - apply transparent_pure with (out := Crash). reflexivity.
Qed.

Lemma transparent_bind {A B} (m : M A) (k : A -> M B) :
  transparent api d m -> (forall a, transparent api d (k a)) ->
  transparent api d (bind m k).
Proof.
  intros Hm Hk s1 s2 V.
  destruct (Hm s1 s2 V) as (Ho & V' & new & Hc1 & Hc2).
  unfold bind.
  destruct (m s1) as [o1 s1'], (m s2) as [o2 s2']. simpl in *. subst o2.
  destruct o1 as [a | w | |]; simpl;
    try (split; [reflexivity |]; split; [exact V' |];
         exists new; split; assumption).
  destruct (Hk a s1' s2' V') as (Ho2 & V2 & new2 & Hd1 & Hd2).
  split; [exact Ho2 |]. split; [exact V2 |].
  exists (new ++ new2). rewrite Hd1, Hd2, Hc1, Hc2, <- !app_assoc.
  split; reflexivity.
Qed.

(** Under [API::get()] the continuation runs with the one singleton. *)
Lemma transparent_with_api {B} (k : API -> M B) :
  transparent api d (k api) -> transparent api d (bind API_get k).
Proof.
  intros Hk s1 s2 V. unfold API_get, bind, gets.
  rewrite (bound_api (view_left V)), (bound_api (view_right V)).
  exact (Hk s1 s2 V).
Qed.

Lemma transparent_API_initialize param :
  transparent api d (API_initialize param).
Proof.
  intros s1 s2 V. unfold API_initialize, bind, gets, throw.
  destruct param as [p |];
    rewrite ?(bound_api (view_left V)), ?(bound_api (view_right V)); simpl;
    (split; [reflexivity |]; split; [exact V |];
     exists []; rewrite !app_nil_r; split; reflexivity).
Qed.

Lemma transparent_call fn args : transparent api d (call fn args).
Proof.
  intros s1 s2 V. unfold call. rewrite <- (view_host V).
  destruct (fn =? 0); simpl.
  - split; [reflexivity |]. split; [exact V |].
    exists []. rewrite !app_nil_r. split; reflexivity.
  - destruct (ffi fn args (host s1)) as [h' r]. simpl.
    split; [reflexivity |]. split.
    + destruct V as [B1 B2 Hh Hr].
      split; [apply bound_log_call, B1 | apply bound_log_call, B2
             | reflexivity | exact Hr].
    + exists [(fn, args)]. split; reflexivity.
Qed.

(** A [static_class()] result is part of the view: both sides hold it or
    neither does. *)
Lemma transparent_static_result v init :
  is_result v = true -> transparent api d init ->
  transparent api d (static_local v init).
Proof.
  intros Hv Hi s1 s2 V. unfold static_local.
  rewrite <- (view_results V v Hv).
  destruct (statics s1 v) as [x |] eqn:E.
  - simpl. split; [reflexivity |]. split; [exact V |].
    exists []. rewrite !app_nil_r. split; reflexivity.
  - destruct (Hi s1 s2 V) as (Ho & V' & new & Hc1 & Hc2).
    destruct (init s1) as [o1 s1'], (init s2) as [o2 s2'].
    simpl in *. subst o2.
    destruct o1 as [x | w | |]; simpl;
      try (split; [reflexivity |]; split; [exact V' |];
           exists new; split; assumption).
    split; [reflexivity |]. split.
    + destruct V' as [B1 B2 Hh Hr].
      assert (Hsrc : static_source v d = None) by (destruct v; easy).
      split.
      * apply bound_set_static; [exact B1 | congruence | intros _; exact Hsrc].
      * apply bound_set_static; [exact B2 | congruence | intros _; exact Hsrc].
      * exact Hh.
      * intros v' Hv'. simpl. rewrite (Hr v' Hv'). reflexivity.
    + exists new. split; assumption.
Qed.

Ltac settled_static :=
  first
    [ apply settled_static_hook; reflexivity
    | apply settled_static_sdk_member; reflexivity
    | apply (settled_static_member KFName); reflexivity
    | apply (settled_static_member KUObject); reflexivity
    | apply (settled_static_member KUStruct); reflexivity
    | apply (settled_static_member KUClass); reflexivity
    | apply (settled_static_member KUFunction); reflexivity
    | apply (settled_static_member KFField); reflexivity
    | apply (settled_static_member KFProperty); reflexivity
    | apply (settled_static_member KFFieldClass); reflexivity ].

Ltac transparent_tac :=
  repeat first
    [ apply transparent_ret | apply transparent_call
    | apply transparent_diverge | apply transparent_deref
    | apply transparent_API_initialize
    | apply transparent_static_result; [reflexivity |]
    | eapply transparent_of_settled; settled_static
    | apply transparent_with_api
    | apply transparent_bind; [| intros ?]
    | match goal with
      | H : forall this outer acc,
              transparent _ _ (get_full_name_loop _ this outer acc)
        |- transparent _ _ (get_full_name_loop _ _ _ _) => apply H
      | |- transparent _ _ (if ?c then _ else _) => destruct c
      | |- transparent _ _ (match ?x with TUObject => _ | _ => _ end) =>
          destruct x
      end
    | progress cbv zeta ].

Lemma transparent_get_full_name_loop fuel :
  forall this outer acc,
    transparent api d (get_full_name_loop fuel this outer acc).
Proof.
  induction fuel as [| fuel IH]; intros this outer acc; simpl;
    destruct (negb (outer =? 0) && negb (outer =? this));
    expose; transparent_tac.
Qed.

Lemma transparent_exec op : transparent api d (exec op).
Proof.
  destruct op; try pose proof (transparent_get_full_name_loop fuel);
    expose; transparent_tac.
Qed.

Lemma same_view_refl s : bound api d s -> same_view api d s s.
Proof. intro B. split; auto. Qed.

Lemma run_same_view ops :
  forall s1 s2,
    same_view api d s1 s2 ->
    same_view api d (run ops s1) (run ops s2) /\
    exists new,
      calls (run ops s1) = calls s1 ++ new /\
      calls (run ops s2) = calls s2 ++ new.
Proof.
  induction ops as [| op ops IH]; intros s1 s2 V; simpl.
  - split; [exact V |]. exists []. rewrite !app_nil_r. split; reflexivity.
  - destruct (transparent_exec op V) as (Ho & V' & new & Hc1 & Hc2).
    destruct (exec op s1) as [o1 s1'], (exec op s2) as [o2 s2'].
    simpl in *. subst o2.
    destruct o1 as [a | w | |];
      try (split; [exact V' |]; exists new; split; assumption);
      destruct (IH s1' s2' V') as (V2 & new2 & Hd1 & Hd2);
      (split; [exact V2 |]; exists (new ++ new2);
       rewrite Hd1, Hd2, Hc1, Hc2, <- !app_assoc; split; reflexivity).
Qed.

End Transparency.

(** X13.  Lazy binding cannot be observed.  Take two states of a process
    bound to the same singleton that differ only in what has been cached so
    far (table pointers, function-pointer statics), with the same host state
    and the same [static_class()] results.  Then any sequence of operations
    makes the same host calls from both, and any operation after it has the
    same outcome in both: a first use and a later use of a wrapper behave
    alike. *)
Theorem lazy_binding_is_invisible api d (s1 s2 : State) (ops : list Op)
    (op : Op) :
  same_view api d s1 s2 ->
  fst (exec op (run ops s1)) = fst (exec op (run ops s2)) /\
  exists new,
    calls (snd (exec op (run ops s1))) = calls s1 ++ new /\
    calls (snd (exec op (run ops s2))) = calls s2 ++ new.
Proof.
  intro V.
  destruct (run_same_view ops V) as (V1 & new & Hc1 & Hc2).
  destruct (transparent_exec op V1) as (Ho & _ & new2 & Hd1 & Hd2).
  split; [exact Ho |].
  exists (new ++ new2). rewrite Hd1, Hd2, Hc1, Hc2, <- !app_assoc.
  split; reflexivity.
Qed.

(** ** A missing table *)

Section Missing.
Variables (api : API) (d : UEVR_SDKData).

(** The first step of a wrapper method whose table is missing. *)
Lemma missing_member k (field : Table k -> FnPtr) v (s : State) :
  bound api d s -> sdk_table k d = None ->
  is_result v = false ->
  static_source v d = option_map field (sdk_table k d) ->
  fst (static_local v (member (initialize k) field) s) = Crash.
Proof.
  intros Bs Hk Hr Hv.
  destruct (settled_static_member k field v Hr Hv Bs) as (s' & E & _).
  rewrite Hk in E. rewrite E. reflexivity.
Qed.

(** [static_class()] in a bound process returns or is lost; it leaves the
    process bound. *)
Lemma static_class_of_bound T (s : State) :
  bound api d s ->
  bound api d (snd (static_class_of T s)) /\
  ((exists r, fst (static_class_of T s) = Ok r) \/
   fst (static_class_of T s) = Crash).
Proof.
  intro Bs.
  assert (V : same_view api d s s) by (apply same_view_refl; exact Bs).
  pose proof (transparent_exec (Op_static_class T) V) as (_ & V' & _).
  assert (E : snd (exec (Op_static_class T) s) = snd (static_class_of T s)).
  { unfold exec, fmap, bind.
    destruct (static_class_of T s) as [[r | w | |] s']; reflexivity. }
  rewrite E in V'. split; [exact (view_left V') |].
  clear E V V'.
  assert (Hinit : forall name,
             exists o s',
               bind API_get (fun a => API_find_uobject T_UClass a name) s
                 = (o, s') /\
               ((exists r, o = Ok r) \/ o = Crash)).
  { intro name.
    assert (Eg : API_get s = (Ok api, s)).
    { unfold API_get, bind, gets. rewrite (bound_api Bs). reflexivity. }
    erewrite bind_ok by exact Eg. unfold API_find_uobject.
    destruct (settled_static_sdk_member uobject_array
                UObjectArrayFunctions.find_uobject
                (find_uobject_fn T_UClass)
                eq_refl eq_refl Bs) as (s1 & E1 & _).
    destruct (option_map UObjectArrayFunctions.find_uobject
                (uobject_array d)) as [fn |].
    - erewrite bind_ok by exact E1.
      destruct (N.eqb_spec fn 0) as [Z | NZ].
      + exists Crash, s1. split; [| right; reflexivity].
        unfold bind, call. rewrite Z. reflexivity.
      + erewrite bind_ok by (apply call_ok; exact NZ).
        eexists. eexists. split; [reflexivity | left; eauto].
    - exists Crash, s1. split; [| right; reflexivity].
      unfold bind. rewrite E1. reflexivity. }
  assert (H : forall v name,
             (exists r, fst (static_class v name s) = Ok r) \/
             fst (static_class v name s) = Crash).
  { intros v name. unfold static_class, static_local.
    destruct (statics s v) as [x |]; [left; exists x; reflexivity |].
    destruct (Hinit (view_of name)) as (o & s' & E & [(r & ->) | ->]);
      rewrite E.
    - left. exists r. reflexivity.
    - right. reflexivity. }
  destruct T; apply H.
Qed.

Lemma bind_crash {A B} (m : M A) (k : A -> M B) (s : State) :
  fst (m s) = Crash -> fst (bind m k s) = Crash.
Proof.
  unfold bind. destruct (m s) as [[a | w | |] s']; simpl; intro E;
    solve [discriminate E | reflexivity].
Qed.

Ltac missing_tac Bs Hk :=
  repeat apply bind_crash;
  first
    [ apply (missing_member KFName) with (2 := Hk)
    | apply (missing_member KUObject) with (2 := Hk)
    | apply (missing_member KUStruct) with (2 := Hk)
    | apply (missing_member KUClass) with (2 := Hk)
    | apply (missing_member KUFunction) with (2 := Hk)
    | apply (missing_member KFField) with (2 := Hk)
    | apply (missing_member KFProperty) with (2 := Hk)
    | apply (missing_member KFFieldClass) with (2 := Hk) ];
  solve [exact Bs | reflexivity].

Lemma missing_exec (s : State) op k ks :
  bound api d s -> op_kinds op = k :: ks -> sdk_table k d = None ->
  (forall this params, op <> Op_UFunction_call this 0 params) ->
  fst (exec op s) = Crash.
Proof.
  intros Bs Hop Hk Hcall.
  destruct op; simpl in Hop; try discriminate Hop;
    injection Hop as <- <-;
    try (expose; solve [missing_tac Bs Hk]).
  - (* is_a<T>() *)
    unfold exec, fmap, UObject_is_a_T. apply bind_crash.
    destruct (static_class_of_bound T Bs) as [Bs' [(r & Hr) | Hc]];
      [| apply bind_crash; exact Hc].
    unfold bind at 1.
    destruct (static_class_of T s) as [o s']. simpl in Hr, Bs'. subst o.
    expose. missing_tac Bs' Hk.
  - (* UFunction::call *)
    destruct obj as [| p]; [contradiction (Hcall this params); reflexivity |].
    unfold exec, fmap, UFunction_call. simpl.
    expose. missing_tac Bs Hk.
Qed.

End Missing.

(** X15.  A missing table is fatal at first use, every time: in a bound
    process, an operation whose (first) kind has a null table in the
    descriptor ends in undefined behaviour -- the null table pointer is
    dereferenced -- and never returns or throws.  The one exception is
    [UFunction::call] on a null object, which does not get that far. *)
Theorem missing_table_is_fatal api d (s : State) op k ks :
  bound api d s -> op_kinds op = k :: ks -> sdk_table k d = None ->
  (forall this params, op <> Op_UFunction_call this 0 params) ->
  fst (exec op s) = Crash.
Proof. intros Bs Hop Hk Hcall. exact (missing_exec Bs Hop Hk Hcall). Qed.

(** Every state reached after a successful [initialize] is bound. *)
Lemma reachable_bound (h : hstate) p d (ops : list Op) :
  sdk p = Some d ->
  bound (API_ctor p) d (run ops (run [Op_initialize (Some p)] (initial h))).
Proof.
  intro Hd.
  assert (B0 : bound (API_ctor p) d (run [Op_initialize (Some p)] (initial h))).
  { split.
    - apply initialized_linked. exact Hd.
    - reflexivity.
    - exact Hd.
    - intros v x _ E. discriminate E. }
  destruct (run_same_view ops (same_view_refl B0)) as ([B _ _ _] & _).
  exact B.
Qed.


(** ** Two threads making their first access *)

Section Race.
Variables (k : Kind) (api : API) (d : UEVR_SDKData).
Hypothesis api_sdk : m_sdk api = Some d.

Lemma initialize_step_race (pc : Pc k) (s : State) :
  s_instance s = Some api ->
  s_functions k s = None \/ s_functions k s = sdk_table k d ->
  past d pc s ->
  exists pc' s',
    initialize_step pc s = (Ok pc', s') /\
    s_instance s' = Some api /\
    (s_functions k s' = None \/ s_functions k s' = sdk_table k d) /\
    past d pc' s' /\
    (forall q : Pc k, past d q s -> past d q s') /\
    (fetch_count k s' + pending pc' <= fetch_count k s + pending pc)%nat /\
    host s' = host s /\ calls s' = calls s.
Proof.
  intros Hi Hc Hp. destruct pc as [| | | r]; simpl.
  - unfold bind, gets, ret.
    destruct (s_functions k s) as [t |] eqn:E.
    + exists at_return, s. split; [reflexivity |]. split; [exact Hi |].
      split; [rewrite E; exact Hc |].
      split; [simpl; rewrite E; destruct Hc as [Hc | Hc]; congruence |].
      split; [auto |]. split; [simpl; lia |]. split; reflexivity.
    + exists at_assign, s. split; [reflexivity |]. split; [exact Hi |].
      split; [rewrite E; exact Hc |]. split; [exact I |].
      split; [auto |]. split; [simpl; lia |]. split; reflexivity.
  - unfold API_get, bind, gets, modify, deref, ret. rewrite Hi, api_sdk.
    exists at_return, (set_s_functions k (sdk_table k d) (log_fetch k s)).
    split; [reflexivity |]. split; [destruct k; exact Hi |].
    split; [right; apply s_functions_set |].
    split; [apply s_functions_set |].
    split.
    { intros q Hq. destruct q as [| | | r]; simpl;
        rewrite ?s_functions_set; try exact I; try reflexivity.
      destruct Hq as [Hr _]. split; [exact Hr | reflexivity]. }
    split.
    { rewrite fetch_count_set, fetch_count_log_fetch. simpl.
      destruct (Kind_eq_dec k k); [lia | contradiction]. }
    split; destruct k; reflexivity.
  - unfold bind, gets, ret. simpl in Hp.
    exists (returned (s_functions k s)), s. split; [reflexivity |].
    split; [exact Hi |]. split; [exact Hc |].
    split; [simpl; split; exact Hp |].
    split; [auto |]. split; [simpl; lia |]. split; reflexivity.
  - exists (returned r), s. split; [reflexivity |].
    split; [exact Hi |]. split; [exact Hc |]. split; [exact Hp |].
    split; [auto |]. split; [simpl; lia |]. split; reflexivity.
Qed.

Lemma interleave_race schedule :
  forall (pcs : Pc k * Pc k) (s : State),
    s_instance s = Some api ->
    s_functions k s = None \/ s_functions k s = sdk_table k d ->
    past d (fst pcs) s -> past d (snd pcs) s ->
    exists pcs' s',
      interleave schedule pcs s = (Ok pcs', s') /\
      (s_functions k s' = None \/ s_functions k s' = sdk_table k d) /\
      past d (fst pcs') s' /\ past d (snd pcs') s' /\
      (fetch_count k s' + pending (fst pcs') + pending (snd pcs')
       <= fetch_count k s + pending (fst pcs) + pending (snd pcs))%nat /\
      host s' = host s /\ calls s' = calls s.
Proof.
  induction schedule as [| b rest IH]; intros [p1 p2] s Hi Hc H1 H2;
    simpl in H1, H2.
  - exists (p1, p2), s. split; [reflexivity |]. split; [exact Hc |].
    split; [exact H1 |]. split; [exact H2 |].
    split; [simpl; lia |]. split; reflexivity.
  - destruct b; simpl.
    + destruct (initialize_step_race p1 s Hi Hc H1)
        as (p1' & s1 & E & Hi1 & Hc1 & P1 & Keep & Hn & Hh & Hl).
      erewrite bind_ok by exact E.
      destruct (IH (p1', p2) s1 Hi1 Hc1 P1 (Keep _ H2))
        as (pcs' & s' & E' & Hc' & Q1 & Q2 & Hn' & Hh' & Hl').
      exists pcs', s'. split; [exact E' |]. split; [exact Hc' |].
      split; [exact Q1 |]. split; [exact Q2 |].
      split; [simpl in Hn'; lia |]. split; congruence.
    + destruct (initialize_step_race p2 s Hi Hc H2)
        as (p2' & s1 & E & Hi1 & Hc1 & P2 & Keep & Hn & Hh & Hl).
      erewrite bind_ok by exact E.
      destruct (IH (p1, p2') s1 Hi1 Hc1 (Keep _ H1) P2)
        as (pcs' & s' & E' & Hc' & Q1 & Q2 & Hn' & Hh' & Hl').
      exists pcs', s'. split; [exact E' |]. split; [exact Hc' |].
      split; [exact Q1 |]. split; [exact Q2 |].
      split; [simpl in Hn'; lia |]. split; congruence.
Qed.

End Race.

(** X17.  Two threads that make their first access to a kind at the same
    time, under any schedule: the table is read out of the descriptor at
    most twice, no host call is made, a thread that returns returns the
    table the descriptor holds, and the cache holds nothing else -- the
    unguarded assignment stores the same pointer twice at worst. *)
Theorem racing_first_access_at_most_twice k (s : State) api d schedule :
  s_instance s = Some api -> m_sdk api = Some d ->
  s_functions k s = None ->
  exists pcs s',
    interleave schedule (@at_test k, @at_test k) s = (Ok pcs, s') /\
    (fetch_count k s' <= fetch_count k s + 2)%nat /\
    (forall r, fst pcs = returned r \/ snd pcs = returned r ->
               r = sdk_table k d /\ s_functions k s' = sdk_table k d) /\
    (s_functions k s' = None \/ s_functions k s' = sdk_table k d) /\
    host s' = host s /\ calls s' = calls s.
Proof.
  intros Hi Hd E.
  destruct (@interleave_race k api d Hd schedule (at_test, at_test) s Hi
              (or_introl E) I I)
    as (pcs & s' & E' & Hc & P1 & P2 & Hn & Hh & Hl).
  exists pcs, s'. split; [exact E' |].
  split; [simpl in Hn; lia |].
  split; [| split; [exact Hc | split; [exact Hh | exact Hl]]].
  intros r [Hr | Hr]; [rewrite Hr in P1; exact P1 | rewrite Hr in P2; exact P2].
Qed.

End More.


(** * The further properties at work *)

Lemma initial_unbound (h : nat) : unbound (@initial Demo.demo_host h).
Proof. split; [reflexivity | intro k; destruct k; reflexivity | reflexivity]. Qed.

Lemma full_linked : linked Full.started Full.full_sdk.
Proof.
  exact (initialized_linked (host_model := Full.host) O Full.full_param eq_refl).
Qed.

Lemma full_ready :
  names_ready Full.full_sdk (UObjectFunctions.mk 2 3 8 9 10 11 4)
    (FNameFunctions.mk 1).
Proof. split; solve [reflexivity | discriminate]. Qed.

(** Object-graph facts of the complete host, by evaluation. *)
Ltac full_fact :=
  first
    [ discriminate
    | intro; reflexivity
    | match goal with
      | |- host_named _ _ ?x _ =>
          exists (100 + x);
          split; [intro; reflexivity | split; intro; reflexivity]
      end ].

Lemma use_before_initialize_rejected_witness :
  exec (Op_get_full_name 2 12) (@initial Demo.demo_host O)
    = (Throw "API not initialized", @initial Demo.demo_host O).
Proof.
  exact (use_before_initialize_rejected (Op_get_full_name 2 12)
           (initial_unbound O)).
Defined.

Lemma failed_attempts_leave_no_trace_witness :
  run [Op_get_class 12; Op_FName_to_string 112; Op_initialize None;
       Op_get_objects_matching 20 false; Op_static_class TUClass]
    (@initial Demo.demo_host O) = @initial Demo.demo_host O.
Proof.
  apply failed_attempts_leave_no_trace; [apply initial_unbound |].
  repeat constructor; discriminate.
Defined.

Lemma bridge_errors_once_initialized_witness :
  "API already initialized"%string <> "API not initialized"%string /\
  exists param,
    Op_initialize (Some Full.full_param) = Op_initialize param /\
    Full.started = Full.started /\
    "API already initialized"%string
      = match param with
        | None => "param is null"
        | Some _ => "API already initialized"
        end%string.
Proof.
  refine (@bridge_errors_once_initialized Full.host Full.started
            (Op_initialize (Some Full.full_param)) _ _ _ _ _).
  - discriminate.
  - reflexivity.
  - reflexivity.
Defined.

Lemma operation_reads_only_its_kinds_witness :
  In KFName (fetches Full.started) \/
  In KFName (op_kinds (Op_FFieldClass_get_name 7)).
Proof.
  apply (operation_reads_only_its_kinds (Op_FFieldClass_get_name 7)
           Full.started KFName).
  vm_compute. right. left. reflexivity.
Defined.

Lemma complete_descriptor_no_undefined_behaviour_witness :
  linked (snd (exec (Op_is_a_T TUClass 12) Full.started)) Full.full_sdk /\
  match fst (exec (Op_is_a_T TUClass 12) Full.started) with
  | Ok _ => True
  | Throw w => bridge_error w = false
  | Crash => False
  | Diverge => exists fuel this, Op_is_a_T TUClass 12 = Op_get_full_name fuel this
  end.
Proof.
  apply (@complete_descriptor_no_undefined_behaviour Full.host Full.started
           (API_ctor Full.full_param) Full.full_sdk (Op_is_a_T TUClass 12)
           eq_refl eq_refl full_linked eq_refl eq_refl);
    discriminate.
Defined.

(** The complete host knows no property: [get_property_data<T>] answers
    null, and [get_property<T>] dereferences it. *)
Lemma get_property_undefined_on_null_witness :
  fst (exec (Op_get_property T_UObject 12 (view_of [80])) Full.started)
    = Crash /\
  fst (exec (Op_get_property_data_T T_UObject 12 (view_of [80]))
         Full.started) = Ok (VWord 0).
Proof.
  destruct (@get_property_undefined_on_null Full.host Full.started
              (API_ctor Full.full_param) Full.full_sdk T_UObject 12
              (view_of [80]) eq_refl eq_refl full_linked eq_refl)
    as (ut & Hu & _ & H1 & H2).
  injection Hu as <-. split; [exact H1 | exact H2].
Defined.

Lemma get_full_name_any_depth_witness :
  fst (UObject_get_full_name 1 40 Full.started) = Ok [20; 32; 41; 46; 40].
Proof.
  apply (get_full_name_any_depth (C := 40) (K := 20) (o := 41)
           (anc := [(41, [41])]) (tC := [40]) (tK := [20])
           (fuel := 1%nat) full_linked full_ready);
    try full_fact.
  - apply path_step with (next := 40); try full_fact.
    apply path_end. right. reflexivity.
  - simpl. lia.
Defined.

Lemma get_full_name_never_returns_witness :
  fst (UObject_get_full_name 1000 30 Full.started) = Diverge.
Proof.
  apply (get_full_name_never_returns (C := 30) (K := 20) (o := 31)
           (tC := [30]) (P := fun x => x = 31 \/ x = 32)
           1000%nat full_linked full_ready);
    try full_fact.
  - left. reflexivity.
  - intros x [-> | ->].
    + split; [discriminate |]. split; [discriminate |].
      split; [exists [31]; full_fact |].
      exists 32. split; [full_fact | right; reflexivity].
    + split; [discriminate |]. split; [discriminate |].
      split; [exists [32]; full_fact |].
      exists 31. split; [full_fact | left; reflexivity].
Defined.

(** The complete host knows no class by name: the lookup yields null, and
    null it stays. *)
Lemma static_class_result_is_final_witness :
  fst (static_class_of TUClass
         (run [Op_find_uobject T_UObject (view_of [67]); Op_get_class 12]
            (snd (static_class_of TUClass Full.started))))
  = Ok 0.
Proof.
  rewrite (@static_class_result_is_final Full.host TUClass Full.started 0
             (snd (static_class_of TUClass Full.started)) eq_refl).
  reflexivity.
Defined.

(** An [API] object built on a descriptor without SDK is served through the
    pointer of the first, and the host reads past the end of a view that is
    not terminated. *)
Lemma find_uobject_bound_to_first_api_witness :
  let later :=
    API_find_uobject T_UObject (API_ctor (mkParam None None))
      (mkView [67] [68; 0])
      (snd (API_find_uobject T_UObject (API_ctor Full.full_param)
              (view_of [66]) Full.started)) in
  fst later = Ok 0 /\
  calls (snd later) = [(20, [AText [66]]); (20, [AText [67; 68]])].
Proof.
  intro later. subst later.
  destruct (@find_uobject_bound_to_first_api Full.host T_UObject
              (API_ctor Full.full_param) (API_ctor (mkParam None None))
              (view_of [66]) (mkView [67] [68; 0]) Full.started 0
              (snd (API_find_uobject T_UObject (API_ctor Full.full_param)
                      (view_of [66]) Full.started))
              eq_refl eq_refl)
    as (d1 & t1 & Hd & Ht & Hlater & _).
  injection Hd as <-. injection Ht as <-.
  pose proof (Hlater []) as E. unfold run in E. rewrite E.
  split; reflexivity.
Defined.

Lemma get_objects_matching_short_fill_witness :
  fst (UClass_get_objects_matching 20 false Full.started) = Ok [10; 11; 0].
Proof.
  assert (Ha : (5 : N) <> 0) by discriminate.
  assert (Hfn : (6 : N) <> 0) by discriminate.
  assert (NZ : (3 : N) <> 0) by discriminate.
  apply (get_objects_matching_short_fill 20 false full_linked eq_refl Ha Hfn
           NZ).
  simpl. lia.
Defined.

Lemma to_string_short_fill_witness :
  fst (FName_to_string 199 Full.started) = Ok [65; 0; 0].
Proof.
  assert (Hfn : (1 : N) <> 0) by discriminate.
  assert (NZ : (3 : N) <> 0) by discriminate.
  apply (to_string_short_fill 199 full_linked eq_refl Hfn NZ).
  simpl. lia.
Defined.

Lemma UFunction_call_is_process_event_witness :
  exists s',
    UFunction_call 50 12 0 Full.started = (Ok tt, s') /\
    calls s' = [(10, [AWord 12; AWord 50; AWord 0])].
Proof.
  assert (Hfn : (10 : N) <> 0) by discriminate.
  destruct (UFunction_call_is_process_event 50 12 0 full_linked eq_refl Hfn)
    as [_ H].
  destruct H as (s' & E & _ & Hc & _); [discriminate |].
  exists s'. split; [exact E | exact Hc].
Defined.

Lemma still_view :
  same_view (API_ctor Full.full_param) Full.full_sdk Full.still_started
    (run [Op_get_full_name 3 12; Op_get_objects_matching 20 false]
       Full.still_started).
Proof.
  assert (B : forall ops,
             bound (API_ctor Full.full_param) Full.full_sdk
               (run ops Full.still_started)).
  { intro ops.
    exact (@reachable_bound Full.still tt Full.full_param Full.full_sdk ops
             eq_refl). }
  split; [exact (B []) | apply B | reflexivity |].
  intros v Hv. destruct v; try discriminate Hv; reflexivity.
Qed.

Lemma lazy_binding_is_invisible_witness :
  fst (exec (Op_get_full_name 3 12) (run [] Full.still_started))
  = fst (exec (Op_get_full_name 3 12)
           (run []
              (run [Op_get_full_name 3 12; Op_get_objects_matching 20 false]
                 Full.still_started))).
Proof.
  exact (proj1 (@lazy_binding_is_invisible Full.still
                  (API_ctor Full.full_param) Full.full_sdk
                  Full.still_started
                  (run [Op_get_full_name 3 12;
                        Op_get_objects_matching 20 false]
                     Full.still_started)
                  [] (Op_get_full_name 3 12) still_view)).
Defined.


(** The first demo descriptor has no struct table. *)
Lemma racing_first_access_at_most_twice_witness :
  exists pcs s',
    interleave (k := KFName) [true; false; false; true; false; true]
      (at_test, at_test) Full.started = (Ok pcs, s') /\
    (fetch_count KFName s' <= 0 + 2)%nat /\
    calls s' = [].
Proof.
  destruct (@racing_first_access_at_most_twice Full.host KFName Full.started
              (API_ctor Full.full_param) Full.full_sdk
              [true; false; false; true; false; true]
              eq_refl eq_refl eq_refl)
    as (pcs & s' & E & Hn & _ & _ & _ & Hl).
  exists pcs, s'. split; [exact E |]. split; [exact Hn | exact Hl].
Defined.

Lemma missing_table_is_fatal_witness :
  fst (exec (Op_get_super 12) Demo.started) = Crash.
Proof.
  apply (@missing_table_is_fatal Demo.demo_host (API_ctor Demo.demo_param)
           Demo.demo_sdk Demo.started (Op_get_super 12) KUStruct []).
  - exact (@reachable_bound Demo.demo_host O Demo.demo_param Demo.demo_sdk []
             eq_refl).
  - reflexivity.
  - reflexivity.
  - discriminate.
Defined.
